(** * Multi-goal SIP planner: the financial engine of [js/calculator.js]

    A shallow embedding of the [SIPCalculator] class and the properties its
    specification states about it.

    Number model.  A JavaScript number is embedded as an exact real or one of
    the three IEEE special values ([Infinity], [-Infinity], [NaN]).  Finite
    arithmetic is exact: there is no rounding, no overflow, and one zero.
    The special values follow the IEEE / ECMAScript rules, so that the
    behaviour of the code on [NaN] and on infinite inputs can be stated.

    Loops.  The [for] loop over years and the [while] loop of the solver are
    fuel-indexed fixpoints returning [option]: [None] means that the fuel ran
    out before the loop condition became false. *)

From Stdlib Require Import Reals Lra Lia ZArith List Bool Psatz.
From Stdlib Require Import NArith.
From Stdlib Require String Ascii.
Import ListNotations.

Local Open Scope R_scope.

(** ** JavaScript numbers *)

Module JS.

Inductive num : Type :=
| Fin (r : R)
| PInf
| NInf
| NaN.

Definition Rltb (a b : R) : bool := if Rlt_dec a b then true else false.
Definition Reqb (a b : R) : bool := if Req_dec_T a b then true else false.

(** Is the real [r] a whole number? *)
Definition is_integer (r : R) : bool := Reqb (IZR (Zfloor r)) r.

Definition neg (a : num) : num :=
  match a with
  | Fin x => Fin (- x)
  | PInf => NInf
  | NInf => PInf
  | NaN => NaN
  end.

Definition add (a b : num) : num :=
  match a, b with
  | NaN, _ | _, NaN => NaN
  | Fin x, Fin y => Fin (x + y)
  | PInf, NInf | NInf, PInf => NaN
  | PInf, _ | _, PInf => PInf
  | NInf, _ | _, NInf => NInf
  end.

Definition sub (a b : num) : num := add a (neg b).

(** An infinity times the finite [x]. *)
Definition scale_inf (positive : bool) (x : R) : num :=
  if Reqb x 0 then NaN
  else if Bool.eqb (Rltb 0 x) positive then PInf else NInf.

Definition mul (a b : num) : num :=
  match a, b with
  | NaN, _ | _, NaN => NaN
  | Fin x, Fin y => Fin (x * y)
  | Fin x, PInf | PInf, Fin x => scale_inf true x
  | Fin x, NInf | NInf, Fin x => scale_inf false x
  | PInf, PInf | NInf, NInf => PInf
  | PInf, NInf | NInf, PInf => NInf
  end.

Definition div (a b : num) : num :=
  match a, b with
  | NaN, _ | _, NaN => NaN
  | Fin x, Fin y =>
      if Reqb y 0 then scale_inf true x else Fin (x / y)
  | Fin _, (PInf | NInf) => Fin 0
  | PInf, Fin y => if Rltb y 0 then NInf else PInf
  | NInf, Fin y => if Rltb y 0 then PInf else NInf
  | (PInf | NInf), (PInf | NInf) => NaN
  end.

(** [a < b]; every comparison with [NaN] is false. *)
Definition lt (a b : num) : bool :=
  match a, b with
  | NaN, _ | _, NaN => false
  | Fin x, Fin y => Rltb x y
  | NInf, NInf | PInf, _ | _, NInf => false
  | NInf, _ | _, PInf => true
  end.

Definition gt (a b : num) : bool := lt b a.

(** [a >= b]. *)
Definition ge (a b : num) : bool :=
  match a, b with
  | NaN, _ | _, NaN => false
  | Fin x, Fin y => negb (Rltb x y)
  | PInf, _ | _, NInf => true
  | NInf, _ | _, PInf => false
  end.

(** [a === b] on numbers. *)
Definition strict_eq (a b : num) : bool :=
  match a, b with
  | Fin x, Fin y => Reqb x y
  | PInf, PInf | NInf, NInf => true
  | _, _ => false
  end.

(** [ToBoolean]: zero and [NaN] are falsy. *)
Definition truthy (a : num) : bool :=
  match a with
  | Fin x => negb (Reqb x 0)
  | NaN => false
  | PInf | NInf => true
  end.

(** [Math.round]: the nearest integer, ties towards [+Infinity]. *)
Definition Math_round (a : num) : num :=
  match a with
  | Fin x => Fin (IZR (Zfloor (x + / 2)))
  | _ => a
  end.

(** [Math.max] of two numbers. *)
Definition Math_max (a b : num) : num :=
  match a, b with
  | NaN, _ | _, NaN => NaN
  | _, _ => if lt a b then b else a
  end.

(** [Math.pow], following the case list of [Number::exponentiate]. *)
Definition Math_pow (base exponent : num) : num :=
  match exponent with
  | NaN => NaN
  | Fin y =>
      if Reqb y 0 then Fin 1
      else
        match base with
        | NaN => NaN
        | PInf => if Rltb 0 y then PInf else Fin 0
        | NInf =>
            if Rltb 0 y
            then (if is_integer y && Z.odd (Zfloor y) then NInf else PInf)
            else Fin 0
        | Fin x =>
            if Reqb x 0 then (if Rltb 0 y then Fin 0 else PInf)
            else if Rltb 0 x then Fin (Rpower x y)
            else if is_integer y then Fin (powerRZ x (Zfloor y))
            else NaN
        end
  | PInf =>
      match base with
      | NaN => NaN
      | PInf | NInf => PInf
      | Fin x =>
          if Rltb 1 (Rabs x) then PInf
          else if Reqb (Rabs x) 1 then NaN else Fin 0
      end
  | NInf =>
      match base with
      | NaN => NaN
      | PInf | NInf => Fin 0
      | Fin x =>
          if Rltb 1 (Rabs x) then Fin 0
          else if Reqb (Rabs x) 1 then NaN else PInf
      end
  end.

End JS.

Import JS.

Declare Scope js_scope.
Delimit Scope js_scope with js.
Bind Scope js_scope with num.
Infix "+" := add : js_scope.
Infix "-" := sub : js_scope.
Infix "*" := mul : js_scope.
Infix "/" := div : js_scope.
Infix "<?" := lt (at level 70) : js_scope.
Infix ">?" := gt (at level 70) : js_scope.
Infix "===" := strict_eq (at level 70) : js_scope.

(** ** The calculator *)

Module SIPCalculator.

Local Open Scope js_scope.

(** [calculateInflationAdjustedAmount(currentPrice, inflationRate, years)] *)
Definition calculateInflationAdjustedAmount
    (currentPrice inflationRate years : num) : num :=
  if (currentPrice === Fin 0) || (years === Fin 0) then currentPrice
  else
    let r := inflationRate / Fin 100 in
    let futureValue := currentPrice * Math_pow (Fin 1 + r) years in
    Math_round futureValue.

(** The inner [for (month = 0; month < 12; month++)] loop of
    [calculateStepUpFutureValue]. *)
Definition months_loop (monthlyRate monthsRemaining currentSIP : num)
    (futureValue : num) : num :=
  fold_left
    (fun futureValue month =>
       let totalMonths := monthsRemaining - Fin (INR month) in
       futureValue + currentSIP * Math_pow (Fin 1 + monthlyRate) totalMonths)
    (seq 0 12) futureValue.

(** The outer [for (year = 0; year < years; year++)] loop of
    [calculateStepUpFutureValue], from the state [(year, futureValue,
    currentSIP)]. *)
Fixpoint fv_years_loop (fuel : nat) (years monthlyRate annualStepUp : num)
    (year futureValue currentSIP : num) : option num :=
  if year <? years then
    match fuel with
    | O => None
    | S fuel' =>
        let monthsRemaining := (years - year) * Fin 12 in
        let futureValue' :=
          months_loop monthlyRate monthsRemaining currentSIP futureValue in
        fv_years_loop fuel' years monthlyRate annualStepUp
          (year + Fin 1) futureValue' (currentSIP * (Fin 1 + annualStepUp))
    end
  else Some futureValue.

(** [calculateStepUpFutureValue(initialSIP, years, annualRate, stepUpRate)] *)
Definition calculateStepUpFutureValue (fuel : nat)
    (initialSIP years annualRate stepUpRate : num) : option num :=
  let monthlyRate := annualRate / Fin 12 / Fin 100 in
  let annualStepUp := stepUpRate / Fin 100 in
  fv_years_loop fuel years monthlyRate annualStepUp (Fin 0) (Fin 0) initialSIP.

(** The variables of the binary search. *)
Record search := mkSearch { low : num; high : num; initialSIP : num }.

Definition tolerance : num := Fin 1.

Definition search_guard (st : search) : bool :=
  high st - low st >? tolerance.

(** One pass through the body of the [while] loop. *)
Definition search_body (fuel : nat) (targetAmount years annualRate stepUpRate : num)
    (st : search) : option search :=
  let initialSIP := (low st + high st) / Fin 2 in
  match calculateStepUpFutureValue fuel initialSIP years annualRate stepUpRate with
  | None => None
  | Some fv =>
      if fv <? targetAmount
      then Some (mkSearch initialSIP (high st) initialSIP)
      else Some (mkSearch (low st) initialSIP initialSIP)
  end.

(** [while (high - low > tolerance) { ... }]; [ofuel] bounds each call of the
    oracle, [fuel] the number of passes. *)
Fixpoint search_loop (ofuel fuel : nat)
    (targetAmount years annualRate stepUpRate : num) (st : search)
    : option search :=
  if search_guard st then
    match fuel with
    | O => None
    | S fuel' =>
        match search_body ofuel targetAmount years annualRate stepUpRate st with
        | None => None
        | Some st' =>
            search_loop ofuel fuel' targetAmount years annualRate stepUpRate st'
        end
    end
  else Some st.

Definition search_init (targetAmount : num) : search :=
  mkSearch (Fin 0) (targetAmount / Fin 12) (Fin 0).

(** [calculateStepUpSIP(targetAmount, years, annualRate, stepUpRate)] *)
Definition calculateStepUpSIP (fuel : nat)
    (targetAmount years annualRate stepUpRate : num) : option num :=
  match search_loop fuel fuel targetAmount years annualRate stepUpRate
          (search_init targetAmount) with
  | None => None
  | Some st => Some (Math_round (initialSIP st))
  end.

(** [calculateMonthlySIP(targetAmount, years, annualRate, stepUpRate)] *)
Definition calculateMonthlySIP (fuel : nat)
    (targetAmount years annualRate stepUpRate : num) : option num :=
  let n := years * Fin 12 in
  let i := annualRate / Fin 12 / Fin 100 in
  if (targetAmount === Fin 0) || (n === Fin 0) || (i === Fin 0) then Some (Fin 0)
  else if negb (truthy stepUpRate) || (stepUpRate === Fin 0) then
    let futureValueFactor := ((Math_pow (Fin 1 + i) n - Fin 1) / i) * (Fin 1 + i) in
    let monthlySIP := targetAmount / futureValueFactor in
    Some (Math_round monthlySIP)
  else calculateStepUpSIP fuel targetAmount years annualRate stepUpRate.

(** The [for] loop of [calculateTotalInvestment]. *)
Fixpoint invest_years_loop (fuel : nat) (years annualStepUp : num)
    (year totalInvestment currentSIP : num) : option num :=
  if year <? years then
    match fuel with
    | O => None
    | S fuel' =>
        invest_years_loop fuel' years annualStepUp (year + Fin 1)
          (totalInvestment + currentSIP * Fin 12)
          (currentSIP * (Fin 1 + annualStepUp))
    end
  else Some totalInvestment.

(** [calculateTotalInvestment(monthlySIP, years, stepUpRate)] *)
Definition calculateTotalInvestment (fuel : nat)
    (monthlySIP years stepUpRate : num) : option num :=
  if negb (truthy stepUpRate) || (stepUpRate === Fin 0)
  then Some (monthlySIP * years * Fin 12)
  else
    let annualStepUp := stepUpRate / Fin 100 in
    invest_years_loop fuel years annualStepUp (Fin 0) (Fin 0) monthlySIP.

(** [calculateWealthGain(futureValue, totalInvested)] *)
Definition calculateWealthGain (futureValue totalInvested : num) : num :=
  futureValue - totalInvested.

(** A goal; [stepUpRate] is an optional property ([None] is [undefined]). *)
Record Goal := mkGoal {
  currentPrice : num;
  inflationRate : num;
  years : num;
  expectedReturn : num;
  stepUpRate : option num
}.

Record Summary := mkSummary {
  totalSIP : num;
  totalFutureValue : num;
  totalInvested : num;
  totalWealthGained : num
}.

(** The three running totals of [calculateSummary]. *)
Record Totals := mkTotals { tSIP : num; tFutureValue : num; tInvested : num }.

(** [goal.stepUpRate || 0] *)
Definition stepUpRate_or_0 (goal : Goal) : num :=
  match stepUpRate goal with
  | Some s => if truthy s then s else Fin 0
  | None => Fin 0
  end.

(** The callback of [goals.forEach]. *)
Definition summary_step (fuel : nat) (acc : Totals) (goal : Goal) : option Totals :=
  let inflationAdjustedAmount :=
    calculateInflationAdjustedAmount
      (currentPrice goal) (inflationRate goal) (years goal) in
  let stepUpRate := stepUpRate_or_0 goal in
  match calculateMonthlySIP fuel inflationAdjustedAmount (years goal)
          (expectedReturn goal) stepUpRate with
  | None => None
  | Some sip =>
      match calculateTotalInvestment fuel sip (years goal) stepUpRate with
      | None => None
      | Some invested =>
          Some (mkTotals (tSIP acc + sip)
                         (tFutureValue acc + inflationAdjustedAmount)
                         (tInvested acc + invested))
      end
  end.

Fixpoint summary_forEach (fuel : nat) (goals : list Goal) (acc : Totals)
    : option Totals :=
  match goals with
  | [] => Some acc
  | goal :: rest =>
      match summary_step fuel acc goal with
      | None => None
      | Some acc' => summary_forEach fuel rest acc'
      end
  end.

(** [calculateSummary(goals)] *)
Definition calculateSummary (fuel : nat) (goals : list Goal) : option Summary :=
  match summary_forEach fuel goals (mkTotals (Fin 0) (Fin 0) (Fin 0)) with
  | None => None
  | Some t =>
      let totalWealthGained := calculateWealthGain (tFutureValue t) (tInvested t) in
      Some (mkSummary (tSIP t) (tFutureValue t)
              (Math_max (tInvested t) (Fin 0))
              (Math_max totalWealthGained (Fin 0)))
  end.

End SIPCalculator.

Import SIPCalculator.

(** ** Vocabulary of the specification

    Fuel, the real-valued quantities the loops compute on finite inputs,
    and the properties of the specification as propositions about the
    calculator. *)

(** *** Fuel *)

(** [returns c v]: the computation [c] produces [v] as soon as it is given
    enough fuel. *)
Definition returns {A : Type} (c : nat -> option A) (v : A) : Prop :=
  exists fuel0, forall fuel, (fuel0 <= fuel)%nat -> c fuel = Some v.

(** [diverges c]: no amount of fuel lets [c] finish. *)
Definition diverges {A : Type} (c : nat -> option A) : Prop :=
  forall fuel, c fuel = None.

(** *** Loop counts and sums *)

(** The number of passes of [for (year = 0; year < years; year++)] on a
    finite horizon: the least natural number that is not below [years]. *)
Definition year_count (years : R) : nat := Z.to_nat (Zceil years).

Definition Rsum (l : list R) : R := fold_right Rplus 0 l.

(** Twelve contributions of one unit, the first one compounding for
    [monthsRemaining] months. *)
Definition month_factor (b monthsRemaining : R) : R :=
  Rsum (map (fun month => Rpower b (monthsRemaining - INR month)) (seq 0 12)).

(** [n] contribution years from year [k] on, for one unit contributed monthly
    in year [k] and [g] times more each following year. *)
Fixpoint fv_sum (b g years : R) (n k : nat) : R :=
  match n with
  | O => 0
  | S n' => month_factor b ((years - INR k) * 12) + g * fv_sum b g years n' (S k)
  end.

(** What a monthly contribution of one unit is worth at the horizon. *)
Definition fv_factor (years annualRate stepUpRate : R) : R :=
  fv_sum (1 + annualRate / 12 / 100) (1 + stepUpRate / 100) years
    (year_count years) 0.

(** The loop of [calculateTotalInvestment], on reals: [n] years from the
    monthly contribution [c], growing by the factor [g] each year. *)
Fixpoint invest_sum (c g : R) (n : nat) : R :=
  match n with
  | O => 0
  | S n' => c * 12 + invest_sum (c * g) g n'
  end.

(** *** Properties of the oracle and of the solvers *)

(** The oracle returns the finite value [v]. *)
Definition fv_value (x years a s v : R) : Prop :=
  returns (fun fuel =>
             calculateStepUpFutureValue fuel (Fin x) (Fin years) (Fin a) (Fin s))
    (Fin v).

(** The oracle is worth strictly less at the first argument list than at
    the second. *)
Definition fv_lt (x1 y1 a1 s1 x2 y2 a2 s2 : R) : Prop :=
  exists v1 v2, fv_value x1 y1 a1 s1 v1 /\ fv_value x2 y2 a2 s2 v2 /\ v1 < v2.

(** The solver's result [r], fed back to the oracle, is worth the target up
    to the search tolerance of one unit of contribution plus the half unit of
    the final rounding, both valued by the oracle ([u] is what a contribution
    of one unit is worth); and [r] is within that distance of a contribution
    [x] that is worth the target exactly. *)
Definition round_trip (T years a s : R) : Prop :=
  exists r v u x,
    returns (fun fuel => calculateStepUpSIP fuel (Fin T) (Fin years) (Fin a) (Fin s))
      (Fin r)
    /\ fv_value r years a s v
    /\ fv_value 1 years a s u
    /\ Rabs (v - T) <= (1 + / 2) * u
    /\ fv_value x years a s T
    /\ Rabs (r - x) <= 1 + / 2.

(** The states of the search variables at the head of the [while] loop:
    the initial one, and the one after each pass through the body. *)
Inductive search_reaches (T years a s : num) : search -> Prop :=
| reaches_init : search_reaches T years a s (search_init T)
| reaches_body st st' ofuel :
    search_reaches T years a s st ->
    search_guard st = true ->
    search_body ofuel T years a s st = Some st' ->
    search_reaches T years a s st'.

(** [oracle(low) <= targetAmount <= oracle(high)]. *)
Definition brackets (T years a s : R) (st : search) : Prop :=
  exists vlo vhi,
    returns (fun fuel =>
               calculateStepUpFutureValue fuel (low st) (Fin years) (Fin a) (Fin s))
      (Fin vlo)
    /\ returns (fun fuel =>
                  calculateStepUpFutureValue fuel (high st) (Fin years) (Fin a) (Fin s))
         (Fin vhi)
    /\ vlo <= T <= vhi.

(** The initial upper bound overshoots the target, and every state of the
    search brackets it. *)
Definition search_bracketing (T years a s : R) : Prop :=
  (exists v,
     returns (fun fuel =>
                calculateStepUpFutureValue fuel (Fin T / Fin 12)%js
                  (Fin years) (Fin a) (Fin s))
       (Fin v)
     /\ T <= v)
  /\ forall st,
       search_reaches (Fin T) (Fin years) (Fin a) (Fin s) st ->
       brackets T years a s st.

(** The annuity-due formula of the specification, on numbers. *)
Definition level_sip_formula (targetAmount years annualRate : num) : num :=
  let n := (years * Fin 12)%js in
  let i := (annualRate / Fin 12 / Fin 100)%js in
  Math_round
    (targetAmount / (((Math_pow (Fin 1 + i) n - Fin 1) / i) * (Fin 1 + i)))%js.

(** The same formula on reals: [T / (((1+i)^n - 1) / i * (1+i))], rounded. *)
Definition level_sip_real (T years a : R) : R :=
  let n := years * 12 in
  let i := a / 12 / 100 in
  IZR (Zfloor (T / ((Rpower (1 + i) n - 1) / i * (1 + i)) + / 2)).

(** With no step-up the search and the closed formula agree to within one
    unit. *)
Definition level_sip_reduction (T years a : R) : Prop :=
  exists r1 r2,
    returns (fun fuel => calculateStepUpSIP fuel (Fin T) (Fin years) (Fin a) (Fin 0))
      (Fin r1)
    /\ returns (fun fuel =>
                  calculateMonthlySIP fuel (Fin T) (Fin years) (Fin a) (Fin 0))
         (Fin r2)
    /\ Rabs (r1 - r2) <= 1.

(** Strictly increasing in the contribution, in the step-up rate, in the
    horizon and in the annual rate, the other arguments held fixed. *)
Definition contribution_monotone (years a s : R) : Prop :=
  forall x1 x2, x1 < x2 -> fv_lt x1 years a s x2 years a s.

Definition step_up_monotone (x years a s : R) : Prop :=
  forall s', s < s' -> fv_lt x years a s x years a s'.

Definition years_monotone (x years a s : R) : Prop :=
  forall years', years < years' -> fv_lt x years a s x years' a s.

Definition rate_monotone (x years a s : R) : Prop :=
  forall a', a < a' -> fv_lt x years a s x years a' s.

(** The monotonicity property of the specification, at a positive
    contribution [x] and the parameters [years], [a], [s]. *)
Definition oracle_monotone (x years a s : R) : Prop :=
  contribution_monotone years a s
  /\ fv_value 0 years a s 0
  /\ step_up_monotone x years a s
  /\ years_monotone x years a s
  /\ rate_monotone x years a s.

(** *** Goals and summaries *)

(** The non-negativity floor of the specification: the summary is returned
    and both totals satisfy [>= 0]. *)
Definition summary_floor (goals : list Goal) : Prop :=
  exists sm,
    returns (fun fuel => calculateSummary fuel goals) sm
    /\ ge (totalInvested sm) (Fin 0) = true
    /\ ge (totalWealthGained sm) (Fin 0) = true.

(** A goal as the importer's [validateGoal] accepts it, with finite fields. *)
Definition valid_goal (goal : Goal) : Prop :=
  exists p r y e,
    currentPrice goal = Fin p /\ inflationRate goal = Fin r
    /\ years goal = Fin y /\ expectedReturn goal = Fin e
    /\ 0 < p /\ 0 <= r /\ 0 < y /\ 0 < e
    /\ (stepUpRate goal = None
        \/ exists s, stepUpRate goal = Some (Fin s) /\ 0 <= s).

Definition zero_summary : Summary := mkSummary (Fin 0) (Fin 0) (Fin 0) (Fin 0).

(** A house of 5000000 in ten years: 7% inflation, 12% return, 10% step-up. *)
Definition house_goal : Goal :=
  mkGoal (Fin 5000000) (Fin 7) (Fin 10) (Fin 12) (Some (Fin 10)).

(** A goal with finite fields on which the inflated target is [NaN]: a
    deflation of 200% a year makes the base [-1], and [Math.pow(-1, 0.5)] is
    [NaN]. *)
Definition nan_goal : Goal :=
  mkGoal (Fin 100) (Fin (-200)) (Fin (1 / 2)) (Fin 12) (Some (Fin 0)).

(** ** The earlier calculator

    [js/calculator.js] also holds the calculator as it was before step-up
    contributions: [calculateMonthlySIP] and [calculateTotalInvestment] take
    no [stepUpRate] and [calculateSummary] reads none.  Nothing in it loops,
    so it needs no fuel.  [calculateInflationAdjustedAmount] and
    [calculateWealthGain] have the same text in both and are shared. *)

Module LegacyCalculator.

Local Open Scope js_scope.

(** [calculateMonthlySIP(targetAmount, years, annualRate)] *)
Definition calculateMonthlySIP (targetAmount years annualRate : num) : num :=
  let n := years * Fin 12 in
  let i := annualRate / Fin 12 / Fin 100 in
  if (targetAmount === Fin 0) || (n === Fin 0) || (i === Fin 0) then Fin 0
  else
    let futureValueFactor := ((Math_pow (Fin 1 + i) n - Fin 1) / i) * (Fin 1 + i) in
    let monthlySIP := targetAmount / futureValueFactor in
    Math_round monthlySIP.

(** [calculateTotalInvestment(monthlySIP, years)] *)
Definition calculateTotalInvestment (monthlySIP years : num) : num :=
  monthlySIP * years * Fin 12.

(** [calculateSummary(goals)] *)
Definition calculateSummary (goals : list Goal) : Summary :=
  let t :=
    fold_left
      (fun acc goal =>
         let inflationAdjustedAmount :=
           calculateInflationAdjustedAmount
             (currentPrice goal) (inflationRate goal) (years goal) in
         let sip :=
           calculateMonthlySIP inflationAdjustedAmount (years goal)
             (expectedReturn goal) in
         mkTotals (tSIP acc + sip)
                  (tFutureValue acc + inflationAdjustedAmount)
                  (tInvested acc + calculateTotalInvestment sip (years goal)))
      goals (mkTotals (Fin 0) (Fin 0) (Fin 0)) in
  let totalWealthGained := calculateWealthGain (tFutureValue t) (tInvested t) in
  mkSummary (tSIP t) (tFutureValue t)
    (Math_max (tInvested t) (Fin 0))
    (Math_max totalWealthGained (Fin 0)).

End LegacyCalculator.

(** *** Sums of numbers, in the order a loop adds them *)

Definition sum_num (l : list num) : num := fold_left add l (Fin 0).

(** The inflated target of a goal, as [calculateSummary] computes it. *)
Definition inflated_target (goal : Goal) : num :=
  calculateInflationAdjustedAmount
    (currentPrice goal) (inflationRate goal) (years goal).

(** What [calculateSummary] computes for one goal with the fuel [fuel]: the
    required contribution and the total invested. *)
Definition goal_row (fuel : nat) (goal : Goal) (row : num * num) : Prop :=
  calculateMonthlySIP fuel (inflated_target goal) (years goal)
    (expectedReturn goal) (stepUpRate_or_0 goal) = Some (fst row)
  /\ calculateTotalInvestment fuel (fst row) (years goal) (stepUpRate_or_0 goal)
     = Some (snd row).

(** ** Strings

    A string is the sequence of its UTF-16 code units. *)

Module JSString.

Import String.

Definition jsstring := list N.

(** The code units of the double quote, the comma and the line feed. *)
Definition quote : N := 34.
Definition comma : N := 44.
Definition newline : N := 10.

(** The code units [trim] strips: [WhiteSpace] and [LineTerminator]. *)
Definition is_white_space (c : N) : bool :=
  existsb (N.eqb c)
    [9; 10; 11; 12; 13; 32; 160; 5760; 8232; 8233; 8239; 8287; 12288; 65279]%N
  || ((8192 <=? c) && (c <=? 8202))%N.

Fixpoint trimStart (s : jsstring) : jsstring :=
  match s with
  | [] => []
  | c :: s' => if is_white_space c then trimStart s' else s
  end.

Definition trimEnd (s : jsstring) : jsstring := rev (trimStart (rev s)).

(** [s.trim()] *)
Definition trim (s : jsstring) : jsstring := trimEnd (trimStart s).

(** [s.includes(c)], for a string [c] of one code unit. *)
Definition includes (s : jsstring) (c : N) : bool := existsb (N.eqb c) s.

(** [cells.join(sep)] *)
Fixpoint join (sep : jsstring) (cells : list jsstring) : jsstring :=
  match cells with
  | [] => []
  | cell :: rest =>
      match rest with
      | [] => cell
      | _ :: _ => cell ++ sep ++ join sep rest
      end
  end.

(** [s.split(sep)], for a separator [sep] of one code unit: the pieces
    between the separators, at least one. *)
Fixpoint split (s : jsstring) (sep : N) : list jsstring :=
  match s with
  | [] => [[]]
  | c :: s' =>
      if (c =? sep)%N then [] :: split s' sep
      else
        match split s' sep with
        | piece :: pieces => (c :: piece) :: pieces
        | [] => [[c]]
        end
  end.

(** A string of ASCII characters, from a literal. *)
Definition of_string (s : string) : jsstring :=
  map Ascii.N_of_ascii (list_ascii_of_string s).

End JSString.

Import JSString.

(** A string that does not begin with white space, and one that [trim]
    leaves as it is. *)
Definition clean_start (s : jsstring) : Prop :=
  match s with
  | [] => True
  | c :: _ => is_white_space c = false
  end.

Definition trimmed (s : jsstring) : Prop := trim s = s.

(** ** Two more operations on numbers *)

Module JSOrder.

(** [a <= b]; every comparison with [NaN] is false. *)
Definition le (a b : num) : bool :=
  match a, b with
  | NaN, _ | _, NaN => false
  | Fin x, Fin y => negb (Rltb y x)
  | NInf, _ | _, PInf => true
  | PInf, _ | _, NInf => false
  end.

(** [isNaN(a)] on a number. *)
Definition isNaN (a : num) : bool :=
  match a with
  | NaN => true
  | _ => false
  end.

End JSOrder.

Infix "<=?" := JSOrder.le (at level 70) : js_scope.

(** ** The importer: [js/app.js] *)

Module Importer.

(** The [for] loop of [parseCSVLine] from the character [line[i]] on;
    [i++] in the body skips the second quote of a doubled one. *)
Fixpoint parseCSVLine_loop (line : jsstring) (values : list jsstring)
    (current : jsstring) (inQuotes : bool) : list jsstring :=
  match line with
  | [] => values ++ [trim current]
  | char :: rest =>
      if (char =? quote)%N then
        match rest with
        | nextChar :: rest' =>
            if inQuotes && (nextChar =? quote)%N
            then parseCSVLine_loop rest' values (current ++ [quote]) inQuotes
            else parseCSVLine_loop rest values current (negb inQuotes)
        | [] => parseCSVLine_loop rest values current (negb inQuotes)
        end
      else if (char =? comma)%N && negb inQuotes
      then parseCSVLine_loop rest (values ++ [trim current]) [] inQuotes
      else parseCSVLine_loop rest values (current ++ [char]) inQuotes
  end.

(** [parseCSVLine(line)] *)
Definition parseCSVLine (line : jsstring) : list jsstring :=
  parseCSVLine_loop line [] [] false.

(** The goal objects the importer builds; they have no [stepUpRate]. *)
Record Goal := mkGoal {
  id : num;
  name : jsstring;
  currentPrice : num;
  inflationRate : num;
  years : num;
  expectedReturn : num
}.

(** The errors the importer throws, for their messages: [CSV file is empty
    or invalid], [Invalid CSV format on line n], and [Line n:] followed by
    [Goal name is required], [Invalid current price], [Invalid inflation
    rate], [Invalid years] or [Invalid expected return]. *)
Inductive ImportError : Type :=
| EmptyOrInvalid
| InvalidFormat (lineNumber : nat)
| NameRequired (lineNumber : nat)
| InvalidCurrentPrice (lineNumber : nat)
| InvalidInflationRate (lineNumber : nat)
| InvalidYears (lineNumber : nat)
| InvalidExpectedReturn (lineNumber : nat).

(** A value returned or an error thrown. *)
Inductive result (A : Type) : Type :=
| Ok (a : A)
| Throw (e : ImportError).

Arguments Ok {A} a.
Arguments Throw {A} e.

(** The empty string is the one falsy string. *)
Definition is_empty (s : jsstring) : bool :=
  match s with
  | [] => true
  | _ :: _ => false
  end.

Import JSOrder.
Local Open Scope js_scope.

(** [validateGoal(goal, lineNumber)]: the error it throws, if any. *)
Definition validateGoal (goal : Goal) (lineNumber : nat) : option ImportError :=
  if is_empty (name goal) || is_empty (trim (name goal))
  then Some (NameRequired lineNumber)
  else if isNaN (currentPrice goal) || (currentPrice goal <=? Fin 0)
  then Some (InvalidCurrentPrice lineNumber)
  else if isNaN (inflationRate goal) || (inflationRate goal <? Fin 0)
  then Some (InvalidInflationRate lineNumber)
  else if isNaN (years goal) || (years goal <=? Fin 0)
  then Some (InvalidYears lineNumber)
  else if isNaN (expectedReturn goal) || (expectedReturn goal <=? Fin 0)
  then Some (InvalidExpectedReturn lineNumber)
  else None.

Section ParseCSV.

(** The host's [parseFloat], and the reading of [Date.now()] while the data
    line [i] is processed. *)
Variable parseFloat : jsstring -> num.
Variable Date_now : nat -> num.

(** The [for] loop of [parseCSV] from the data line [i] on.  [values[k]] is
    read only past the length check, where it exists. *)
Fixpoint parseCSV_loop (dataLines : list jsstring) (i : nat) (goals : list Goal)
    : result (list Goal) :=
  match dataLines with
  | [] => Ok goals
  | dataLine :: rest =>
      let line := trim dataLine in
      if is_empty line then parseCSV_loop rest (S i) goals
      else
        let values := parseCSVLine line in
        if (length values <? 5)%nat then Throw (InvalidFormat (i + 2))
        else
          let goal :=
            mkGoal (Date_now i + Fin (INR i))
              (nth 0 values [])
              (parseFloat (nth 1 values []))
              (parseFloat (nth 2 values []))
              (parseFloat (nth 3 values []))
              (parseFloat (nth 4 values [])) in
          match validateGoal goal (i + 2) with
          | Some e => Throw e
          | None => parseCSV_loop rest (S i) (goals ++ [goal])
          end
  end.

(** [parseCSV(csvContent)] *)
Definition parseCSV (csvContent : jsstring) : result (list Goal) :=
  let lines := split (trim csvContent) newline in
  if (length lines <? 2)%nat then Throw EmptyOrInvalid
  else parseCSV_loop (skipn 1 lines) 0 [].

End ParseCSV.

(** What the calculator reads of an imported goal: [stepUpRate] is
    [undefined]. *)
Definition calculator_goal (goal : Goal) : SIPCalculator.Goal :=
  SIPCalculator.mkGoal (currentPrice goal) (inflationRate goal) (years goal)
    (expectedReturn goal) None.

(** A goal [validateGoal] lets through: a name that is not blank and numbers
    in range, which leaves out [NaN] and leaves in [Infinity]. *)
Definition accepted (goal : Goal) : Prop :=
  trim (name goal) <> []
  /\ gt (currentPrice goal) (Fin 0) = true
  /\ ge (inflationRate goal) (Fin 0) = true
  /\ gt (years goal) (Fin 0) = true
  /\ gt (expectedReturn goal) (Fin 0) = true.

(** A goal whose four numbers are finite. *)
Definition finite_goal (goal : Goal) : Prop :=
  exists p r y e,
    currentPrice goal = Fin p /\ inflationRate goal = Fin r
    /\ years goal = Fin y /\ expectedReturn goal = Fin e.

End Importer.

(** ** The form: [getFormValues] of [js/ui.js] *)

Module UIRenderer.

Local Open Scope js_scope.

(** The [value]s of the six input elements. *)
Record Form := mkForm {
  goalName : jsstring;
  currentPrice : jsstring;
  inflationRate : jsstring;
  timePeriod : jsstring;
  expectedReturn : jsstring;
  stepUpRate : jsstring
}.

(** The object [getFormValues] returns. *)
Record FormValues := mkFormValues {
  fv_name : jsstring;
  fv_currentPrice : num;
  fv_inflationRate : num;
  fv_years : num;
  fv_expectedReturn : num;
  fv_stepUpRate : num
}.

Section GetFormValues.

Variable parseFloat : jsstring -> num.

(** [getFormValues()], from the state of the form; [None] is [null]. *)
Definition getFormValues (form : Form) : option FormValues :=
  let goalName := trim (goalName form) in
  let currentPrice := parseFloat (currentPrice form) in
  let inflationRate := parseFloat (inflationRate form) in
  let timePeriod := parseFloat (timePeriod form) in
  let expectedReturn := parseFloat (expectedReturn form) in
  let stepUpRate :=
    let parsed := parseFloat (stepUpRate form) in
    if truthy parsed then parsed else Fin 0 in
  if Importer.is_empty goalName || (currentPrice <=? Fin 0)
     || (inflationRate <? Fin 0) || (timePeriod <=? Fin 0)
     || (expectedReturn <=? Fin 0)
  then None
  else if stepUpRate <? Fin 0 then None
  else
    Some (mkFormValues goalName currentPrice inflationRate timePeriod
            expectedReturn stepUpRate).

(** The goal the importer would build from the same name and numbers. *)
Definition as_imported (form : Form) (id : num) : Importer.Goal :=
  Importer.mkGoal id (trim (goalName form))
    (parseFloat (currentPrice form)) (parseFloat (inflationRate form))
    (parseFloat (timePeriod form)) (parseFloat (expectedReturn form)).

(** The four numbers the form parses for the calculator. *)
Definition parsed_numbers (form : Form) : list num :=
  [parseFloat (currentPrice form); parseFloat (inflationRate form);
   parseFloat (timePeriod form); parseFloat (expectedReturn form)].

End GetFormValues.

End UIRenderer.

(** ** The goal manager: [GoalManager]

    The storage service is the manager's collaborator: anything with a
    [saveGoals] that reports success and may change the store, and a
    [loadGoals] that reads it. *)

Module GoalManager.

Local Open Scope js_scope.

(** A goal as [addGoal] builds it. *)
Record Goal := mkGoal {
  id : num;
  name : jsstring;
  currentPrice : num;
  inflationRate : num;
  years : num;
  expectedReturn : num;
  stepUpRate : num
}.

Class StorageService (Store : Type) := {
  saveGoals : list Goal -> Store -> bool * Store;
  loadGoals : Store -> list Goal
}.

Section Manager.

Context {Store : Type} `{StorageService Store}.

(** The fields of a manager; [storageService] is [None] for [null]. *)
Record manager := mkManager {
  goals : list Goal;
  storageService : option Store
}.

(** [new GoalManager(storageService)] *)
Definition constructor (storageService : option Store) : manager :=
  mkManager [] storageService.

(** [loadFromStorage()] *)
Definition loadFromStorage (this : manager) : bool * manager :=
  match storageService this with
  | None => (false, this)
  | Some store =>
      let loadedGoals := loadGoals store in
      (true, mkManager loadedGoals (Some store))
  end.

(** [saveToStorage()] *)
Definition saveToStorage (this : manager) : bool * manager :=
  match storageService this with
  | None => (false, this)
  | Some store =>
      let (saved, store') := saveGoals (goals this) store in
      (saved, mkManager (goals this) (Some store'))
  end.

(** [addGoal(name, currentPrice, inflationRate, years, expectedReturn,
    stepUpRate = 0)]; [now] is the reading of [Date.now()], and [stepUpRate]
    is [None] when the argument is left out. *)
Definition addGoal (now : num) (name : jsstring)
    (currentPrice inflationRate years expectedReturn : num)
    (stepUpRate : option num) (this : manager) : Goal * manager :=
  let stepUpRate :=
    match stepUpRate with
    | Some s => s
    | None => Fin 0
    end in
  let goal :=
    mkGoal now name currentPrice inflationRate years expectedReturn
      (if truthy stepUpRate then stepUpRate else Fin 0) in
  let this := mkManager (goals this ++ [goal]) (storageService this) in
  (goal, snd (saveToStorage this)).

(** [removeGoal(goalId)] *)
Definition removeGoal (goalId : num) (this : manager) : bool * manager :=
  let initialLength := length (goals this) in
  let this :=
    mkManager (filter (fun goal => negb (id goal === goalId)) (goals this))
      (storageService this) in
  let wasRemoved := (length (goals this) <? initialLength)%nat in
  if wasRemoved then (wasRemoved, snd (saveToStorage this))
  else (wasRemoved, this).

(** [getAllGoals()]: a copy of the list. *)
Definition getAllGoals (this : manager) : list Goal := goals this.

(** [getGoalCount()] *)
Definition getGoalCount (this : manager) : nat := length (goals this).

(** [clearAllGoals()] *)
Definition clearAllGoals (this : manager) : bool * manager :=
  saveToStorage (mkManager [] (storageService this)).

(** The calls that change a manager. *)
Inductive call : Type :=
| call_addGoal (now : num) (name : jsstring)
    (currentPrice inflationRate years expectedReturn : num)
    (stepUpRate : option num)
| call_removeGoal (goalId : num)
| call_clearAllGoals
| call_loadFromStorage.

Definition run_call (c : call) (this : manager) : manager :=
  match c with
  | call_addGoal now name currentPrice inflationRate years expectedReturn
      stepUpRate =>
      snd (addGoal now name currentPrice inflationRate years expectedReturn
             stepUpRate this)
  | call_removeGoal goalId => snd (removeGoal goalId this)
  | call_clearAllGoals => snd (clearAllGoals this)
  | call_loadFromStorage => snd (loadFromStorage this)
  end.

(** The calls of a session, in order. *)
Definition run_calls (calls : list call) (this : manager) : manager :=
  fold_left (fun this c => run_call c this) calls this.

(** What is in the store is what is in memory. *)
Definition in_sync (this : manager) : Prop :=
  forall store, storageService this = Some store -> loadGoals store = goals this.

End Manager.

Arguments manager Store : clear implicits.

(** A store that keeps what is saved and gives it back: the law a working
    [localStorage] follows for goals that survive [JSON]. *)
Definition faithful (Store : Type) `{StorageService Store} : Prop :=
  forall goals store,
    fst (saveGoals goals store) = true
    /\ loadGoals (snd (saveGoals goals store)) = goals.

(** The store that holds the last list saved. *)
#[global] Instance last_saved : StorageService (list Goal) := {
  saveGoals goals _ := (true, goals);
  loadGoals store := store
}.

(** What the calculator reads of a stored goal. *)
Definition calculator_goal (goal : Goal) : SIPCalculator.Goal :=
  SIPCalculator.mkGoal (currentPrice goal) (inflationRate goal) (years goal)
    (expectedReturn goal) (Some (stepUpRate goal)).

End GoalManager.

(** ** The exporter: [js/exporter.js] *)

Module Exporter.

Import String.
Local Open Scope string_scope.
Local Open Scope list_scope.

(** The [value.replace] of [escapeCSV]: every double quote is written
    twice. *)
Definition double_quotes (value : jsstring) : jsstring :=
  flat_map (fun c => if (c =? quote)%N then [quote; quote] else [c]) value.

(** [escapeCSV(value)] on a string. *)
Definition escapeCSV (value : jsstring) : jsstring :=
  if includes value comma || includes value quote || includes value newline
  then [quote] ++ double_quotes value ++ [quote]
  else value.

(** The header cells; the rupee sign is the code unit [8377]. *)
Definition headers : list jsstring :=
  [of_string "Goal Name";
   of_string "Current Price (" ++ [8377%N] ++ of_string ")";
   of_string "Inflation Rate (%)";
   of_string "Years";
   of_string "Expected Return (%)";
   of_string "Step-up Rate (%)";
   of_string "Future Target (" ++ [8377%N] ++ of_string ")";
   of_string "Monthly SIP Required (" ++ [8377%N] ++ of_string ")";
   of_string "Total Investment (" ++ [8377%N] ++ of_string ")";
   of_string "Wealth Gain (" ++ [8377%N] ++ of_string ")"].

Section ExportToCSV.

(** The conversion of a number to a string that [join] applies to the
    numeric cells: the host's. *)
Variable toString : num -> jsstring.

(** The callback of [goals.map]: the cells of a goal's row, as [join] sees
    them. *)
Definition row (fuel : nat) (goal : GoalManager.Goal) : option (list jsstring) :=
  let stepUpRate :=
    if truthy (GoalManager.stepUpRate goal) then GoalManager.stepUpRate goal
    else Fin 0 in
  let futureValue :=
    calculateInflationAdjustedAmount (GoalManager.currentPrice goal)
      (GoalManager.inflationRate goal) (GoalManager.years goal) in
  match calculateMonthlySIP fuel futureValue (GoalManager.years goal)
          (GoalManager.expectedReturn goal) stepUpRate with
  | None => None
  | Some monthlySIP =>
      match calculateTotalInvestment fuel monthlySIP (GoalManager.years goal)
              stepUpRate with
      | None => None
      | Some totalInvestment =>
          let wealthGain := calculateWealthGain futureValue totalInvestment in
          Some [escapeCSV (GoalManager.name goal);
                toString (GoalManager.currentPrice goal);
                toString (GoalManager.inflationRate goal);
                toString (GoalManager.years goal);
                toString (GoalManager.expectedReturn goal);
                toString stepUpRate;
                toString futureValue;
                toString monthlySIP;
                toString totalInvestment;
                toString wealthGain]
      end
  end.

Fixpoint rows (fuel : nat) (goals : list GoalManager.Goal)
    : option (list (list jsstring)) :=
  match goals with
  | [] => Some []
  | goal :: rest =>
      match row fuel goal with
      | None => None
      | Some cells =>
          match rows fuel rest with
          | None => None
          | Some others => Some (cells :: others)
          end
      end
  end.

(** [exportToCSV(goals)] *)
Definition exportToCSV (fuel : nat) (goals : list GoalManager.Goal)
    : option jsstring :=
  match goals with
  | [] => Some []
  | _ :: _ =>
      match rows fuel goals with
      | None => None
      | Some rows =>
          Some (join [newline] (join [comma] headers :: map (join [comma]) rows))
      end
  end.

End ExportToCSV.

End Exporter.

(** *** Files that come back

    A string with nothing for [trim] or the CSV parser to act on, as the
    host prints a number; a stored goal whose name the file carries
    unchanged and whose numbers the importer accepts; and the goals the
    importer makes of stored goals, from the data line [i] on. *)

Definition printable (s : jsstring) : Prop :=
  s <> []
  /\ Forall (fun c => is_white_space c = false /\ c <> comma /\ c <> quote) s.

Definition exportable (goal : GoalManager.Goal) : Prop :=
  GoalManager.name goal <> []
  /\ trim (GoalManager.name goal) = GoalManager.name goal
  /\ includes (GoalManager.name goal) newline = false
  /\ gt (GoalManager.currentPrice goal) (Fin 0) = true
  /\ ge (GoalManager.inflationRate goal) (Fin 0) = true
  /\ gt (GoalManager.years goal) (Fin 0) = true
  /\ gt (GoalManager.expectedReturn goal) (Fin 0) = true.

(** The host's [parseFloat] reads a goal's four numbers back from what the
    host printed for them. *)
Definition reads_back (toString : num -> jsstring) (parseFloat : jsstring -> num)
    (goal : GoalManager.Goal) : Prop :=
  parseFloat (toString (GoalManager.currentPrice goal)) = GoalManager.currentPrice goal
  /\ parseFloat (toString (GoalManager.inflationRate goal))
     = GoalManager.inflationRate goal
  /\ parseFloat (toString (GoalManager.years goal)) = GoalManager.years goal
  /\ parseFloat (toString (GoalManager.expectedReturn goal))
     = GoalManager.expectedReturn goal.

Fixpoint reimported (Date_now : nat -> num) (i : nat)
    (goals : list GoalManager.Goal) : list Importer.Goal :=
  match goals with
  | [] => []
  | goal :: rest =>
      Importer.mkGoal (Date_now i + Fin (INR i))%js (GoalManager.name goal)
        (GoalManager.currentPrice goal) (GoalManager.inflationRate goal)
        (GoalManager.years goal) (GoalManager.expectedReturn goal)
      :: reimported Date_now (S i) rest
  end.

(** ** Importing into the manager: [handleImport] of [js/ui.js] *)

Module MultiGoalSIPApp.

Section HandleImport.

Context {Store : Type} `{GoalManager.StorageService Store}.

(** [importedGoals.forEach(goal => this.goalManager.addGoal(...))] from the
    [k]-th goal on; [Date_now k] is the reading of the clock in the [k]-th
    call.  An imported goal has no [stepUpRate], so [goal.stepUpRate || 0]
    passes [0]. *)
Fixpoint forEach_addGoal (Date_now : nat -> num) (k : nat)
    (importedGoals : list Importer.Goal) (goalManager : GoalManager.manager Store)
    : GoalManager.manager Store :=
  match importedGoals with
  | [] => goalManager
  | goal :: rest =>
      forEach_addGoal Date_now (S k) rest
        (snd (GoalManager.addGoal (Date_now k) (Importer.name goal)
                (Importer.currentPrice goal) (Importer.inflationRate goal)
                (Importer.years goal) (Importer.expectedReturn goal)
                (Some (Fin 0)) goalManager))
  end.

(** What [handleImport] does to the goal manager once the file is parsed
    into [importedGoals]; [confirmed] is the answer to the [confirm] dialog:
    [true] adds to the existing goals, [false] replaces them. *)
Definition handleImport (confirmed : bool) (Date_now : nat -> num)
    (importedGoals : list Importer.Goal) (goalManager : GoalManager.manager Store)
    : GoalManager.manager Store :=
  match importedGoals with
  | [] => goalManager
  | _ :: _ =>
      let existingCount := GoalManager.getGoalCount goalManager in
      let goalManager :=
        if (0 <? existingCount)%nat && negb confirmed
        then snd (GoalManager.clearAllGoals goalManager)
        else goalManager in
      forEach_addGoal Date_now 0 importedGoals goalManager
  end.

End HandleImport.

End MultiGoalSIPApp.

(** Two stored goals for the same plan, the second one without step-up. *)
Definition same_level_plan (old new : GoalManager.Goal) : Prop :=
  GoalManager.name new = GoalManager.name old
  /\ GoalManager.currentPrice new = GoalManager.currentPrice old
  /\ GoalManager.inflationRate new = GoalManager.inflationRate old
  /\ GoalManager.years new = GoalManager.years old
  /\ GoalManager.expectedReturn new = GoalManager.expectedReturn old
  /\ GoalManager.stepUpRate new = Fin 0.

(** ** The chart data: [generateGoalData] of [js/charts.js] *)

Module ChartManager.

Local Open Scope js_scope.

(** The three series of a goal's chart; the goal's name, which
    [generateGoalData] passes on beside them, is left out. *)
Record GoalData := mkGoalData {
  years : list num;
  invested : list num;
  futureValues : list num
}.

(** The loop [for (year = 0; year <= goal.years; year++)] from the state
    [(year, totalInvested, currentSIP)] and the series so far.  The two inner
    loops start from [futureValue = 0] and [tempSIP = monthlySIP], and are
    the loops of [calculateStepUpFutureValue] with [year] for the horizon. *)
Fixpoint years_loop (fuel : nat)
    (goal_years monthlyRate annualStepUp monthlySIP : num)
    (year totalInvested currentSIP : num) (data : GoalData) : option GoalData :=
  if year <=? goal_years then
    match fuel with
    | O => None
    | S fuel' =>
        let years := years data ++ [year] in
        if year === Fin 0 then
          years_loop fuel' goal_years monthlyRate annualStepUp monthlySIP
            (year + Fin 1) totalInvested currentSIP
            (mkGoalData years (invested data ++ [Fin 0])
               (futureValues data ++ [Fin 0]))
        else
          let totalInvested := totalInvested + currentSIP * Fin 12 in
          let invested := invested data ++ [Math_round totalInvested] in
          match fv_years_loop fuel' year monthlyRate annualStepUp
                  (Fin 0) (Fin 0) monthlySIP with
          | None => None
          | Some futureValue =>
              years_loop fuel' goal_years monthlyRate annualStepUp monthlySIP
                (year + Fin 1) totalInvested
                (currentSIP * (Fin 1 + annualStepUp))
                (mkGoalData years invested
                   (futureValues data ++ [Math_round futureValue]))
          end
    end
  else Some data.

(** [generateGoalData(goal)] *)
Definition generateGoalData (fuel : nat) (goal : Goal) : option GoalData :=
  let inflationAdjustedAmount :=
    calculateInflationAdjustedAmount
      (currentPrice goal) (inflationRate goal) (SIPCalculator.years goal) in
  let stepUpRate := stepUpRate_or_0 goal in
  match calculateMonthlySIP fuel inflationAdjustedAmount (SIPCalculator.years goal)
          (expectedReturn goal) stepUpRate with
  | None => None
  | Some monthlySIP =>
      let monthlyRate := expectedReturn goal / Fin 12 / Fin 100 in
      let annualStepUp := stepUpRate / Fin 100 in
      years_loop fuel (SIPCalculator.years goal) monthlyRate annualStepUp monthlySIP
        (Fin 0) (Fin 0) monthlySIP (mkGoalData [] [] [])
  end.

End ChartManager.

(** The number of points of a chart over [years] years: the whole years
    [0, 1, ...] up to the horizon. *)
Definition chart_points (years : R) : nat := Z.to_nat (Zfloor years + 1).

(** The chart's point for year [k] is the rounded value the calculator
    returns for the contribution [m] over [k] years: of the oracle, and of
    the total invested. *)
Definition oracle_point (m e s : R) (k : nat) (point : num) : Prop :=
  exists v,
    returns (fun fuel =>
               calculateStepUpFutureValue fuel (Fin m) (Fin (INR k)) (Fin e) (Fin s))
      (Fin v)
    /\ point = Math_round (Fin v).

Definition invested_point (m s : R) (k : nat) (point : num) : Prop :=
  exists t,
    returns (fun fuel => calculateTotalInvestment fuel (Fin m) (Fin (INR k)) (Fin s))
      (Fin t)
    /\ point = Math_round (Fin t).

(** ** The goal templates: [js/templates.js] *)

Module TemplateManager.

Import String.
Local Open Scope string_scope.
Local Open Scope list_scope.

Record Template := mkTemplate {
  id : jsstring;
  name : jsstring;
  icon : jsstring;
  description : jsstring;
  currentPrice : num;
  inflationRate : num;
  years : num;
  expectedReturn : num
}.

(** [initializeTemplates()]; the icons are given by their code units. *)
Definition initializeTemplates : list Template :=
  [mkTemplate (of_string "child-education") (of_string "Child's Higher Education")
     [55356; 57235]%N (of_string "University education in India")
     (Fin 2000000) (Fin 8) (Fin 15) (Fin 12);
   mkTemplate (of_string "house-purchase") (of_string "Buy a House")
     [55356; 57312]%N (of_string "Down payment for home")
     (Fin 3000000) (Fin 6) (Fin 10) (Fin 12);
   mkTemplate (of_string "retirement") (of_string "Retirement Fund")
     [55356; 57140]%N (of_string "Build retirement corpus")
     (Fin 10000000) (Fin 7) (Fin 25) (Fin 13);
   mkTemplate (of_string "car-purchase") (of_string "Buy a Car")
     [55357; 56983]%N (of_string "Mid-range car purchase")
     (Fin 1500000) (Fin 5) (Fin 5) (Fin 10);
   mkTemplate (of_string "wedding") (of_string "Wedding Expenses")
     [55357; 56466]%N (of_string "Wedding celebration")
     (Fin 2500000) (Fin 7) (Fin 8) (Fin 11);
   mkTemplate (of_string "vacation") (of_string "Dream Vacation")
     [9992; 65039]%N (of_string "International trip")
     (Fin 500000) (Fin 6) (Fin 3) (Fin 9);
   mkTemplate (of_string "business") (of_string "Start a Business")
     [55357; 56508]%N (of_string "Business capital")
     (Fin 5000000) (Fin 7) (Fin 10) (Fin 14);
   mkTemplate (of_string "emergency-fund") (of_string "Emergency Fund")
     [55356; 57317]%N (of_string "6 months expenses")
     (Fin 500000) (Fin 6) (Fin 2) (Fin 8)].

(** The manager's one field is its list of templates. *)
Definition constructor : list Template := initializeTemplates.

(** [getAllTemplates()]: a copy of the list. *)
Definition getAllTemplates (this : list Template) : list Template := this.

(** [a === b] on strings. *)
Definition string_eq (a b : jsstring) : bool :=
  if list_eq_dec N.eq_dec a b then true else false.

(** [getTemplate(templateId)]; [None] is [null]. *)
Definition getTemplate (templateId : jsstring) (this : list Template)
    : option Template :=
  find (fun t => string_eq (id t) templateId) this.

(** The object [createGoalFromTemplate] returns. *)
Record GoalData := mkGoalData {
  goal_name : jsstring;
  goal_currentPrice : num;
  goal_inflationRate : num;
  goal_years : num;
  goal_expectedReturn : num
}.

(** [createGoalFromTemplate(templateId)] *)
Definition createGoalFromTemplate (templateId : jsstring) (this : list Template)
    : option GoalData :=
  match getTemplate templateId this with
  | None => None
  | Some template =>
      Some (mkGoalData (name template) (currentPrice template)
              (inflationRate template) (years template) (expectedReturn template))
  end.

(** [addCustomTemplate(template)], for a template whose [id] and [name] are
    strings. *)
Definition addCustomTemplate (template : Template) (this : list Template)
    : bool * list Template :=
  if Importer.is_empty (id template) || Importer.is_empty (name template)
  then (false, this)
  else
    match getTemplate (id template) this with
    | Some _ => (false, this)
    | None => (true, this ++ [template])
    end.

(** A manager after the calls [addCustomTemplate(t)] for the [t] of a list,
    in order. *)
Definition add_all (customs : list Template) : list Template :=
  fold_left (fun this template => snd (addCustomTemplate template this))
    customs constructor.

(** What the calculator reads of a goal made from a template. *)
Definition calculator_goal (goal : GoalData) : SIPCalculator.Goal :=
  SIPCalculator.mkGoal (goal_currentPrice goal) (goal_inflationRate goal)
    (goal_years goal) (goal_expectedReturn goal) None.

(** What every manager keeps true: no two templates share an id, the
    built-in templates come first, and no id or name is empty. *)
Definition well_kept (this : list Template) : Prop :=
  NoDup (map id this)
  /\ (exists added, this = initializeTemplates ++ added)
  /\ Forall (fun t => id t <> [] /\ name t <> []) this.

End TemplateManager.

(** ** Sample files *)

Module Samples.

Import String.
Local Open Scope string_scope.
Local Open Scope list_scope.

(** A file of one goal under a header line. *)
Definition car_file : jsstring :=
  of_string "Goal Name,Current Price,Inflation Rate,Years,Expected Return"
  ++ [newline] ++ of_string "Buy a Car,1500000,5,5,10".

(** The value of a string of decimal digits, [NaN] for any other string:
    [parseFloat] on such strings. *)
Definition digits_value (s : jsstring) : num :=
  if Importer.is_empty s then NaN
  else if forallb (fun c => (48 <=? c) && (c <=? 57))%N s
  then Fin (IZR (Z.of_N (fold_left (fun n c => n * 10 + (c - 48))%N s 0%N)))
  else NaN.

(** The goal read from [car_file] when the clock stands at [0]. *)
Definition car_goal : Importer.Goal :=
  Importer.mkGoal (Fin 0 + Fin (INR 0))%js (of_string "Buy a Car")
    (Fin 1500000) (Fin 5) (Fin 5) (Fin 10).

(** The form with a name and every number left empty. *)
Definition empty_numbers_form : UIRenderer.Form :=
  UIRenderer.mkForm (of_string "Buy a Car") [] [] [] [] [].

(** A stored goal whose name needs quoting and whose numbers are all [1],
    and a host that prints every number as [1]. *)
Definition stored_goal : GoalManager.Goal :=
  GoalManager.mkGoal (Fin 0) (of_string "Car, used")
    (Fin 1) (Fin 1) (Fin 1) (Fin 1) (Fin 0).

Definition print_one (x : num) : jsstring := of_string "1".

(** Cells with a comma, a quoted word and white space around a number. *)
Definition awkward_cells : list jsstring :=
  [of_string "Car, " ++ [quote] ++ of_string "used" ++ [quote];
   of_string " 1500000 "].

End Samples.

(** ** Evaluating the number operations on finite values *)

Section NumFacts.

Lemma Rltb_true a b : a < b -> Rltb a b = true.
Proof. intros H; unfold Rltb; destruct (Rlt_dec a b); [reflexivity | contradiction]. Qed.

Lemma Rltb_false a b : b <= a -> Rltb a b = false.
Proof. intros H; unfold Rltb; destruct (Rlt_dec a b); [lra | reflexivity]. Qed.

Lemma Rltb_spec a b : Rltb a b = true <-> a < b.
Proof.
  unfold Rltb; destruct (Rlt_dec a b); split; intros; try reflexivity;
    try assumption; try discriminate; contradiction.
Qed.

Lemma Reqb_true a b : a = b -> Reqb a b = true.
Proof. intros H; unfold Reqb; destruct (Req_dec_T a b); [reflexivity | contradiction]. Qed.

Lemma Reqb_false a b : a <> b -> Reqb a b = false.
Proof. intros H; unfold Reqb; destruct (Req_dec_T a b); [contradiction | reflexivity]. Qed.

Lemma Reqb_spec a b : Reqb a b = true <-> a = b.
Proof.
  unfold Reqb; destruct (Req_dec_T a b); split; intros; try reflexivity;
    try assumption; try discriminate; contradiction.
Qed.

Lemma div_fin x y : y <> 0 -> (Fin x / Fin y)%js = Fin (x / y).
Proof. intros H; unfold div; now rewrite Reqb_false. Qed.

Lemma sub_fin x y : (Fin x - Fin y)%js = Fin (x - y).
Proof. reflexivity. Qed.

Lemma add_fin x y : (Fin x + Fin y)%js = Fin (x + y).
Proof. reflexivity. Qed.

Lemma mul_fin x y : (Fin x * Fin y)%js = Fin (x * y).
Proof. reflexivity. Qed.

Lemma lt_fin x y : (Fin x <? Fin y)%js = Rltb x y.
Proof. reflexivity. Qed.

(** On a positive base [Math.pow] is the real power function. *)
Lemma Math_pow_pos x y : 0 < x -> Math_pow (Fin x) (Fin y) = Fin (Rpower x y).
Proof.
  intros Hx; unfold Math_pow.
  destruct (Req_dec_T y 0) as [-> | Hy].
  - rewrite Reqb_true by reflexivity. now rewrite Rpower_O.
  - rewrite (Reqb_false y 0) by assumption.
    rewrite (Reqb_false x 0) by lra. now rewrite Rltb_true.
Qed.

Lemma Rpower_pos x y : 0 < Rpower x y.
Proof. apply exp_pos. Qed.

Lemma Rpower_gt_1 b e : 1 < b -> 0 < e -> 1 < Rpower b e.
Proof.
  intros Hb He. rewrite <- (Rpower_O b) by lra. now apply Rpower_lt.
Qed.

(** [Math.round] on finite values stays within half a unit. *)
Lemma round_bounds x :
  x - / 2 < IZR (Zfloor (x + / 2)) <= x + / 2.
Proof. destruct (Zfloor_bound (x + / 2)); lra. Qed.

Lemma Rabs_le_iff a b : Rabs a <= b <-> - b <= a <= b.
Proof. unfold Rabs; destruct (Rcase_abs a); lra. Qed.

Lemma round_dist x y :
  Rabs (x - y) <= 1 ->
  Rabs (IZR (Zfloor (x + / 2)) - IZR (Zfloor (y + / 2))) <= 1.
Proof.
  intros H. apply Rabs_le_iff in H.
  assert (Hxy : (Zfloor (x + / 2) <= Zfloor (y + / 2) + 1)%Z).
  { rewrite <- Zfloor_addz. apply Zfloor_le. simpl. lra. }
  assert (Hyx : (Zfloor (y + / 2) <= Zfloor (x + / 2) + 1)%Z).
  { rewrite <- Zfloor_addz. apply Zfloor_le. simpl. lra. }
  apply Rabs_le_iff. apply IZR_le in Hxy, Hyx. rewrite plus_IZR in Hxy, Hyx. lra.
Qed.

End NumFacts.

(** ** The number of passes of a [for (year = 0; year < years; year++)] loop *)

Lemma year_count_spec years k : (k < year_count years)%nat <-> INR k < years.
Proof.
  unfold year_count. destruct (Zceil_bound years) as [Hlo Hhi].
  rewrite INR_IZR_INZ. split; intros H.
  - assert (Hz : (Z.of_nat k < Zceil years)%Z) by lia.
    assert (Hz' : (Z.of_nat k <= Zceil years - 1)%Z) by lia.
    apply IZR_le in Hz'. rewrite minus_IZR in Hz'. lra.
  - assert (Hz : (Z.of_nat k < Zceil years)%Z) by (apply lt_IZR; lra).
    lia.
Qed.

Lemma year_count_INR n : year_count (INR n) = n.
Proof.
  unfold year_count. rewrite INR_IZR_INZ.
  rewrite (Zceil_eq (Z.of_nat n)) by lra. apply Nat2Z.id.
Qed.

Lemma year_count_nonpos years : years <= 0 -> year_count years = O.
Proof.
  intros H. destruct (year_count years) eqn:E; [reflexivity | exfalso].
  assert (Hk : (0 < year_count years)%nat) by lia.
  apply year_count_spec in Hk. simpl in Hk. lra.
Qed.

Lemma year_count_pos years : 0 < years -> (1 <= year_count years)%nat.
Proof. intros H. apply (year_count_spec years 0). simpl. lra. Qed.

Lemma year_count_le y1 y2 : y1 <= y2 -> (year_count y1 <= year_count y2)%nat.
Proof.
  intros H. destruct (le_lt_dec (year_count y1) (year_count y2)) as [Hle | Hlt];
    [assumption | exfalso].
  apply year_count_spec in Hlt.
  assert (Hk : (year_count y2 < year_count y2)%nat) by (apply year_count_spec; lra).
  lia.
Qed.

(** ** The future-value oracle on finite inputs

    With a positive compounding base the oracle stays within the finite
    numbers, and its value is the contribution times a factor that depends on
    the horizon and the two rates only. *)

Section OracleFinite.

Variables (years i s : R).
Hypothesis base_pos : 0 < 1 + i.

Lemma months_fold_fin c M ms : forall acc,
  fold_left
    (fun futureValue month =>
       (futureValue + Fin c * Math_pow (Fin 1 + Fin i) (Fin M - Fin (INR month)))%js)
    ms (Fin acc)
  = Fin (acc + c * Rsum (map (fun month => Rpower (1 + i) (M - INR month)) ms)).
Proof.
  induction ms as [| m ms IH]; intros acc; cbn [fold_left map Rsum fold_right].
  - f_equal; ring.
  - rewrite (add_fin 1 i), sub_fin, Math_pow_pos, mul_fin, add_fin
      by exact base_pos.
    rewrite IH. f_equal. fold (Rsum (map (fun month => Rpower (1 + i) (M - INR month)) ms)).
    ring.
Qed.

Lemma months_loop_fin c M acc :
  months_loop (Fin i) (Fin M) (Fin c) (Fin acc)
  = Fin (acc + c * month_factor (1 + i) M).
Proof. unfold months_loop, month_factor. apply months_fold_fin. Qed.

Lemma fv_years_loop_fin n : forall k fuel acc c,
  year_count years = (k + n)%nat -> (n <= fuel)%nat ->
  fv_years_loop fuel (Fin years) (Fin i) (Fin s) (Fin (INR k)) (Fin acc) (Fin c)
  = Some (Fin (acc + c * fv_sum (1 + i) (1 + s) years n k)).
Proof.
  induction n as [| n IH]; intros k fuel acc c Hcount Hfuel.
  - assert (Hk : ~ INR k < years).
    { intros H. apply year_count_spec in H. lia. }
    destruct fuel; cbn [fv_years_loop]; rewrite lt_fin, Rltb_false by lra;
      cbn [fv_sum]; f_equal; f_equal; ring.
  - assert (Hk : INR k < years) by (apply year_count_spec; lia).
    destruct fuel as [| fuel]; [lia |].
    cbn [fv_years_loop]. rewrite lt_fin, Rltb_true by assumption.
    rewrite sub_fin, mul_fin, months_loop_fin, !add_fin, mul_fin.
    replace (INR k + 1) with (INR (S k)) by (rewrite S_INR; reflexivity).
    rewrite IH by lia. f_equal. f_equal. cbn [fv_sum]. ring.
Qed.

End OracleFinite.

(** The oracle on finite inputs: the contribution times [fv_factor]. *)
Lemma calculateStepUpFutureValue_fin x years a s fuel :
  -1200 < a -> (year_count years <= fuel)%nat ->
  calculateStepUpFutureValue fuel (Fin x) (Fin years) (Fin a) (Fin s)
  = Some (Fin (x * fv_factor years a s)).
Proof.
  intros Ha Hfuel. unfold calculateStepUpFutureValue.
  rewrite !div_fin by lra.
  change (Fin 0) with (Fin (INR 0)) at 1.
  rewrite (fv_years_loop_fin years (a / 12 / 100) (s / 100))
    with (n := year_count years) by (lra || lia).
  f_equal. f_equal. unfold fv_factor. ring.
Qed.

(** ** Sums over the months of a year *)

Section Sums.

Lemma Rsum_map_lt (f g : nat -> R) l :
  l <> [] -> (forall m, In m l -> f m < g m) ->
  Rsum (map f l) < Rsum (map g l).
Proof.
  induction l as [| m l IH]; intros Hne Hlt; [congruence |].
  cbn [map Rsum fold_right]. fold (Rsum (map f l)) (Rsum (map g l)).
  assert (Hm : f m < g m) by (apply Hlt; left; reflexivity).
  destruct l as [| m' l'].
  - simpl. lra.
  - assert (Rsum (map f (m' :: l')) < Rsum (map g (m' :: l'))).
    { apply IH; [discriminate | intros; apply Hlt; right; assumption]. }
    lra.
Qed.

Lemma Rsum_map_le (f g : nat -> R) l :
  (forall m, In m l -> f m <= g m) ->
  Rsum (map f l) <= Rsum (map g l).
Proof.
  induction l as [| m l IH]; intros Hle; cbn [map Rsum fold_right]; [lra |].
  fold (Rsum (map f l)) (Rsum (map g l)).
  assert (f m <= g m) by (apply Hle; left; reflexivity).
  assert (Rsum (map f l) <= Rsum (map g l))
    by (apply IH; intros; apply Hle; right; assumption).
  lra.
Qed.

Lemma Rsum_map_const c (l : list nat) :
  Rsum (map (fun _ => c) l) = INR (length l) * c.
Proof.
  induction l as [| m l IH]; [simpl; ring |].
  cbn [map Rsum fold_right length]. fold (Rsum (map (fun _ : nat => c) l)).
  rewrite IH, S_INR. ring.
Qed.

Lemma month_bounds m : In m (seq 0 12) -> 0 <= INR m <= 11.
Proof.
  intros H. apply in_seq in H. split; [apply pos_INR |].
  replace 11 with (INR 11) by (simpl; lra). apply le_INR. lia.
Qed.

Lemma month_factor_pos b M : 0 < month_factor b M.
Proof.
  unfold month_factor.
  replace 0 with (Rsum (map (fun _ : nat => 0) (seq 0 12)))
    by (rewrite Rsum_map_const; ring).
  apply Rsum_map_lt; [discriminate | intros; apply Rpower_pos].
Qed.

(** When every contribution of the year has time left to compound, the
    twelve of them are worth more than twelve. *)
Lemma month_factor_gt_12 b M : 1 < b -> 11 < M -> 12 < month_factor b M.
Proof.
  intros Hb HM. unfold month_factor.
  replace 12 with (Rsum (map (fun _ : nat => 1) (seq 0 12)))
    by (rewrite Rsum_map_const; simpl; lra).
  apply Rsum_map_lt; [discriminate |].
  intros m Hm. apply month_bounds in Hm. apply Rpower_gt_1; lra.
Qed.

Lemma month_factor_lt_M b M1 M2 :
  1 < b -> M1 < M2 -> month_factor b M1 < month_factor b M2.
Proof.
  intros Hb HM. unfold month_factor.
  apply Rsum_map_lt; [discriminate |].
  intros m _. apply Rpower_lt; lra.
Qed.

Lemma month_factor_lt_b b1 b2 M :
  0 < b1 < b2 -> 11 < M -> month_factor b1 M < month_factor b2 M.
Proof.
  intros Hb HM. unfold month_factor.
  apply Rsum_map_lt; [discriminate |].
  intros m Hm. apply month_bounds in Hm. apply Rlt_Rpower_l; lra.
Qed.

Lemma fv_sum_nonneg b g years n : forall k,
  0 <= g -> 0 <= fv_sum b g years n k.
Proof.
  induction n as [| n IH]; intros k Hg; cbn [fv_sum]; [lra |].
  pose proof (month_factor_pos b ((years - INR k) * 12)).
  pose proof (IH (S k) Hg). nra.
Qed.

Lemma fv_sum_pos b g years n k :
  0 <= g -> (1 <= n)%nat -> 0 < fv_sum b g years n k.
Proof.
  intros Hg Hn. destruct n as [| n]; [lia |]. cbn [fv_sum].
  pose proof (month_factor_pos b ((years - INR k) * 12)).
  pose proof (fv_sum_nonneg b g years n (S k) Hg). nra.
Qed.

Lemma fv_factor_pos years a s :
  0 < years -> 0 <= s -> 0 < fv_factor years a s.
Proof.
  intros Hy Hs. unfold fv_factor. apply fv_sum_pos.
  - apply Rle_trans with 1; [lra |].
    assert (0 <= s / 100) by (apply Rmult_le_pos; lra). lra.
  - now apply year_count_pos.
Qed.

(** From one year of horizon on, a unit contribution is worth more than
    twelve at the end: the first year's contributions alone are. *)
Lemma fv_factor_gt_12 years a s :
  1 <= years -> 0 < a -> 0 <= s -> 12 < fv_factor years a s.
Proof.
  intros Hy Ha Hs. unfold fv_factor.
  assert (Hn : (1 <= year_count years)%nat) by (apply year_count_pos; lra).
  destruct (year_count years) as [| n]; [lia |]. cbn [fv_sum].
  assert (Hg : 0 <= 1 + s / 100).
  { assert (0 <= s / 100) by (apply Rmult_le_pos; lra). lra. }
  assert (Hb : 1 < 1 + a / 12 / 100).
  { assert (0 < a / 12 / 100) by (repeat apply Rmult_lt_0_compat; lra). lra. }
  pose proof (month_factor_gt_12 (1 + a / 12 / 100) ((years - INR 0) * 12) Hb).
  pose proof (fv_sum_nonneg (1 + a / 12 / 100) (1 + s / 100) years n 1 Hg).
  simpl INR in *.
  assert (11 < (years - 0) * 12) by lra.
  nra.
Qed.

End Sums.

(** ** Fuel: uniqueness of the result and monotonicity *)

Lemma returns_unique {A : Type} (c : nat -> option A) v v' :
  returns c v -> returns c v' -> v = v'.
Proof.
  intros [f1 H1] [f2 H2].
  specialize (H1 (Nat.max f1 f2) (Nat.le_max_l _ _)).
  specialize (H2 (Nat.max f1 f2) (Nat.le_max_r _ _)).
  congruence.
Qed.

Lemma diverges_not_returns {A : Type} (c : nat -> option A) v :
  diverges c -> ~ returns c v.
Proof. intros Hd [f Hf]. specialize (Hf f (Nat.le_refl f)). rewrite Hd in Hf. discriminate. Qed.

Section FuelMonotone.

Lemma fv_years_loop_mono years i s fuel : forall fuel' year acc c v,
  (fuel <= fuel')%nat ->
  fv_years_loop fuel years i s year acc c = Some v ->
  fv_years_loop fuel' years i s year acc c = Some v.
Proof.
  induction fuel as [| fuel IH]; intros fuel' year acc c v Hle H.
  - cbn [fv_years_loop] in H. destruct (year <? years)%js eqn:E; [discriminate |].
    destruct fuel'; cbn [fv_years_loop]; rewrite E; assumption.
  - destruct fuel' as [| fuel']; [lia |].
    cbn [fv_years_loop] in *. destruct (year <? years)%js; [| assumption].
    apply IH; [lia | assumption].
Qed.

Lemma calculateStepUpFutureValue_mono fuel fuel' x years a s v :
  (fuel <= fuel')%nat ->
  calculateStepUpFutureValue fuel x years a s = Some v ->
  calculateStepUpFutureValue fuel' x years a s = Some v.
Proof. unfold calculateStepUpFutureValue. apply fv_years_loop_mono. Qed.

Lemma search_body_mono ofuel ofuel' T years a s st st' :
  (ofuel <= ofuel')%nat ->
  search_body ofuel T years a s st = Some st' ->
  search_body ofuel' T years a s st = Some st'.
Proof.
  intros Hle. unfold search_body.
  destruct (calculateStepUpFutureValue ofuel _ years a s) as [v |] eqn:E;
    [| discriminate].
  now rewrite (calculateStepUpFutureValue_mono _ _ _ _ _ _ _ Hle E).
Qed.

Lemma search_loop_mono T years a s ofuel ofuel' fuel : forall fuel' st st',
  (ofuel <= ofuel')%nat -> (fuel <= fuel')%nat ->
  search_loop ofuel fuel T years a s st = Some st' ->
  search_loop ofuel' fuel' T years a s st = Some st'.
Proof.
  induction fuel as [| fuel IH]; intros fuel' st st' Ho Hle H.
  - cbn [search_loop] in H. destruct (search_guard st) eqn:E; [discriminate |].
    destruct fuel'; cbn [search_loop]; rewrite E; assumption.
  - destruct fuel' as [| fuel']; [lia |].
    cbn [search_loop] in *. destruct (search_guard st); [| assumption].
    destruct (search_body ofuel T years a s st) as [st1 |] eqn:E; [| discriminate].
    rewrite (search_body_mono _ _ _ _ _ _ _ _ Ho E).
    apply IH; [assumption | lia | assumption].
Qed.

Lemma calculateStepUpSIP_mono fuel fuel' T years a s v :
  (fuel <= fuel')%nat ->
  calculateStepUpSIP fuel T years a s = Some v ->
  calculateStepUpSIP fuel' T years a s = Some v.
Proof.
  intros Hle. unfold calculateStepUpSIP.
  destruct (search_loop fuel fuel T years a s (search_init T)) as [st |] eqn:E;
    [| discriminate].
  now rewrite (search_loop_mono _ _ _ _ _ _ _ _ _ _ Hle Hle E).
Qed.

Lemma calculateMonthlySIP_mono fuel fuel' T years a s v :
  (fuel <= fuel')%nat ->
  calculateMonthlySIP fuel T years a s = Some v ->
  calculateMonthlySIP fuel' T years a s = Some v.
Proof.
  intros Hle. unfold calculateMonthlySIP.
  destruct (_ || _ || _); [trivial |].
  destruct (_ || _); [trivial |].
  now apply calculateStepUpSIP_mono.
Qed.

Lemma invest_years_loop_mono years g fuel : forall fuel' year acc c v,
  (fuel <= fuel')%nat ->
  invest_years_loop fuel years g year acc c = Some v ->
  invest_years_loop fuel' years g year acc c = Some v.
Proof.
  induction fuel as [| fuel IH]; intros fuel' year acc c v Hle H.
  - cbn [invest_years_loop] in H. destruct (year <? years)%js eqn:E; [discriminate |].
    destruct fuel'; cbn [invest_years_loop]; rewrite E; assumption.
  - destruct fuel' as [| fuel']; [lia |].
    cbn [invest_years_loop] in *. destruct (year <? years)%js; [| assumption].
    apply IH; [lia | assumption].
Qed.

Lemma calculateTotalInvestment_mono fuel fuel' m years s v :
  (fuel <= fuel')%nat ->
  calculateTotalInvestment fuel m years s = Some v ->
  calculateTotalInvestment fuel' m years s = Some v.
Proof.
  intros Hle. unfold calculateTotalInvestment.
  destruct (_ || _); [trivial |]. now apply invest_years_loop_mono.
Qed.

(** A computation that is monotone in its fuel returns what it produces
    once. *)
Lemma returns_of_mono {A : Type} (c : nat -> option A) fuel v :
  (forall f f' w, (f <= f')%nat -> c f = Some w -> c f' = Some w) ->
  c fuel = Some v -> returns c v.
Proof. intros Hmono H. exists fuel. intros f Hf. now apply (Hmono fuel). Qed.

End FuelMonotone.

(** ** The oracle and the search on a finite horizon *)

Lemma fv_years_loop_total years i s n : forall k fuel acc c,
  year_count years = (k + n)%nat -> (n <= fuel)%nat ->
  exists v, fv_years_loop fuel (Fin years) i s (Fin (INR k)) acc c = Some v.
Proof.
  induction n as [| n IH]; intros k fuel acc c Hcount Hfuel.
  - assert (Hk : ~ INR k < years).
    { intros H. apply year_count_spec in H. lia. }
    exists acc.
    destruct fuel; cbn [fv_years_loop]; rewrite lt_fin, Rltb_false by lra;
      reflexivity.
  - assert (Hk : INR k < years) by (apply year_count_spec; lia).
    destruct fuel as [| fuel]; [lia |].
    cbn [fv_years_loop]. rewrite lt_fin, Rltb_true by assumption.
    rewrite add_fin.
    replace (INR k + 1) with (INR (S k)) by (rewrite S_INR; reflexivity).
    apply IH; lia.
Qed.

Lemma calculateStepUpFutureValue_total x years a s fuel :
  (year_count years <= fuel)%nat ->
  exists v, calculateStepUpFutureValue fuel x (Fin years) a s = Some v.
Proof.
  intros Hfuel. unfold calculateStepUpFutureValue.
  change (Fin 0) with (Fin (INR 0)) at 1.
  apply fv_years_loop_total with (n := year_count years); [reflexivity | assumption].
Qed.

Lemma pow2_unbounded x : exists n : nat, x <= 2 ^ n.
Proof.
  assert (Hn : forall n : nat, INR n <= 2 ^ n).
  { induction n as [| n IH]; [simpl; lra |].
    rewrite S_INR. cbn [pow].
    assert (1 <= 2 ^ n) by (apply pow_R1_Rle; lra). lra. }
  destruct (archimed x) as [Hup _].
  exists (Z.to_nat (up x)).
  destruct (Z_le_gt_dec 0 (up x)) as [Hz | Hz].
  - specialize (Hn (Z.to_nat (up x))).
    rewrite INR_IZR_INZ, Z2Nat.id in Hn by assumption. lra.
  - assert (IZR (up x) <= 0) by (apply IZR_le; lia).
    assert (0 < 2 ^ Z.to_nat (up x)) by (apply pow_lt; lra). lra.
Qed.

Section Search.

Variables (T years : R) (a s : num).

(** An invariant of the search variables [low], [high] and [initialSIP],
    kept by either branch of the loop body. *)
Variable Inv : R -> R -> R -> Prop.

Hypothesis Inv_body : forall lo hi mid ofuel v,
  Inv lo hi mid -> 1 < hi - lo ->
  calculateStepUpFutureValue ofuel (Fin ((lo + hi) / 2)) (Fin years) a s = Some v ->
  if (v <? Fin T)%js
  then Inv ((lo + hi) / 2) hi ((lo + hi) / 2)
  else Inv lo ((lo + hi) / 2) ((lo + hi) / 2).

Lemma search_guard_fin lo hi mid :
  search_guard (mkSearch (Fin lo) (Fin hi) (Fin mid)) = Rltb 1 (hi - lo).
Proof. reflexivity. Qed.

Lemma search_loop_fin ofuel n : forall fuel lo hi mid,
  (year_count years <= ofuel)%nat ->
  Inv lo hi mid -> hi - lo <= 2 ^ n -> (n <= fuel)%nat ->
  exists lo' hi' mid',
    search_loop ofuel fuel (Fin T) (Fin years) a s
      (mkSearch (Fin lo) (Fin hi) (Fin mid))
    = Some (mkSearch (Fin lo') (Fin hi') (Fin mid'))
    /\ Inv lo' hi' mid' /\ hi' - lo' <= 1.
Proof.
  induction n as [| n IH]; intros fuel lo hi mid Ho HI Hw Hfuel.
  - simpl in Hw. exists lo, hi, mid.
    destruct fuel; cbn [search_loop]; rewrite search_guard_fin, Rltb_false by lra;
      auto.
  - destruct fuel as [| fuel]; [lia |].
    cbn [search_loop]. rewrite search_guard_fin.
    destruct (Rlt_le_dec 1 (hi - lo)) as [Hgt | Hle].
    + rewrite Rltb_true by assumption.
      unfold search_body. cbn [low high]. rewrite add_fin, div_fin by lra.
      destruct (calculateStepUpFutureValue_total (Fin ((lo + hi) / 2)) years a s
                  ofuel Ho) as [v Hv].
      rewrite Hv. pose proof (Inv_body lo hi mid ofuel v HI Hgt Hv) as Hstep.
      cbn [pow] in Hw.
      destruct (v <? Fin T)%js; apply IH; try assumption; try lia; lra.
    + rewrite Rltb_false by assumption. exists lo, hi, mid. auto.
Qed.

(** The solver on a finite target and horizon: it returns the rounding of
    the last midpoint, and the invariant holds of the final variables. *)
Lemma calculateStepUpSIP_inv :
  Inv 0 (T / 12) 0 ->
  exists lo hi mid,
    returns (fun fuel => calculateStepUpSIP fuel (Fin T) (Fin years) a s)
      (Fin (IZR (Zfloor (mid + / 2))))
    /\ Inv lo hi mid /\ hi - lo <= 1.
Proof.
  intros H0. destruct (pow2_unbounded (T / 12 - 0)) as [n Hn].
  destruct (search_loop_fin (Nat.max n (year_count years)) n
              (Nat.max n (year_count years)) 0 (T / 12) 0)
    as (lo & hi & mid & Hrun & HI & Hw); try assumption; try lia.
  exists lo, hi, mid. split; [| auto].
  apply returns_of_mono with (fuel := Nat.max n (year_count years)).
  - intros f f' w. apply calculateStepUpSIP_mono.
  - unfold calculateStepUpSIP, search_init. rewrite div_fin by lra.
    rewrite Hrun. reflexivity.
Qed.

End Search.

(** ** The solver on finite inputs *)

Lemma calculateStepUpFutureValue_value ofuel x years a s v :
  -1200 < a ->
  calculateStepUpFutureValue ofuel (Fin x) (Fin years) (Fin a) (Fin s) = Some v ->
  v = Fin (x * fv_factor years a s).
Proof.
  intros Ha H.
  apply (calculateStepUpFutureValue_mono _ (Nat.max ofuel (year_count years)))
    in H; [| lia].
  rewrite calculateStepUpFutureValue_fin in H by (lra || lia). congruence.
Qed.

Lemma calculateStepUpFutureValue_returns x years a s :
  -1200 < a ->
  returns (fun fuel =>
             calculateStepUpFutureValue fuel (Fin x) (Fin years) (Fin a) (Fin s))
    (Fin (x * fv_factor years a s)).
Proof.
  intros Ha. exists (year_count years). intros fuel Hfuel.
  now apply calculateStepUpFutureValue_fin.
Qed.

(** The search variables stay between [0] and the initial upper bound,
    whatever the oracle answers. *)
Lemma calculateStepUpSIP_range T years a s :
  0 <= T ->
  exists r,
    returns (fun fuel => calculateStepUpSIP fuel (Fin T) (Fin years) a s) (Fin r)
    /\ - / 2 < r <= T / 12 + / 2.
Proof.
  intros HT.
  destruct (calculateStepUpSIP_inv T years a s
              (fun lo hi mid => 0 <= lo /\ lo <= hi /\ hi <= T / 12 /\ 0 <= mid <= hi))
    as (lo & hi & mid & Hret & HI & _).
  - intros lo hi mid ofuel v HI Hw _. destruct (v <? Fin T)%js; lra.
  - lra.
  - exists (IZR (Zfloor (mid + / 2))). split; [assumption |].
    pose proof (round_bounds mid). lra.
Qed.

Lemma calculateStepUpSIP_total T years a s :
  exists r,
    returns (fun fuel => calculateStepUpSIP fuel (Fin T) (Fin years) a s) (Fin r).
Proof.
  destruct (calculateStepUpSIP_inv T years a s (fun _ _ _ => True))
    as (lo & hi & mid & Hret & _).
  - intros lo hi mid ofuel v _ _ _. destruct (v <? Fin T)%js; exact I.
  - exact I.
  - eauto.
Qed.

(** When the initial bounds bracket the exact solution [x], the last
    midpoint is within the tolerance of it. *)
Lemma calculateStepUpSIP_bracket T years a s x :
  -1200 < a -> 0 < fv_factor years a s -> x * fv_factor years a s = T ->
  0 <= x <= T / 12 ->
  exists mid,
    returns (fun fuel => calculateStepUpSIP fuel (Fin T) (Fin years) (Fin a) (Fin s))
      (Fin (IZR (Zfloor (mid + / 2))))
    /\ Rabs (mid - x) <= 1.
Proof.
  intros Ha HF Hx Hx0.
  destruct (calculateStepUpSIP_inv T years (Fin a) (Fin s)
              (fun lo hi mid =>
                 lo <= x <= hi /\ (hi - lo <= 1 -> Rabs (mid - x) <= 1)))
    as (lo & hi & mid & Hret & [HI1 HI2] & Hw).
  - intros lo hi mid ofuel v [HI1 HI2] Hw Hv.
    apply calculateStepUpFutureValue_value in Hv; [| assumption]. subst v.
    rewrite lt_fin.
    destruct (Rlt_le_dec ((lo + hi) / 2 * fv_factor years a s) T) as [Hlt | Hge].
    + rewrite Rltb_true by assumption.
      assert ((lo + hi) / 2 < x) by nra.
      split; [lra |]. intros Hw'. apply Rabs_le_iff. lra.
    + rewrite Rltb_false by assumption.
      assert (x <= (lo + hi) / 2) by nra.
      split; [lra |]. intros Hw'. apply Rabs_le_iff. lra.
  - split; [lra |]. intros Hw. apply Rabs_le_iff. lra.
  - exists mid. split; [assumption | auto].
Qed.

(** ** Round trip of the step-up solver *)



(** ** Evaluating the factor on whole numbers of months *)

Lemma Rsum_map_ext (f g : nat -> R) l :
  (forall m, In m l -> f m = g m) -> Rsum (map f l) = Rsum (map g l).
Proof.
  intros H. f_equal. apply map_ext_in. exact H.
Qed.

Lemma Rsum_map_scal c (f : nat -> R) l :
  Rsum (map (fun m => c * f m) l) = c * Rsum (map f l).
Proof.
  induction l as [| m l IH]; cbn [map Rsum fold_right]; [ring |].
  fold (Rsum (map (fun m => c * f m) l)) (Rsum (map f l)). rewrite IH. ring.
Qed.

(** Moving the whole year [d] months away from the horizon. *)
Lemma month_factor_shift b M d :
  month_factor b (M + d) = Rpower b d * month_factor b M.
Proof.
  unfold month_factor. rewrite <- Rsum_map_scal. apply Rsum_map_ext.
  intros m _. rewrite <- Rpower_plus. f_equal. ring.
Qed.

Lemma month_factor_Z b z :
  0 < b ->
  month_factor b (IZR z)
  = Rsum (map (fun month => powerRZ b (z - Z.of_nat month)) (seq 0 12)).
Proof.
  intros Hb. unfold month_factor. apply Rsum_map_ext. intros m _.
  rewrite powerRZ_Rpower by assumption.
  now rewrite minus_IZR, <- INR_IZR_INZ.
Qed.

(** Writes [month_factor b z], for a literal whole number of months [z], as
    the sum of its twelve powers of [b]. *)
Ltac month_factor_terms :=
  rewrite month_factor_Z by (assumption || lra);
  cbv [seq map Rsum fold_right Z.of_nat Z.sub Z.add Z.opp Z.pos_sub
       Pos.of_succ_nat Pos.succ Pos.pred_double Z.double Z.succ_double
       Z.pred_double powerRZ Pos.to_nat Pos.iter_op Nat.add pow].

Example month_factor_3 :
  month_factor (101 / 100) 3 < 11713 / 1000.
Proof.
  month_factor_terms.
  lra.
Qed.

Lemma year_count_quarter : year_count (1 / 4) = 1%nat.
Proof. unfold year_count. rewrite (Zceil_eq 1) by lra. reflexivity. Qed.

(** A horizon of three months at 12% a year: the twelve contributions of the
    only simulated year are worth less than twelve units. *)
Lemma fv_factor_quarter s : fv_factor (1 / 4) 12 s < 11713 / 1000.
Proof.
  unfold fv_factor. rewrite year_count_quarter. cbn [fv_sum INR].
  replace ((1 / 4 - 0) * 12) with 3 by lra.
  replace (1 + 12 / 12 / 100) with (101 / 100) by lra.
  pose proof month_factor_3. lra.
Qed.


(** ** Bracketing of the binary search *)

(** What the loop returns is one of these states. *)
Lemma search_loop_reaches T years a s ofuel fuel : forall st st',
  search_reaches T years a s st ->
  search_loop ofuel fuel T years a s st = Some st' ->
  search_reaches T years a s st'.
Proof.
  induction fuel as [| fuel IH]; intros st st' Hst H; cbn [search_loop] in H;
    destruct (search_guard st) eqn:Eg; try discriminate; try congruence.
  destruct (search_body ofuel T years a s st) as [st1 |] eqn:Eb; [| discriminate].
  apply (IH st1); [| assumption]. eapply reaches_body; eassumption.
Qed.




(** ** The level-SIP solver *)

Lemma strict_eq_spec x y : (x === Fin y)%js = true <-> x = Fin y.
Proof.
  destruct x as [r | | |]; cbn [strict_eq]; try (split; [discriminate | discriminate]).
  rewrite Reqb_spec. split; congruence.
Qed.

Lemma strict_eq_false x y : x <> Fin y -> (x === Fin y)%js = false.
Proof.
  intros H. destruct (x === Fin y)%js eqn:E; [| reflexivity].
  apply strict_eq_spec in E. contradiction.
Qed.

Lemma level_sip_formula_fin T years a :
  years <> 0 -> a <> 0 -> -1200 < a ->
  level_sip_formula (Fin T) (Fin years) (Fin a) = Fin (level_sip_real T years a).
Proof.
  intros Hy Ha Ha'. unfold level_sip_formula, level_sip_real.
  assert (Hi : a / 12 / 100 <> 0).
  { intros H. apply Ha. field_simplify in H. lra. }
  assert (Hb : 0 < 1 + a / 12 / 100) by lra.
  rewrite mul_fin, !div_fin, add_fin by lra.
  rewrite Math_pow_pos, sub_fin, div_fin, mul_fin by assumption.
  assert (Hp : Rpower (1 + a / 12 / 100) (years * 12) <> 1).
  { intros H.
    assert (H0 : Rpower (1 + a / 12 / 100) (years * 12)
                 = Rpower (1 + a / 12 / 100) 0) by (now rewrite Rpower_O).
    unfold Rpower in H0. apply exp_inv in H0.
    apply Rmult_eq_reg_r in H0; [lra |].
    apply ln_neq_0; lra. }
  rewrite div_fin.
  - reflexivity.
  - apply Rmult_integral_contrapositive_currified; [| lra].
    unfold Rdiv. apply Rmult_integral_contrapositive_currified; [lra |].
    now apply Rinv_neq_0_compat.
Qed.

Lemma calculateMonthlySIP_degenerate fuel targetAmount years annualRate :
  targetAmount = Fin 0 \/ (years * Fin 12)%js = Fin 0
  \/ (annualRate / Fin 12 / Fin 100)%js = Fin 0 ->
  calculateMonthlySIP fuel targetAmount years annualRate (Fin 0) = Some (Fin 0).
Proof.
  intros H. unfold calculateMonthlySIP.
  destruct H as [H | [H | H]]; apply strict_eq_spec in H; rewrite H;
    rewrite ?orb_true_r; reflexivity.
Qed.

Lemma calculateMonthlySIP_level fuel targetAmount years annualRate :
  targetAmount <> Fin 0 -> (years * Fin 12)%js <> Fin 0 ->
  (annualRate / Fin 12 / Fin 100)%js <> Fin 0 ->
  calculateMonthlySIP fuel targetAmount years annualRate (Fin 0)
  = Some (level_sip_formula targetAmount years annualRate).
Proof.
  intros HT Hn Hi. unfold calculateMonthlySIP.
  rewrite !strict_eq_false by assumption. cbn [orb truthy].
  rewrite (Reqb_true 0 0) by reflexivity. reflexivity.
Qed.

Lemma calculateMonthlySIP_level_fin fuel T y a :
  T <> 0 -> y <> 0 -> a <> 0 -> -1200 < a ->
  calculateMonthlySIP fuel (Fin T) (Fin y) (Fin a) (Fin 0)
  = Some (Fin (level_sip_real T y a)).
Proof.
  intros HT Hy Ha Ha'. rewrite calculateMonthlySIP_level.
  - now rewrite level_sip_formula_fin.
  - congruence.
  - rewrite mul_fin. intros H. injection H as H. lra.
  - rewrite !div_fin by lra. intros H. injection H as H.
    apply Ha. field_simplify in H. lra.
Qed.



(** The closed form at a target of 1000000 over 10 years at 12%: 4304. *)
Example level_sip_known_value : level_sip_real 1000000 10 12 = 4304.
Proof.
  unfold level_sip_real.
  replace (10 * 12) with (INR 120) by (simpl; lra).
  rewrite Rpower_pow by lra. f_equal. apply Zfloor_eq.
  replace (1 + 12 / 12 / 100) with (101 / 100) by lra.
  replace (12 / 12 / 100) with (1 / 100) by lra.
  assert (H : 33003 / 10000 < (101 / 100) ^ 120 < 33004 / 10000).
  { replace ((101 / 100) ^ 120) with ((((101 / 100) ^ 10) ^ 4) ^ 3)
      by (rewrite <- !pow_mult; reflexivity).
    cbn [pow]. lra. }
  set (p := (101 / 100) ^ 120) in *.
  split.
  - apply Rle_trans
      with (1000000 / ((33004 / 10000 - 1) / (1 / 100) * (101 / 100)) + / 2); [lra |].
    apply Rplus_le_compat_r. unfold Rdiv at 1 5. apply Rmult_le_compat_l; [lra |].
    apply Rinv_le_contravar; lra.
  - apply Rlt_le_trans
      with (1000000 / ((33003 / 10000 - 1) / (1 / 100) * (101 / 100)) + / 2); [| lra].
    apply Rplus_lt_compat_r. unfold Rdiv at 1 5. apply Rmult_lt_compat_l; [lra |].
    apply Rinv_lt_contravar; [| lra]. apply Rmult_lt_0_compat; lra.
Qed.

(** ** Whole years without step-up: the annuity-due factor *)

Lemma month_factor_12 b :
  0 < b -> b <> 1 -> month_factor b 12 = b * (b ^ 12 - 1) / (b - 1).
Proof.
  intros Hb Hb1. month_factor_terms.
  field. lra.
Qed.

Lemma fv_sum_level b n : 1 < b -> forall r k,
  (k + r = n)%nat ->
  fv_sum b 1 (INR n) r k = b * (b ^ (12 * r) - 1) / (b - 1).
Proof.
  intros Hb. induction r as [| r IH]; intros k Hk.
  - cbn [fv_sum]. rewrite Nat.mul_0_r. cbn [pow]. field. lra.
  - cbn [fv_sum]. rewrite IH by lia.
    replace ((INR n - INR k) * 12) with (12 + INR (12 * r)).
    2:{ subst n. rewrite plus_INR, mult_INR, (S_INR r).
        replace (INR 12) with 12 by (simpl; lra). lra. }
    rewrite month_factor_shift, Rpower_pow, month_factor_12 by lra.
    replace (12 * S r)%nat with (12 + 12 * r)%nat by lia.
    rewrite pow_add. field. lra.
Qed.

Lemma fv_factor_level n a :
  0 < a ->
  fv_factor (INR n) a 0
  = (Rpower (1 + a / 12 / 100) (INR n * 12) - 1) / (a / 12 / 100)
    * (1 + a / 12 / 100).
Proof.
  intros Ha. unfold fv_factor.
  assert (Hi : 0 < a / 12 / 100) by (repeat apply Rmult_lt_0_compat; lra).
  replace (1 + 0 / 100) with 1 by lra.
  rewrite year_count_INR, (fv_sum_level _ n) by (lra || lia).
  replace (INR n * 12) with (INR (12 * n)) by (rewrite mult_INR; simpl INR; lra).
  rewrite Rpower_pow by lra. field. lra.
Qed.

(** ** Reduction of the step-up solver to the level SIP *)




(** ** Monotonicity of the oracle *)

Lemma fv_value_intro x years a s :
  -1200 < a -> fv_value x years a s (x * fv_factor years a s).
Proof. apply calculateStepUpFutureValue_returns. Qed.

Lemma fv_value_inv x years a s v :
  -1200 < a -> fv_value x years a s v -> v = x * fv_factor years a s.
Proof.
  intros Ha Hv.
  pose proof (returns_unique _ _ _ Hv (fv_value_intro x years a s Ha)).
  congruence.
Qed.

Lemma fv_lt_intro x1 y1 a1 s1 x2 y2 a2 s2 :
  -1200 < a1 -> -1200 < a2 ->
  x1 * fv_factor y1 a1 s1 < x2 * fv_factor y2 a2 s2 ->
  fv_lt x1 y1 a1 s1 x2 y2 a2 s2.
Proof.
  intros H1 H2 Hlt. eexists _, _.
  split; [apply fv_value_intro; assumption |].
  split; [apply fv_value_intro; assumption | exact Hlt].
Qed.

Lemma fv_lt_inv x1 y1 a1 s1 x2 y2 a2 s2 :
  -1200 < a1 -> -1200 < a2 ->
  fv_lt x1 y1 a1 s1 x2 y2 a2 s2 ->
  x1 * fv_factor y1 a1 s1 < x2 * fv_factor y2 a2 s2.
Proof.
  intros H1 H2 (v1 & v2 & Hv1 & Hv2 & Hlt).
  apply fv_value_inv in Hv1, Hv2; try assumption. lra.
Qed.

Section FactorMonotone.

Variables (b g years : R).

Lemma fv_sum_le_g g' n : forall k,
  0 <= g <= g' -> fv_sum b g years n k <= fv_sum b g' years n k.
Proof.
  induction n as [| n IH]; intros k Hg; cbn [fv_sum]; [lra |].
  pose proof (IH (S k) Hg).
  pose proof (fv_sum_nonneg b g years n (S k) ltac:(lra)).
  nra.
Qed.

(** The step-up rate matters from the second contribution year on. *)
Lemma fv_sum_lt_g g' n k :
  0 <= g < g' -> (2 <= n)%nat ->
  fv_sum b g years n k < fv_sum b g' years n k.
Proof.
  intros Hg Hn. destruct n as [| n]; [lia |]. cbn [fv_sum].
  pose proof (fv_sum_le_g g' n (S k) ltac:(lra)).
  pose proof (fv_sum_pos b g years n (S k) ltac:(lra) ltac:(lia)).
  nra.
Qed.

Lemma fv_sum_extend n d : forall k,
  0 <= g -> fv_sum b g years n k <= fv_sum b g years (n + d) k.
Proof.
  induction n as [| n IH]; intros k Hg; cbn [fv_sum Nat.add].
  - now apply fv_sum_nonneg.
  - pose proof (IH (S k) Hg). nra.
Qed.

Lemma fv_sum_le_years years' n : forall k,
  1 < b -> 0 <= g -> years < years' ->
  fv_sum b g years n k <= fv_sum b g years' n k.
Proof.
  induction n as [| n IH]; intros k Hb Hg Hy; cbn [fv_sum]; [lra |].
  pose proof (IH (S k) Hb Hg Hy).
  pose proof (month_factor_lt_M b ((years - INR k) * 12) ((years' - INR k) * 12)
                Hb ltac:(lra)).
  nra.
Qed.

Lemma fv_sum_lt_years years' n k :
  1 < b -> 0 <= g -> years < years' -> (1 <= n)%nat ->
  fv_sum b g years n k < fv_sum b g years' n k.
Proof.
  intros Hb Hg Hy Hn. destruct n as [| n]; [lia |]. cbn [fv_sum].
  pose proof (fv_sum_le_years years' n (S k) Hb Hg Hy).
  pose proof (month_factor_lt_M b ((years - INR k) * 12) ((years' - INR k) * 12)
                Hb ltac:(lra)).
  nra.
Qed.

End FactorMonotone.

(** On whole years every contribution compounds for at least one month, so
    a higher rate is worth more. *)
Lemma fv_sum_le_b b b' g n : forall r k,
  0 < b < b' -> 0 <= g -> (k + r = n)%nat ->
  fv_sum b g (INR n) r k <= fv_sum b' g (INR n) r k.
Proof.
  induction r as [| r IH]; intros k Hb Hg Hk; cbn [fv_sum]; [lra |].
  pose proof (IH (S k) Hb Hg ltac:(lia)).
  assert (HM : 11 < (INR n - INR k) * 12).
  { subst n. rewrite plus_INR, S_INR. pose proof (pos_INR r). lra. }
  pose proof (month_factor_lt_b b b' _ Hb HM). nra.
Qed.

Lemma fv_sum_lt_b b b' g n r k :
  0 < b < b' -> 0 <= g -> (k + r = n)%nat -> (1 <= r)%nat ->
  fv_sum b g (INR n) r k < fv_sum b' g (INR n) r k.
Proof.
  intros Hb Hg Hk Hr. destruct r as [| r]; [lia |]. cbn [fv_sum].
  pose proof (fv_sum_le_b b b' g n r (S k) Hb Hg ltac:(lia)).
  assert (HM : 11 < (INR n - INR k) * 12).
  { subst n. rewrite plus_INR, S_INR. pose proof (pos_INR r). lra. }
  pose proof (month_factor_lt_b b b' _ Hb HM). nra.
Qed.



Lemma year_count_one : year_count 1 = 1%nat.
Proof. unfold year_count. rewrite (Zceil_eq 1) by lra. reflexivity. Qed.

(** With a single contribution year the step-up is never applied. *)
Lemma fv_factor_one_year a s s' : fv_factor 1 a s = fv_factor 1 a s'.
Proof. unfold fv_factor. rewrite year_count_one. cbn [fv_sum]. ring. Qed.

Example month_factor_3_low : 117 / 10 < month_factor (101 / 100) 3.
Proof.
  month_factor_terms.
  lra.
Qed.

Example month_factor_3_high_rate : month_factor (11 / 10) 3 < 10.
Proof.
  month_factor_terms.
  lra.
Qed.


(** ** A run of the search *)

Lemma fv_factor_one_year_12 s :
  128 / 10 < fv_factor 1 12 s < 1281 / 100.
Proof.
  unfold fv_factor. rewrite year_count_one. cbn [fv_sum INR].
  replace ((1 - 0) * 12) with 12 by lra.
  replace (1 + 12 / 12 / 100) with (101 / 100) by lra.
  month_factor_terms. lra.
Qed.

(** A run of the search: target 36 over one year at 12%.  The bounds go
    from [(0, 3)] to [(1.5, 3)] and [(2.25, 3)], and the last midpoint 2.25
    is rounded to 2. *)
Example calculateStepUpSIP_run :
  returns (fun fuel => calculateStepUpSIP fuel (Fin 36) (Fin 1) (Fin 12) (Fin 0))
    (Fin 2).
Proof.
  pose proof (fv_factor_one_year_12 0) as HF.
  exists 2%nat. intros fuel Hfuel.
  destruct fuel as [| [| fuel]]; try lia.
  unfold calculateStepUpSIP, search_init. rewrite div_fin by lra.
  cbn [search_loop]. rewrite search_guard_fin, Rltb_true by lra.
  unfold search_body at 1. cbn [low high]. rewrite add_fin, div_fin by lra.
  rewrite calculateStepUpFutureValue_fin by (rewrite ?year_count_one; lra || lia).
  rewrite lt_fin, Rltb_true by lra.
  rewrite search_guard_fin, Rltb_true by lra.
  unfold search_body at 1. cbn [low high]. rewrite add_fin, div_fin by lra.
  rewrite calculateStepUpFutureValue_fin by (rewrite ?year_count_one; lra || lia).
  rewrite lt_fin, Rltb_true by lra.
  assert (Hexit : forall f,
            search_loop (S (S fuel)) f (Fin 36) (Fin 1) (Fin 12) (Fin 0)
              (mkSearch (Fin (((0 + 36 / 12) / 2 + 36 / 12) / 2)) (Fin (36 / 12))
                 (Fin (((0 + 36 / 12) / 2 + 36 / 12) / 2)))
            = Some (mkSearch (Fin (((0 + 36 / 12) / 2 + 36 / 12) / 2)) (Fin (36 / 12))
                      (Fin (((0 + 36 / 12) / 2 + 36 / 12) / 2)))).
  { intros f. destruct f; cbn [search_loop];
      rewrite search_guard_fin, Rltb_false by lra; reflexivity. }
  rewrite Hexit. cbn [initialSIP Math_round]. f_equal. f_equal.
  rewrite (Zfloor_eq 2) by lra. reflexivity.
Qed.

(** ** The inflation projector *)

Lemma calculateInflationAdjustedAmount_fin p r y :
  p <> 0 -> y <> 0 -> -100 < r ->
  calculateInflationAdjustedAmount (Fin p) (Fin r) (Fin y)
  = Fin (IZR (Zfloor (p * Rpower (1 + r / 100) y + / 2))).
Proof.
  intros Hp Hy Hr. unfold calculateInflationAdjustedAmount.
  rewrite !strict_eq_false by congruence. cbn [orb].
  rewrite div_fin, add_fin, Math_pow_pos, mul_fin by lra. reflexivity.
Qed.

Lemma inflation_known_value :
  calculateInflationAdjustedAmount (Fin 100000) (Fin 6) (Fin 10) = Fin 179085.
Proof.
  rewrite calculateInflationAdjustedAmount_fin by lra.
  replace 10 with (INR 10) at 1 by (simpl; lra).
  rewrite Rpower_pow by lra. f_equal. f_equal.
  apply Zfloor_eq. cbn [pow]. lra.
Qed.



(** ** The small-target cutoff of the solver *)

Lemma Math_round_0 : Math_round (Fin 0) = Fin 0.
Proof. cbn [Math_round]. rewrite (Zfloor_eq 0) by lra. reflexivity. Qed.

(** C9: for [0 <= targetAmount <= 12], and for all [years], [annualRate]
    and [stepUpRate] (any numbers, finite or not), [calculateStepUpSIP]
    returns exactly [0]: the loop condition is false on the initial state, so
    the body never runs and the oracle is never called -- no fuel is needed. *)
Theorem small_target_cutoff fuel T years annualRate stepUpRate :
  0 <= T <= 12 ->
  search_guard (search_init (Fin T)) = false
  /\ calculateStepUpSIP fuel (Fin T) years annualRate stepUpRate = Some (Fin 0).
Proof.
  intros HT.
  assert (Hg : search_guard (search_init (Fin T)) = false).
  { unfold search_init. rewrite div_fin by lra.
    rewrite search_guard_fin. apply Rltb_false. lra. }
  split; [assumption |].
  unfold calculateStepUpSIP.
  destruct fuel; cbn [search_loop]; rewrite Hg; unfold search_init;
    cbn [initialSIP]; now rewrite Math_round_0.
Qed.

Lemma small_target_cutoff_witness :
  search_guard (search_init (Fin 12)) = false
  /\ calculateStepUpSIP 0 (Fin 12) PInf NaN (Fin 10) = Some (Fin 0).
Proof. apply (small_target_cutoff 0 12 PInf NaN (Fin 10)). lra. Defined.

(** ** Contribution years on a fractional horizon *)

Lemma invest_years_loop_fin years g n : forall k fuel acc c,
  year_count years = (k + n)%nat -> (n <= fuel)%nat ->
  invest_years_loop fuel (Fin years) (Fin g) (Fin (INR k)) (Fin acc) (Fin c)
  = Some (Fin (acc + invest_sum c (1 + g) n)).
Proof.
  induction n as [| n IH]; intros k fuel acc c Hcount Hfuel.
  - assert (Hk : ~ INR k < years).
    { intros H. apply year_count_spec in H. lia. }
    destruct fuel; cbn [invest_years_loop]; rewrite lt_fin, Rltb_false by lra;
      cbn [invest_sum]; f_equal; f_equal; ring.
  - assert (Hk : INR k < years) by (apply year_count_spec; lia).
    destruct fuel as [| fuel]; [lia |].
    cbn [invest_years_loop]. rewrite lt_fin, Rltb_true by assumption.
    repeat (rewrite add_fin || rewrite mul_fin).
    replace (INR k + 1) with (INR (S k)) by (rewrite S_INR; reflexivity).
    rewrite IH by lia. f_equal. f_equal. cbn [invest_sum]. ring.
Qed.

Lemma Rsum_seq_S (f : nat -> R) n :
  Rsum (map f (seq 0 (S n))) = f O + Rsum (map (fun y => f (S y)) (seq 0 n)).
Proof.
  cbn [seq map Rsum fold_right]. f_equal.
  rewrite <- seq_shift, map_map. reflexivity.
Qed.

(** Year [y] contributes twelve times [c * g^y]. *)
Lemma invest_sum_closed g n : forall c,
  invest_sum c g n = Rsum (map (fun y => 12 * c * g ^ y) (seq 0 n)).
Proof.
  induction n as [| n IH]; intros c; [reflexivity |].
  rewrite Rsum_seq_S. cbn [invest_sum]. rewrite IH.
  cbn [pow]. f_equal; [ring |].
  apply Rsum_map_ext. intros y _. ring.
Qed.

(** Year [y] of the oracle: twelve contributions of [g^y] units, the first
    one [(years - y) * 12] months before the horizon. *)
Lemma fv_sum_closed b g years n : forall k,
  fv_sum b g years n k
  = Rsum (map (fun y => g ^ y * month_factor b ((years - INR (k + y)) * 12))
            (seq 0 n)).
Proof.
  induction n as [| n IH]; intros k; [reflexivity |].
  rewrite Rsum_seq_S. cbn [fv_sum]. rewrite IH, <- Rsum_map_scal.
  rewrite Nat.add_0_r. cbn [pow]. f_equal; [ring |].
  apply Rsum_map_ext. intros y _.
  replace (S k + y)%nat with (k + S y)%nat by lia. ring.
Qed.

Lemma calculateTotalInvestment_step_up fuel m years s :
  s <> 0 -> (year_count years <= fuel)%nat ->
  calculateTotalInvestment fuel (Fin m) (Fin years) (Fin s)
  = Some (Fin (Rsum (map (fun y => 12 * m * (1 + s / 100) ^ y)
                       (seq 0 (year_count years))))).
Proof.
  intros Hs Hfuel. unfold calculateTotalInvestment. cbn [truthy strict_eq].
  rewrite Reqb_false by assumption. cbn [negb orb].
  rewrite div_fin by lra.
  change (Fin 0) with (Fin (INR 0)) at 1.
  rewrite (invest_years_loop_fin years (s / 100) (year_count years))
    by (reflexivity || assumption).
  rewrite invest_sum_closed. f_equal. f_equal. ring.
Qed.

Lemma calculateTotalInvestment_flat fuel m years :
  calculateTotalInvestment fuel (Fin m) (Fin years) (Fin 0)
  = Some (Fin (m * years * 12)).
Proof.
  unfold calculateTotalInvestment. cbn [truthy strict_eq].
  rewrite Reqb_true by reflexivity. reflexivity.
Qed.

Lemma year_count_half : year_count (1 / 2) = 1%nat.
Proof. unfold year_count. rewrite (Zceil_eq 1) by lra. reflexivity. Qed.

Lemma Rsum_pow_ge g n :
  1 <= g -> INR n <= Rsum (map (fun y => g ^ y) (seq 0 n)).
Proof.
  intros Hg.
  replace (INR n) with (Rsum (map (fun _ : nat => 1) (seq 0 n)))
    by (rewrite Rsum_map_const, length_seq; ring).
  apply Rsum_map_le. intros y _. now apply pow_R1_Rle.
Qed.

Lemma year_count_ge years : 0 <= years -> years <= INR (year_count years).
Proof.
  intros Hy. destruct (Rle_lt_dec years (INR (year_count years))) as [H | H];
    [assumption | exfalso].
  apply year_count_spec in H. lia.
Qed.

(** Off the whole numbers the two branches of [calculateTotalInvestment]
    never give the same total for a non-zero contribution. *)
Lemma invest_branches_disagree m years s :
  m <> 0 -> 0 < s -> (forall z : Z, years <> IZR z) ->
  Rsum (map (fun y => 12 * m * (1 + s / 100) ^ y) (seq 0 (year_count years)))
  <> m * years * 12.
Proof.
  intros Hm Hs Hfrac.
  replace (Rsum _)
    with (12 * m * Rsum (map (fun y => (1 + s / 100) ^ y) (seq 0 (year_count years)))).
  2:{ rewrite <- Rsum_map_scal. apply Rsum_map_ext. intros; ring. }
  assert (Hy0 : years <> 0) by apply (Hfrac 0%Z).
  destruct (Rlt_le_dec years 0) as [Hneg | Hpos].
  - rewrite year_count_nonpos by lra. cbn [seq map Rsum fold_right].
    intros H. assert (m * years = 0) by lra.
    apply Rmult_integral in H0. tauto.
  - assert (Hg : 1 <= 1 + s / 100).
    { assert (0 < s / 100) by (apply Rmult_lt_0_compat; lra). lra. }
    pose proof (Rsum_pow_ge (1 + s / 100) (year_count years) Hg) as Hsum.
    pose proof (year_count_ge years Hpos) as Hge.
    assert (Hne : years <> INR (year_count years))
      by (rewrite INR_IZR_INZ; apply Hfrac).
    intros H.
    assert (E : m * (Rsum (map (fun y => (1 + s / 100) ^ y)
                             (seq 0 (year_count years))) - years) = 0) by lra.
    apply Rmult_integral in E. destruct E as [E | E]; [tauto | lra].
Qed.



(** ** Infinite inputs: where the solver does not terminate *)

Section InfiniteContribution.

Variables (years i g : R).
Hypothesis base_pos : 0 < 1 + i.
Hypothesis growth_pos : 0 < 1 + g.

Lemma mul_PInf_pos x : 0 < x -> (PInf * Fin x)%js = PInf.
Proof.
  intros Hx. cbn [mul]. unfold scale_inf.
  rewrite Reqb_false by lra. now rewrite Rltb_true.
Qed.

(** An infinite contribution makes the running future value infinite. *)
Lemma months_fold_inf M ms : forall acc,
  acc = PInf \/ (exists x, acc = Fin x) ->
  ms <> [] ->
  fold_left
    (fun futureValue month =>
       (futureValue + PInf * Math_pow (Fin 1 + Fin i) (Fin M - Fin (INR month)))%js)
    ms acc
  = PInf.
Proof.
  induction ms as [| m ms IH]; intros acc Hacc Hne; [congruence |].
  cbn [fold_left].
  rewrite (add_fin 1 i), sub_fin, Math_pow_pos, mul_PInf_pos
    by (exact base_pos || apply Rpower_pos).
  assert (E : (acc + PInf)%js = PInf) by (destruct Hacc as [-> | [x ->]]; reflexivity).
  rewrite E. destruct ms as [| m' ms']; [reflexivity |].
  apply IH; [left; reflexivity | discriminate].
Qed.

Lemma fv_years_loop_inf fuel : forall year,
  fv_years_loop fuel (Fin years) (Fin i) (Fin g) (Fin year) PInf PInf = None
  \/ fv_years_loop fuel (Fin years) (Fin i) (Fin g) (Fin year) PInf PInf = Some PInf.
Proof.
  induction fuel as [| fuel IH]; intros year; cbn [fv_years_loop];
    rewrite lt_fin; destruct (Rltb year years); auto.
  rewrite sub_fin, mul_fin, !add_fin, mul_PInf_pos by exact growth_pos.
  unfold months_loop. rewrite months_fold_inf by (auto || discriminate).
  apply IH.
Qed.

Lemma fv_years_loop_inf_start fuel :
  0 < years ->
  fv_years_loop fuel (Fin years) (Fin i) (Fin g) (Fin 0) (Fin 0) PInf = None
  \/ fv_years_loop fuel (Fin years) (Fin i) (Fin g) (Fin 0) (Fin 0) PInf = Some PInf.
Proof.
  intros Hy. destruct fuel as [| fuel]; cbn [fv_years_loop];
    rewrite lt_fin, Rltb_true by assumption; auto.
  rewrite sub_fin, mul_fin, !add_fin, mul_PInf_pos by exact growth_pos.
  unfold months_loop. rewrite months_fold_inf by (eauto || discriminate).
  apply fv_years_loop_inf.
Qed.

End InfiniteContribution.

(** The oracle at an infinite contribution is infinite (or out of fuel). *)
Lemma calculateStepUpFutureValue_inf fuel years a s :
  0 < years -> -1200 < a -> -100 < s ->
  calculateStepUpFutureValue fuel PInf (Fin years) (Fin a) (Fin s) = None
  \/ calculateStepUpFutureValue fuel PInf (Fin years) (Fin a) (Fin s) = Some PInf.
Proof.
  intros Hy Ha Hs. unfold calculateStepUpFutureValue.
  rewrite !div_fin by lra. apply fv_years_loop_inf_start; lra.
Qed.

(** With an infinite target the upper bound never moves: the state
    [(0, Infinity, _)] passes the loop condition and is mapped to itself. *)
Lemma search_loop_stuck ofuel years a s fuel : forall mid,
  0 < years -> -1200 < a -> -100 < s ->
  search_loop ofuel fuel PInf (Fin years) (Fin a) (Fin s) (mkSearch (Fin 0) PInf mid)
  = None.
Proof.
  induction fuel as [| fuel IH]; intros mid Hy Ha Hs; [reflexivity |].
  cbn [search_loop]. change (search_guard (mkSearch (Fin 0) PInf mid)) with true.
  cbv iota. unfold search_body. cbn [low high].
  change ((Fin 0 + PInf) / Fin 2)%js with (PInf / Fin 2)%js.
  assert (E : (PInf / Fin 2)%js = PInf) by (cbn [div]; now rewrite Rltb_false by lra).
  rewrite E.
  destruct (calculateStepUpFutureValue_inf ofuel years a s Hy Ha Hs) as [-> | ->];
    [reflexivity |].
  change (PInf <? PInf)%js with false. cbv iota. now apply IH.
Qed.

(** The oracle never returns on an infinite horizon. *)
Lemma fv_years_loop_inf_years i s fuel : forall year acc c,
  fv_years_loop fuel PInf i s (Fin year) acc c = None.
Proof.
  induction fuel as [| fuel IH]; intros year acc c; [reflexivity |].
  cbn [fv_years_loop lt]. rewrite add_fin. apply IH.
Qed.

(** C8, at the failing inputs: [calculateStepUpSIP] does not terminate on an
    infinite target (10 years at 12% with a 10% step-up), and not on an
    infinite horizon either: whatever the fuel, the loop has not exited. *)
Theorem step_up_solver_diverges :
  diverges (fun fuel => calculateStepUpSIP fuel PInf (Fin 10) (Fin 12) (Fin 10))
  /\ diverges (fun fuel =>
                 calculateStepUpSIP fuel (Fin 1000000) PInf (Fin 12) (Fin 10)).
Proof.
  split; intros fuel; unfold calculateStepUpSIP, search_init.
  - assert (E : (PInf / Fin 12)%js = PInf) by (cbn [div]; now rewrite Rltb_false by lra).
    rewrite E, search_loop_stuck by lra. reflexivity.
  - rewrite div_fin by lra.
    destruct fuel as [| fuel]; cbn [search_loop]; rewrite search_guard_fin, Rltb_true by lra;
      [reflexivity |].
    unfold search_body, calculateStepUpFutureValue. cbn [low high].
    rewrite fv_years_loop_inf_years. reflexivity.
Qed.

(** On a [NaN] or negative-infinite target the loop condition fails at once
    and the initial value [0] is returned. *)
Lemma calculateStepUpSIP_NaN_target fuel years a s :
  calculateStepUpSIP fuel NaN years a s = Some (Fin 0)
  /\ calculateStepUpSIP fuel NInf years a s = Some (Fin 0).
Proof.
  unfold calculateStepUpSIP, search_init.
  assert (E : (NInf / Fin 12)%js = NInf) by (cbn [div]; now rewrite Rltb_false by lra).
  rewrite E.
  split; destruct fuel; cbn; now rewrite (Zfloor_eq 0) by lra.
Qed.

(** ** The aggregator *)

Lemma Math_max_floor x :
  (x = NaN /\ Math_max x (Fin 0) = NaN)
  \/ (x <> NaN /\ ge (Math_max x (Fin 0)) (Fin 0) = true).
Proof.
  destruct x as [r | | |].
  - right. split; [discriminate |]. cbn [Math_max lt].
    destruct (Rlt_le_dec r 0) as [Hlt | Hge].
    + rewrite Rltb_true by assumption. cbn [ge]. now rewrite Rltb_false by lra.
    + rewrite Rltb_false by assumption. cbn [ge]. now rewrite Rltb_false by lra.
  - right. split; [discriminate | reflexivity].
  - right. split; [discriminate |]. cbn [Math_max lt ge].
    now rewrite Rltb_false by lra.
  - left. split; reflexivity.
Qed.

Lemma returns_bind {A B : Type} (c : nat -> option A) (k : nat -> A -> option B) v w :
  returns c v -> returns (fun fuel => k fuel v) w ->
  returns (fun fuel => match c fuel with Some x => k fuel x | None => None end) w.
Proof.
  intros [f1 H1] [f2 H2]. exists (Nat.max f1 f2). intros fuel Hfuel.
  rewrite H1 by lia. apply H2. lia.
Qed.

Lemma returns_const {A : Type} (v : A) : returns (fun _ => Some v) v.
Proof. exists O. reflexivity. Qed.

Lemma calculateMonthlySIP_total T y e s :
  0 < y -> 0 < e -> 0 <= s ->
  exists sip,
    returns (fun fuel => calculateMonthlySIP fuel (Fin T) (Fin y) (Fin e) (Fin s))
      (Fin sip).
Proof.
  intros Hy He Hs.
  destruct (Req_dec_T T 0) as [-> | HT].
  - exists 0, O. intros fuel _. unfold calculateMonthlySIP. cbn [strict_eq].
    now rewrite Reqb_true.
  - destruct (Req_dec_T s 0) as [-> | Hs0].
    + exists (level_sip_real T y e), O. intros fuel _.
      apply calculateMonthlySIP_level_fin; lra.
    + destruct (calculateStepUpSIP_total T y (Fin e) (Fin s)) as [r [f0 Hr]].
      assert (Hi : e / 12 / 100 <> 0).
      { intros H. field_simplify in H. lra. }
      exists r, f0. intros fuel Hfuel. unfold calculateMonthlySIP.
      rewrite mul_fin, !div_fin by lra. cbn [strict_eq truthy].
      rewrite (Reqb_false T 0), (Reqb_false (y * 12) 0),
        (Reqb_false (e / 12 / 100) 0), (Reqb_false s 0) by (assumption || lra).
      now apply Hr.
Qed.

Lemma calculateTotalInvestment_total m y s :
  exists inv,
    returns (fun fuel => calculateTotalInvestment fuel (Fin m) (Fin y) (Fin s))
      (Fin inv).
Proof.
  destruct (Req_dec_T s 0) as [-> | Hs0].
  - eexists. exists O. intros fuel _. apply calculateTotalInvestment_flat.
  - eexists. exists (year_count y). intros fuel Hfuel.
    now apply calculateTotalInvestment_step_up.
Qed.

Lemma stepUpRate_or_0_valid goal :
  valid_goal goal -> exists s, stepUpRate_or_0 goal = Fin s /\ 0 <= s.
Proof.
  intros (p & r & y & e & _ & _ & _ & _ & _ & _ & _ & _ & Hs).
  unfold stepUpRate_or_0.
  destruct Hs as [-> | (s & -> & Hs)]; [exists 0; split; [reflexivity | lra] |].
  destruct (truthy (Fin s)); [exists s; auto | exists 0; split; [reflexivity | lra]].
Qed.

Lemma summary_step_valid goal a b c :
  valid_goal goal ->
  exists a' b' c',
    returns (fun fuel => summary_step fuel (mkTotals (Fin a) (Fin b) (Fin c)) goal)
      (mkTotals (Fin a') (Fin b') (Fin c')).
Proof.
  intros Hv. destruct (stepUpRate_or_0_valid goal Hv) as (s & Es & Hs).
  destruct Hv as (p & r & y & e & Ep & Er & Ey & Ee & Hp & Hr & Hy & He & _).
  unfold summary_step. rewrite Ep, Er, Ey, Ee, Es.
  rewrite calculateInflationAdjustedAmount_fin by lra.
  set (T := IZR (Zfloor (p * Rpower (1 + r / 100) y + / 2))).
  destruct (calculateMonthlySIP_total T y e s Hy He Hs) as [sip Hsip].
  destruct (calculateTotalInvestment_total sip y s) as [inv Hinv].
  exists (a + sip), (b + T), (c + inv).
  apply (returns_bind _
           (fun fuel sip0 =>
              match calculateTotalInvestment fuel sip0 (Fin y) (Fin s) with
              | Some invested =>
                  Some (mkTotals (Fin a + sip0) (Fin b + Fin T) (Fin c + invested))%js
              | None => None
              end) (Fin sip)); [exact Hsip |].
  apply (returns_bind _
           (fun fuel invested =>
              Some (mkTotals (Fin a + Fin sip) (Fin b + Fin T) (Fin c + invested))%js)
           (Fin inv)); [exact Hinv |].
  apply returns_const.
Qed.

Lemma summary_forEach_valid goals : forall a b c,
  Forall valid_goal goals ->
  exists a' b' c',
    returns (fun fuel => summary_forEach fuel goals (mkTotals (Fin a) (Fin b) (Fin c)))
      (mkTotals (Fin a') (Fin b') (Fin c')).
Proof.
  induction goals as [| goal rest IH]; intros a b c Hall.
  - exists a, b, c. apply returns_const.
  - inversion Hall as [| ? ? Hgoal Hrest]; subst.
    destruct (summary_step_valid goal a b c Hgoal) as (a1 & b1 & c1 & Hstep).
    destruct (IH a1 b1 c1 Hrest) as (a' & b' & c' & Hfold).
    exists a', b', c'. cbn [summary_forEach].
    apply (returns_bind _ (fun fuel acc => summary_forEach fuel rest acc)
             (mkTotals (Fin a1) (Fin b1) (Fin c1))); assumption.
Qed.

Lemma calculateSummary_empty fuel : calculateSummary fuel [] = Some zero_summary.
Proof.
  unfold calculateSummary, zero_summary, calculateWealthGain.
  cbn [summary_forEach tSIP tFutureValue tInvested Math_max lt sub neg add].
  rewrite !Rltb_false by lra. f_equal. f_equal. f_equal. lra.
Qed.



Lemma nan_goal_summary fuel :
  calculateSummary fuel [nan_goal] = Some (mkSummary NaN NaN NaN NaN).
Proof.
  assert (Hpow : Math_pow (Fin (1 + -200 / 100)) (Fin (1 / 2)) = NaN).
  { unfold Math_pow, is_integer. rewrite (Zfloor_eq 0) by lra.
    rewrite (Reqb_false (1 / 2) 0), (Reqb_false (1 + -200 / 100) 0),
      (Rltb_false 0 (1 + -200 / 100)), (Reqb_false 0 (1 / 2)) by lra.
    reflexivity. }
  assert (Htarget : calculateInflationAdjustedAmount
                      (Fin 100) (Fin (-200)) (Fin (1 / 2)) = NaN).
  { unfold calculateInflationAdjustedAmount.
    rewrite !strict_eq_false by (intros H; injection H as H; lra). cbn [orb].
    rewrite div_fin, add_fin, Hpow by lra. reflexivity. }
  unfold calculateSummary, nan_goal.
  cbn [summary_forEach]. unfold summary_step.
  cbn [currentPrice inflationRate years expectedReturn].
  rewrite Htarget. unfold stepUpRate_or_0. cbn [stepUpRate truthy].
  rewrite (Reqb_true 0 0) by reflexivity. cbn [negb].
  rewrite calculateMonthlySIP_level.
  - unfold calculateTotalInvestment. cbn [truthy strict_eq].
    rewrite (Reqb_true 0 0) by reflexivity. reflexivity.
  - discriminate.
  - rewrite mul_fin. intros H; injection H as H; lra.
  - rewrite !div_fin by lra. intros H; injection H as H; lra.
Qed.


(** * Further properties of the planner *)

(** ** Termination of the solver away from the infinite inputs *)


(** ** The oracle in closed form *)



Lemma month_factor_whole b r :
  0 < b ->
  month_factor b (12 + INR (12 * r)) = (b ^ 12) ^ r * month_factor b 12.
Proof.
  intros Hb. rewrite month_factor_shift, Rpower_pow, pow_mult by assumption.
  reflexivity.
Qed.

(** On whole years the factor is a geometric sum in the yearly growth of
    the money, [b^12], and of the contribution, [g]. *)
Lemma fv_sum_whole b g n : 1 < b -> g <> b ^ 12 -> forall r k,
  (k + r = n)%nat ->
  fv_sum b g (INR n) r k
  = month_factor b 12 * (((b ^ 12) ^ r - g ^ r) / (b ^ 12 - g)).
Proof.
  intros Hb Hg. induction r as [| r IH]; intros k Hk.
  - cbn [fv_sum]. rewrite !pow_O. unfold Rdiv. ring.
  - cbn [fv_sum]. rewrite IH by lia.
    replace ((INR n - INR k) * 12) with (12 + INR (12 * r)).
    2:{ subst n. rewrite plus_INR, mult_INR, (S_INR r).
        replace (INR 12) with 12 by (simpl; lra). lra. }
    rewrite month_factor_whole by lra.
    set (B := b ^ 12) in *. set (M := month_factor b 12).
    rewrite <- !tech_pow_Rmult. field. lra.
Qed.



(** ** The total invested on whole years *)

Lemma Rsum_geometric g n :
  g <> 1 -> Rsum (map (fun y => g ^ y) (seq 0 n)) = (g ^ n - 1) / (g - 1).
Proof.
  intros Hg. induction n as [| n IH].
  - cbn [seq map Rsum fold_right pow]. field. lra.
  - rewrite Rsum_seq_S.
    replace (Rsum (map (fun y => g ^ S y) (seq 0 n)))
      with (g * Rsum (map (fun y => g ^ y) (seq 0 n)))
      by (rewrite <- Rsum_map_scal; apply Rsum_map_ext; intros; reflexivity).
    rewrite IH. rewrite <- !tech_pow_Rmult, pow_O. field. lra.
Qed.

Lemma Rsum_pow_gt g n :
  1 < g -> (2 <= n)%nat -> INR n < Rsum (map (fun y => g ^ y) (seq 0 n)).
Proof.
  intros Hg Hn. destruct n as [| n]; [lia |].
  rewrite Rsum_seq_S, S_INR, pow_O.
  replace (Rsum (map (fun y => g ^ S y) (seq 0 n)))
    with (g * Rsum (map (fun y => g ^ y) (seq 0 n)))
    by (rewrite <- Rsum_map_scal; apply Rsum_map_ext; intros; reflexivity).
  pose proof (Rsum_pow_ge g n ltac:(lra)) as Hge.
  assert (1 <= INR n) by (replace 1 with (INR 1) by reflexivity; apply le_INR; lia).
  nra.
Qed.



(** ** Step-up against the level SIP *)



(** ** What the summary adds up *)

Lemma summary_forEach_rows fuel goals : forall acc t,
  summary_forEach fuel goals acc = Some t ->
  exists rows,
    Forall2 (goal_row fuel) goals rows
    /\ tSIP t = fold_left add (map fst rows) (tSIP acc)
    /\ tFutureValue t = fold_left add (map inflated_target goals) (tFutureValue acc)
    /\ tInvested t = fold_left add (map snd rows) (tInvested acc).
Proof.
  induction goals as [| goal rest IH]; intros acc t H; cbn [summary_forEach] in H.
  - injection H as <-. exists []. repeat split. constructor.
  - unfold summary_step in H. fold (inflated_target goal) in H.
    destruct (calculateMonthlySIP fuel _ _ _ _) as [sip |] eqn:Esip; [| discriminate].
    destruct (calculateTotalInvestment fuel sip _ _) as [inv |] eqn:Einv;
      [| discriminate].
    destruct (IH _ _ H) as (rows & Hrows & H1 & H2 & H3).
    exists ((sip, inv) :: rows). split.
    + constructor; [split; assumption | assumption].
    + cbn [map fold_left fst snd]. auto.
Qed.

(** X6: what the summary adds up.  Whenever [calculateSummary] returns, each
    goal has its row -- the contribution [calculateMonthlySIP] returns for its
    inflated target and the total [calculateTotalInvestment] returns for that
    contribution -- and, added in the order of the goals from [0]:
    [totalSIP] is the sum of the contributions, [totalFutureValue] the sum of
    the inflated targets, [totalInvested] the sum of the totals floored at
    [0], and [totalWealthGained] the difference of the last two sums floored
    at [0]. *)
Theorem summary_totals_are_sums fuel goals sm :
  calculateSummary fuel goals = Some sm ->
  exists rows,
    Forall2 (goal_row fuel) goals rows
    /\ totalSIP sm = sum_num (map fst rows)
    /\ totalFutureValue sm = sum_num (map inflated_target goals)
    /\ totalInvested sm = Math_max (sum_num (map snd rows)) (Fin 0)
    /\ totalWealthGained sm
       = Math_max (sum_num (map inflated_target goals) - sum_num (map snd rows))%js
           (Fin 0).
Proof.
  intros H. unfold calculateSummary in H.
  destruct (summary_forEach fuel goals _) as [t |] eqn:E; [| discriminate].
  injection H as <-.
  destruct (summary_forEach_rows _ _ _ _ E) as (rows & Hrows & H1 & H2 & H3).
  exists rows. cbn [tSIP tFutureValue tInvested] in H1, H2, H3.
  cbn [totalSIP totalFutureValue totalInvested totalWealthGained].
  unfold calculateWealthGain, sum_num. rewrite H1, H2, H3. auto.
Qed.

Lemma summary_totals_are_sums_witness :
  exists rows,
    Forall2 (goal_row 0) [nan_goal] rows
    /\ NaN = sum_num (map fst rows)
    /\ NaN = sum_num (map inflated_target [nan_goal])
    /\ NaN = Math_max (sum_num (map snd rows)) (Fin 0)
    /\ NaN
       = Math_max (sum_num (map inflated_target [nan_goal])
                   - sum_num (map snd rows))%js (Fin 0).
Proof.
  exact (summary_totals_are_sums 0 [nan_goal] (mkSummary NaN NaN NaN NaN)
           (nan_goal_summary 0)).
Defined.

(** ** The calculator before and after step-up *)

Lemma legacy_totals goals : forall acc fuel,
  Forall (fun goal => stepUpRate_or_0 goal = Fin 0) goals ->
  summary_forEach fuel goals acc
  = Some (fold_left
            (fun acc goal =>
               let inflationAdjustedAmount :=
                 calculateInflationAdjustedAmount
                   (currentPrice goal) (inflationRate goal) (years goal) in
               let sip :=
                 LegacyCalculator.calculateMonthlySIP inflationAdjustedAmount
                   (years goal) (expectedReturn goal) in
               mkTotals (tSIP acc + sip)
                 (tFutureValue acc + inflationAdjustedAmount)
                 (tInvested acc
                  + LegacyCalculator.calculateTotalInvestment sip (years goal)))%js
            goals acc).
Proof.
  induction goals as [| goal rest IH]; intros acc fuel Hall; [reflexivity |].
  inversion Hall as [| ? ? Hgoal Hrest]; subst.
  cbn [summary_forEach fold_left]. unfold summary_step. rewrite Hgoal.
  assert (Hsip : forall T y a,
             calculateMonthlySIP fuel T y a (Fin 0)
             = Some (LegacyCalculator.calculateMonthlySIP T y a)).
  { intros T y a. unfold calculateMonthlySIP, LegacyCalculator.calculateMonthlySIP.
    cbn [truthy strict_eq]. rewrite (Reqb_true 0 0) by reflexivity. cbn [negb orb].
    destruct (_ || _ || _); reflexivity. }
  rewrite Hsip. unfold calculateTotalInvestment. cbn [truthy strict_eq].
  rewrite (Reqb_true 0 0) by reflexivity. cbn [negb orb].
  now apply IH.
Qed.

(** X7: step-up support left the level calculator as it was.  For goals
    whose [stepUpRate] is absent, [0] or [NaN], the calculator with step-up
    returns, with any fuel (it enters no loop), the summary the earlier
    [calculateSummary] computes; and [calculateMonthlySIP] and
    [calculateTotalInvestment] called with [stepUpRate = 0] are the earlier
    three- and two-argument functions, for all numbers. *)
Theorem step_up_calculator_extends_legacy fuel goals :
  Forall (fun goal => stepUpRate_or_0 goal = Fin 0) goals ->
  calculateSummary fuel goals = Some (LegacyCalculator.calculateSummary goals)
  /\ (forall T y a,
        calculateMonthlySIP fuel T y a (Fin 0)
        = Some (LegacyCalculator.calculateMonthlySIP T y a))
  /\ (forall m y,
        calculateTotalInvestment fuel m y (Fin 0)
        = Some (LegacyCalculator.calculateTotalInvestment m y)).
Proof.
  intros Hall. split; [| split].
  - unfold calculateSummary, LegacyCalculator.calculateSummary.
    rewrite legacy_totals by assumption. reflexivity.
  - intros T y a. unfold calculateMonthlySIP, LegacyCalculator.calculateMonthlySIP.
    cbn [truthy strict_eq]. rewrite (Reqb_true 0 0) by reflexivity. cbn [negb orb].
    destruct (_ || _ || _); reflexivity.
  - intros m y. unfold calculateTotalInvestment. cbn [truthy strict_eq].
    rewrite (Reqb_true 0 0) by reflexivity. reflexivity.
Qed.

Lemma step_up_calculator_extends_legacy_witness :
  calculateSummary 0 [mkGoal (Fin 100000) (Fin 6) (Fin 10) (Fin 12) None;
                      mkGoal (Fin 5000) (Fin 7) PInf (Fin 12) (Some NaN)]
  = Some (LegacyCalculator.calculateSummary
            [mkGoal (Fin 100000) (Fin 6) (Fin 10) (Fin 12) None;
             mkGoal (Fin 5000) (Fin 7) PInf (Fin 12) (Some NaN)]).
Proof.
  apply step_up_calculator_extends_legacy.
  repeat constructor.
Defined.

(** ** The inflation projector on goals the forms accept *)

Lemma Rpower_base_1 y : Rpower 1 y = 1.
Proof. unfold Rpower. rewrite ln_1, Rmult_0_r. apply exp_0. Qed.

Lemma Rpower_ge_1 b y : 1 <= b -> 0 <= y -> 1 <= Rpower b y.
Proof.
  intros Hb Hy. rewrite <- (Rpower_O b) by lra. apply Rle_Rpower; assumption.
Qed.



(** * The CSV files of the exporter and the importer *)

Section CsvLine.

Import Exporter Importer.

Lemma parseCSVLine_loop_plain cell : forall rest values current,
  includes cell comma = false -> includes cell quote = false ->
  parseCSVLine_loop (cell ++ rest) values current false
  = parseCSVLine_loop rest values (current ++ cell) false.
Proof.
  induction cell as [| c cell IH]; intros rest values current Hc Hq.
  - now rewrite app_nil_r.
  - unfold includes in Hc, Hq. cbn [existsb] in Hc, Hq.
    apply orb_false_iff in Hc as [Hc Hc'], Hq as [Hq Hq'].
    rewrite N.eqb_sym in Hc, Hq.
    cbn [app parseCSVLine_loop]. rewrite Hq, Hc. cbn [andb].
    rewrite IH by assumption. now rewrite <- app_assoc.
Qed.

Lemma parseCSVLine_loop_open rest values current :
  parseCSVLine_loop (quote :: rest) values current false
  = parseCSVLine_loop rest values current true.
Proof. cbn [parseCSVLine_loop]. rewrite N.eqb_refl. now destruct rest. Qed.

(** Inside quotes, up to the closing quote. *)
Lemma parseCSVLine_loop_quoted cell : forall rest values current,
  hd_error rest <> Some quote ->
  parseCSVLine_loop (double_quotes cell ++ quote :: rest) values current true
  = parseCSVLine_loop rest values (current ++ cell) false.
Proof.
  induction cell as [| c cell IH]; intros rest values current Hrest.
  - cbn [double_quotes flat_map app parseCSVLine_loop]. rewrite N.eqb_refl.
    rewrite app_nil_r. destruct rest as [| c rest]; [reflexivity |].
    destruct (N.eqb_spec c quote) as [-> | _]; [now elim Hrest | reflexivity].
  - unfold double_quotes. cbn [flat_map]. fold (double_quotes cell).
    destruct (N.eqb_spec c quote) as [-> | Hc].
    + cbn [app parseCSVLine_loop]. rewrite N.eqb_refl. cbn [andb].
      rewrite IH by assumption. now rewrite <- app_assoc.
    + cbn [app parseCSVLine_loop].
      destruct (N.eqb_spec c quote) as [| _]; [contradiction |].
      rewrite andb_false_r, IH by assumption. now rewrite <- app_assoc.
Qed.

(** One escaped cell, followed by the end of the line or by a comma. *)
Lemma parseCSVLine_loop_cell cell rest values current :
  hd_error rest <> Some quote ->
  parseCSVLine_loop (escapeCSV cell ++ rest) values current false
  = parseCSVLine_loop rest values (current ++ cell) false.
Proof.
  intros Hrest. unfold escapeCSV.
  destruct (includes cell comma) eqn:Hc; cbn [orb].
  - rewrite <- !app_assoc. cbn [app].
    rewrite parseCSVLine_loop_open. now apply parseCSVLine_loop_quoted.
  - destruct (includes cell quote) eqn:Hq; cbn [orb].
    + rewrite <- !app_assoc. cbn [app].
      rewrite parseCSVLine_loop_open. now apply parseCSVLine_loop_quoted.
    + destruct (includes cell newline).
      * rewrite <- !app_assoc. cbn [app].
        rewrite parseCSVLine_loop_open. now apply parseCSVLine_loop_quoted.
      * now apply parseCSVLine_loop_plain.
Qed.

Lemma parseCSVLine_loop_comma rest values current :
  parseCSVLine_loop (comma :: rest) values current false
  = parseCSVLine_loop rest (values ++ [trim current]) [] false.
Proof. reflexivity. Qed.

Lemma parseCSVLine_loop_join cells : forall cell values,
  parseCSVLine_loop (join [comma] (map escapeCSV (cell :: cells))) values [] false
  = values ++ map trim (cell :: cells).
Proof.
  induction cells as [| cell' cells IH]; intros cell values.
  - cbn [map join]. rewrite <- (app_nil_r (escapeCSV cell)).
    rewrite parseCSVLine_loop_cell by discriminate. reflexivity.
  - change (join [comma] (map escapeCSV (cell :: cell' :: cells)))
      with (escapeCSV cell
            ++ comma :: join [comma] (map escapeCSV (cell' :: cells))).
    rewrite parseCSVLine_loop_cell by discriminate.
    rewrite parseCSVLine_loop_comma, IH, <- app_assoc. reflexivity.
Qed.

End CsvLine.

(** X9: a line of escaped cells parses back to the cells.  For every
    non-empty list of strings -- commas, double quotes and line feeds
    included -- [parseCSVLine] applied to the cells passed through
    [escapeCSV] and joined with commas returns the cells, each one trimmed:
    quoting loses nothing but the white space around a cell. *)
Theorem csv_line_round_trip (cells : list jsstring) :
  cells <> [] ->
  Importer.parseCSVLine (join [comma] (map Exporter.escapeCSV cells))
  = map trim cells.
Proof.
  intros Hcells. destruct cells as [| cell cells]; [contradiction |].
  unfold Importer.parseCSVLine. now rewrite parseCSVLine_loop_join.
Qed.

(** ** Trimming *)

Section Trim.

Lemma trimStart_clean s : clean_start (trimStart s).
Proof.
  induction s as [| c s IH]; [exact I |].
  cbn [trimStart]. destruct (is_white_space c) eqn:E; [exact IH | exact E].
Qed.

Lemma trimStart_id s : clean_start s -> trimStart s = s.
Proof. destruct s as [| c s]; [reflexivity |]. cbn. now intros ->. Qed.

Lemma trimStart_suffix s : exists w, s = w ++ trimStart s.
Proof.
  induction s as [| c s [w IH]]; [now exists [] |].
  cbn [trimStart]. destruct (is_white_space c).
  - exists (c :: w). cbn. now rewrite <- IH.
  - now exists [].
Qed.

Lemma trimEnd_prefix s : exists w, s = trimEnd s ++ w.
Proof.
  destruct (trimStart_suffix (rev s)) as [w Hw]. exists (rev w).
  unfold trimEnd. rewrite <- rev_app_distr, <- Hw. now rewrite rev_involutive.
Qed.

Lemma trimEnd_clean s : clean_start s -> clean_start (trimEnd s).
Proof.
  intros Hs. destruct (trimEnd_prefix s) as [w Hw].
  destruct (trimEnd s) as [| c t]; [exact I |].
  rewrite Hw in Hs. exact Hs.
Qed.

Lemma trimEnd_idempotent s : trimEnd (trimEnd s) = trimEnd s.
Proof.
  unfold trimEnd. rewrite rev_involutive.
  now rewrite (trimStart_id _ (trimStart_clean _)).
Qed.

Lemma trim_idempotent s : trim (trim s) = trim s.
Proof.
  unfold trim.
  rewrite (trimStart_id (trimEnd (trimStart s)))
    by apply trimEnd_clean, trimStart_clean.
  apply trimEnd_idempotent.
Qed.

Lemma trim_nil : trim [] = [].
Proof. reflexivity. Qed.

End Trim.

(** ** What the importer lets through *)

Section Validation.

Import JSOrder.

Lemma is_empty_false s : Importer.is_empty s = false <-> s <> [].
Proof. destruct s; cbn; split; congruence. Qed.

Lemma blank_check s :
  Importer.is_empty s || Importer.is_empty (trim s) = false <-> trim s <> [].
Proof.
  rewrite orb_false_iff, !is_empty_false. split; [tauto |].
  intros H. split; [| exact H]. intros ->. now apply H.
Qed.

Lemma positive_check x :
  isNaN x || (x <=? Fin 0)%js = false <-> gt x (Fin 0) = true.
Proof.
  destruct x as [r | | |]; cbn; try (split; congruence).
  unfold Rltb. destruct (Rlt_dec 0 r); cbn; split; congruence.
Qed.

Lemma non_negative_check x :
  isNaN x || (x <? Fin 0)%js = false <-> ge x (Fin 0) = true.
Proof.
  destruct x as [r | | |]; cbn; try (split; congruence).
  unfold Rltb. destruct (Rlt_dec r 0); cbn; split; congruence.
Qed.

Lemma validateGoal_accepts goal lineNumber :
  Importer.validateGoal goal lineNumber = None <-> Importer.accepted goal.
Proof.
  unfold Importer.validateGoal, Importer.accepted.
  rewrite <- blank_check, <- !positive_check, <- non_negative_check.
  destruct (_ || _); [split; [discriminate | intros [H _]; discriminate] |].
  destruct (_ || _); [split; [discriminate | intros (_ & H & _); discriminate] |].
  destruct (_ || _);
    [split; [discriminate | intros (_ & _ & H & _); discriminate] |].
  destruct (_ || _);
    [split; [discriminate | intros (_ & _ & _ & H & _); discriminate] |].
  destruct (_ || _);
    [split; [discriminate | intros (_ & _ & _ & _ & H); discriminate] |].
  tauto.
Qed.

Lemma gt_0_fin r : gt (Fin r) (Fin 0) = true -> 0 < r.
Proof. cbn. unfold Rltb. destruct (Rlt_dec 0 r); [auto | discriminate]. Qed.

Lemma ge_0_fin r : ge (Fin r) (Fin 0) = true -> 0 <= r.
Proof. cbn. unfold Rltb. destruct (Rlt_dec r 0); [discriminate | lra]. Qed.

Lemma accepted_valid goal :
  Importer.accepted goal -> Importer.finite_goal goal ->
  valid_goal (Importer.calculator_goal goal).
Proof.
  intros (_ & Hp & Hr & Hy & He) (p & r & y & e & Ep & Er & Ey & Ee).
  rewrite Ep in Hp. rewrite Er in Hr. rewrite Ey in Hy. rewrite Ee in He.
  exists p, r, y, e. cbn.
  repeat split; auto using gt_0_fin, ge_0_fin.
Qed.

End Validation.

(** The summary of level goals needs no fuel, and on valid goals its totals
    are finite. *)
Lemma level_goals_summary goals :
  Forall (fun goal => stepUpRate_or_0 goal = Fin 0) goals ->
  (forall fuel,
     calculateSummary fuel goals = Some (LegacyCalculator.calculateSummary goals))
  /\ (Forall valid_goal goals ->
      exists a b c d,
        LegacyCalculator.calculateSummary goals
        = mkSummary (Fin a) (Fin b) (Fin c) (Fin d)
        /\ 0 <= c /\ 0 <= d).
Proof.
  intros Hlevel.
  assert (Hall : forall fuel,
             calculateSummary fuel goals
             = Some (LegacyCalculator.calculateSummary goals)).
  { intros fuel. unfold calculateSummary, LegacyCalculator.calculateSummary.
    rewrite legacy_totals by assumption. reflexivity. }
  split; [exact Hall |]. intros Hvalid.
  destruct (summary_forEach_valid goals 0 0 0 Hvalid) as (a & b & c & [f0 Hf]).
  specialize (Hall f0). unfold calculateSummary in Hall.
  rewrite Hf in Hall by apply Nat.le_refl.
  assert (Hleg : forall x y : Summary, Some x = Some y -> y = x) by congruence.
  rewrite (Hleg _ _ Hall).
  cbn [tSIP tFutureValue tInvested]. unfold calculateWealthGain. rewrite sub_fin.
  destruct (Math_max_floor (Fin c)) as [[H _] | [Hc Hc']]; [discriminate |].
  destruct (Math_max_floor (Fin (b - c))) as [[H _] | [Hd Hd']]; [discriminate |].
  destruct (Math_max (Fin c) (Fin 0)) as [c' | | |] eqn:Ec;
    try (cbn in Ec; destruct (Rltb c 0); discriminate).
  destruct (Math_max (Fin (b - c)) (Fin 0)) as [d' | | |] eqn:Ed;
    try (cbn in Ed; destruct (Rltb (b - c) 0); discriminate).
  exists a, b, c', d'. split; [reflexivity |].
  split; now apply ge_0_fin.
Qed.

Lemma csv_line_round_trip_witness :
  Importer.parseCSVLine (join [comma] (map Exporter.escapeCSV Samples.awkward_cells))
  = map trim Samples.awkward_cells.
Proof. apply csv_line_round_trip. discriminate. Defined.

(** ** What [parseCSV] returns *)

Section ParseCSVFacts.

Variable parseFloat : jsstring -> num.
Variable Date_now : nat -> num.

Lemma parseCSVLine_loop_trimmed n : forall line values current inQuotes,
  (length line <= n)%nat ->
  Forall trimmed values ->
  Forall trimmed (Importer.parseCSVLine_loop line values current inQuotes).
Proof.
  assert (Hpush : forall values current,
             Forall trimmed values -> Forall trimmed (values ++ [trim current])).
  { intros values current H. apply Forall_app. split; [exact H |].
    constructor; [apply trim_idempotent | constructor]. }
  induction n as [| n IH]; intros line values current inQuotes Hlen Hvalues.
  - destruct line; [| cbn in Hlen; lia]. cbn. now apply Hpush.
  - destruct line as [| char rest]; [cbn; now apply Hpush |].
    cbn [length] in Hlen. cbn [Importer.parseCSVLine_loop].
    destruct (char =? quote)%N.
    + destruct rest as [| nextChar rest'].
      * apply IH; [cbn; lia | assumption].
      * cbn [length] in Hlen.
        destruct (inQuotes && (nextChar =? quote)%N).
        -- apply IH; [lia | assumption].
        -- apply IH; [cbn; lia | assumption].
    + destruct ((char =? comma)%N && negb inQuotes).
      * apply IH; [lia | now apply Hpush].
      * apply IH; [lia | assumption].
Qed.

Lemma parseCSVLine_trimmed line k : trimmed (nth k (Importer.parseCSVLine line) []).
Proof.
  assert (H : Forall trimmed (Importer.parseCSVLine line)).
  { apply (parseCSVLine_loop_trimmed (length line)); [lia | constructor]. }
  destruct (Nat.lt_ge_cases k (length (Importer.parseCSVLine line))) as [Hk | Hk].
  - rewrite Forall_forall in H. apply H. now apply nth_In.
  - rewrite nth_overflow by assumption. reflexivity.
Qed.

Lemma parseCSV_loop_accepted dataLines : forall i goals result,
  Forall (fun goal => Importer.accepted goal /\ trimmed (Importer.name goal)) goals ->
  Importer.parseCSV_loop parseFloat Date_now dataLines i goals = Importer.Ok result ->
  Forall (fun goal => Importer.accepted goal /\ trimmed (Importer.name goal)) result
  /\ (length result <= length goals + length dataLines)%nat.
Proof.
  induction dataLines as [| dataLine rest IH]; intros i goals result Hgoals H.
  - cbn in H. injection H as <-. split; [assumption | lia].
  - cbn [Importer.parseCSV_loop] in H. cbn [length].
    destruct (Importer.is_empty (trim dataLine)).
    + destruct (IH _ _ _ Hgoals H) as [H1 H2]. split; [assumption | lia].
    + destruct (length _ <? 5)%nat; [discriminate |].
      match type of H with
      | match Importer.validateGoal ?g ?l with _ => _ end = _ =>
          destruct (Importer.validateGoal g l) eqn:Hvalid; [discriminate |];
          apply validateGoal_accepts in Hvalid;
          assert (Hgoals' :
                    Forall (fun goal => Importer.accepted goal
                                        /\ trimmed (Importer.name goal))
                      (goals ++ [g]))
      end.
      { apply Forall_app. split; [assumption |].
        constructor; [| constructor]. split; [assumption |].
        cbn [Importer.name]. apply parseCSVLine_trimmed. }
      destruct (IH _ _ _ Hgoals' H) as [H1 H2]. split; [assumption |].
      rewrite length_app in H2. cbn [length] in H2. lia.
Qed.

End ParseCSVFacts.


(** Evaluating a closed string expression. *)
Ltac evaluate t := let v := eval vm_compute in t in change t with v.

Lemma car_goal_accepted : Importer.accepted Samples.car_goal.
Proof.
  unfold Importer.accepted. cbn [Samples.car_goal Importer.name
    Importer.currentPrice Importer.inflationRate Importer.years
    Importer.expectedReturn gt lt ge].
  split; [vm_compute; discriminate |].
  repeat split; try (apply Rltb_true; lra).
  now rewrite Rltb_false by lra.
Qed.

Lemma car_file_parsed :
  Importer.parseCSV Samples.digits_value (fun _ => Fin 0) Samples.car_file
  = Importer.Ok [Samples.car_goal].
Proof.
  unfold Importer.parseCSV.
  evaluate (split (trim Samples.car_file) newline).
  cbn [length Nat.ltb Nat.leb skipn Importer.parseCSV_loop].
  match goal with |- context [Importer.is_empty ?l] => evaluate l end.
  cbn [Importer.is_empty].
  match goal with |- context [Importer.parseCSVLine ?l] =>
    evaluate (Importer.parseCSVLine l) end.
  cbn [length Nat.ltb Nat.leb nth].
  change (Samples.digits_value [49; 53; 48; 48; 48; 48; 48]%N) with (Fin 1500000).
  change (Samples.digits_value [53]%N) with (Fin 5).
  change (Samples.digits_value [49; 48]%N) with (Fin 10).
  change (Importer.mkGoal _ _ _ _ _ _) with Samples.car_goal.
  now rewrite (proj2 (validateGoal_accepts _ _) car_goal_accepted).
Qed.


(** ** The form and the importer *)

Section FormFacts.

Import JSOrder.

Variable parseFloat : jsstring -> num.

Lemma positive_or_NaN x : (x <=? Fin 0)%js = false -> gt x (Fin 0) = true \/ x = NaN.
Proof.
  destruct x as [r | | |]; cbn; auto; try discriminate.
  unfold Rltb. destruct (Rlt_dec 0 r); cbn; intros H; try discriminate; auto.
Qed.

Lemma non_negative_or_NaN x : (x <? Fin 0)%js = false -> ge x (Fin 0) = true \/ x = NaN.
Proof.
  destruct x as [r | | |]; cbn; auto; try discriminate.
  unfold Rltb. destruct (Rlt_dec r 0); cbn; intros H; try discriminate; auto.
Qed.

Lemma gt_le x : gt x (Fin 0) = true -> (x <=? Fin 0)%js = false.
Proof.
  destruct x as [r | | |]; cbn; auto. now intros ->.
Qed.

Lemma ge_lt x : ge x (Fin 0) = true -> (x <? Fin 0)%js = false.
Proof.
  destruct x as [r | | |]; cbn; auto. now destruct (Rltb r 0).
Qed.

(** [parseFloat(...) || 0] is never [NaN]. *)
Lemma or_0_lt parsed :
  ((if truthy parsed then parsed else Fin 0) <? Fin 0)%js = (parsed <? Fin 0)%js
  /\ ((parsed <? Fin 0)%js = false ->
      ge (if truthy parsed then parsed else Fin 0) (Fin 0) = true).
Proof.
  destruct parsed as [r | | |]; cbn; auto.
  - unfold Reqb. destruct (Req_dec_T r 0) as [-> | Hr]; cbn.
    + rewrite !Rltb_false by lra. auto.
    + split; [reflexivity |]. now intros ->.
  - rewrite Rltb_false by lra. auto.
Qed.

End FormFacts.

(** X11: the form checks what the importer checks, except for [NaN].  For
    every state of the form and every [parseFloat]: when [getFormValues]
    returns a goal, its name is the trimmed, non-empty input, its [stepUpRate]
    is neither [NaN] nor negative, and the importer's [validateGoal] accepts
    the same name and numbers unless one of the four numbers is [NaN]; when
    [validateGoal] accepts them and the parsed step-up is not negative, the
    form returns the goal; and a form whose name is not blank and whose four
    numbers all parse to [NaN] is let through. *)
Theorem form_checks_match_importer parseFloat form :
  (forall v,
     UIRenderer.getFormValues parseFloat form = Some v ->
     UIRenderer.fv_name v = trim (UIRenderer.goalName form)
     /\ UIRenderer.fv_name v <> []
     /\ ge (UIRenderer.fv_stepUpRate v) (Fin 0) = true
     /\ ((forall id lineNumber,
            Importer.validateGoal (UIRenderer.as_imported parseFloat form id)
              lineNumber = None)
         \/ In NaN (UIRenderer.parsed_numbers parseFloat form)))
  /\ (forall id lineNumber,
        Importer.validateGoal (UIRenderer.as_imported parseFloat form id) lineNumber
        = None ->
        lt (parseFloat (UIRenderer.stepUpRate form)) (Fin 0) = false ->
        exists v,
          UIRenderer.getFormValues parseFloat form = Some v
          /\ Importer.calculator_goal (UIRenderer.as_imported parseFloat form id)
             = mkGoal (UIRenderer.fv_currentPrice v) (UIRenderer.fv_inflationRate v)
                 (UIRenderer.fv_years v) (UIRenderer.fv_expectedReturn v) None)
  /\ (trim (UIRenderer.goalName form) <> [] ->
      Forall (fun x => x = NaN) (UIRenderer.parsed_numbers parseFloat form) ->
      lt (parseFloat (UIRenderer.stepUpRate form)) (Fin 0) = false ->
      UIRenderer.getFormValues parseFloat form <> None).
Proof.
  unfold UIRenderer.getFormValues, UIRenderer.parsed_numbers.
  destruct (or_0_lt (parseFloat (UIRenderer.stepUpRate form))) as [Hs Hs'].
  rewrite Hs. split; [| split].
  - intros v H.
    destruct (Importer.is_empty (trim (UIRenderer.goalName form))) eqn:Hname;
      [discriminate |].
    destruct (JSOrder.le (parseFloat (UIRenderer.currentPrice form)) (Fin 0))
      eqn:Hp; [discriminate |].
    destruct (lt (parseFloat (UIRenderer.inflationRate form)) (Fin 0)) eqn:Hr;
      [discriminate |].
    destruct (JSOrder.le (parseFloat (UIRenderer.timePeriod form)) (Fin 0)) eqn:Hy;
      [discriminate |].
    destruct (JSOrder.le (parseFloat (UIRenderer.expectedReturn form)) (Fin 0))
      eqn:He; [discriminate |].
    cbn [orb] in H.
    destruct (lt (parseFloat (UIRenderer.stepUpRate form)) (Fin 0)) eqn:Hstep;
      [discriminate |].
    injection H as <-. cbn [UIRenderer.fv_name UIRenderer.fv_stepUpRate].
    apply is_empty_false in Hname.
    split; [reflexivity |]. split; [assumption |]. split; [now apply Hs' |].
    destruct (positive_or_NaN _ Hp) as [Hp' | ->]; [| cbn; auto].
    destruct (non_negative_or_NaN _ Hr) as [Hr' | ->]; [| cbn; auto].
    destruct (positive_or_NaN _ Hy) as [Hy' | ->]; [| cbn; auto].
    destruct (positive_or_NaN _ He) as [He' | ->]; [| cbn; auto 6].
    left. intros id lineNumber. apply validateGoal_accepts.
    unfold Importer.accepted, UIRenderer.as_imported.
    cbn [Importer.name Importer.currentPrice Importer.inflationRate
           Importer.years Importer.expectedReturn].
    rewrite trim_idempotent. auto.
  - intros id lineNumber H Hstep. apply validateGoal_accepts in H.
    destruct H as (Hname & Hp & Hr & Hy & He).
    cbn [UIRenderer.as_imported Importer.name Importer.currentPrice
           Importer.inflationRate Importer.years Importer.expectedReturn]
      in Hname, Hp, Hr, Hy, He.
    rewrite trim_idempotent in Hname. apply is_empty_false in Hname.
    rewrite Hname, (gt_le _ Hp), (ge_lt _ Hr), (gt_le _ Hy), (gt_le _ He), Hstep.
    cbn [orb]. eexists. split; reflexivity.
  - intros Hname Hnan Hstep. apply is_empty_false in Hname.
    inversion Hnan as [| ? ? -> Hnan1]; subst.
    inversion Hnan1 as [| ? ? -> Hnan2]; subst.
    inversion Hnan2 as [| ? ? -> Hnan3]; subst.
    inversion Hnan3 as [| ? ? -> _]; subst.
    rewrite Hname, Hstep. discriminate.
Qed.

Lemma form_checks_match_importer_witness :
  UIRenderer.getFormValues Samples.digits_value Samples.empty_numbers_form <> None.
Proof.
  apply (proj2 (proj2 (form_checks_match_importer _ _)));
    [vm_compute; discriminate | repeat constructor | reflexivity].
Defined.

(** * The goal manager *)

Section ManagerFacts.

Import GoalManager.

Context {Store : Type} `{StorageService Store}.

Lemma saveToStorage_goals (this : manager Store) :
  goals (snd (saveToStorage this)) = goals this.
Proof.
  unfold saveToStorage. destruct (storageService this) as [store |]; [| reflexivity].
  now destruct (saveGoals (goals this) store).
Qed.

Lemma filter_length_le {A} (f : A -> bool) l : (length (filter f l) <= length l)%nat.
Proof.
  induction l as [| x l IH]; cbn; [lia |]. destruct (f x); cbn; lia.
Qed.

Lemma filter_length_lt {A} (f : A -> bool) l :
  (length (filter f l) < length l)%nat <-> exists x, In x l /\ f x = false.
Proof.
  induction l as [| x l IH]; cbn.
  - split; [lia | intros (x & [] & _)].
  - pose proof (filter_length_le f l) as Hle.
    destruct (f x) eqn:Ex; cbn.
    + rewrite <- Nat.succ_lt_mono, IH. split.
      * intros (y & Hy & Ey). eauto.
      * intros (y & [<- | Hy] & Ey); [congruence | eauto].
    + split; [eauto | lia].
Qed.

Lemma filter_length_eq {A} (f : A -> bool) l :
  length (filter f l) = length l -> filter f l = l.
Proof.
  induction l as [| x l IH]; cbn; [reflexivity |].
  pose proof (filter_length_le f l) as Hle.
  destruct (f x); cbn; intros Hlen; [f_equal; apply IH; lia | lia].
Qed.

Lemma filter_length_split {A} (f : A -> bool) l :
  (length (filter f l) + length (filter (fun x => negb (f x)) l) = length l)%nat.
Proof.
  induction l as [| x l IH]; cbn; [reflexivity |]. destruct (f x); cbn; lia.
Qed.

Lemma removeGoal_goals goalId (this : manager Store) :
  goals (snd (removeGoal goalId this))
  = filter (fun goal => negb (id goal === goalId)%js) (goals this).
Proof.
  unfold removeGoal. cbn [goals].
  destruct (_ <? _)%nat; cbn [snd]; [| reflexivity].
  now rewrite saveToStorage_goals.
Qed.

Lemma removeGoal_untouched goalId (this : manager Store) :
  fst (removeGoal goalId this) = false -> snd (removeGoal goalId this) = this.
Proof.
  unfold removeGoal. cbn [goals].
  destruct (_ <? _)%nat eqn:E; cbn [fst snd]; [discriminate |]. intros _.
  apply Nat.ltb_ge in E.
  pose proof (filter_length_le (fun goal => negb (id goal === goalId)%js)
                (goals this)) as Hle.
  rewrite filter_length_eq by lia. now destruct this.
Qed.

Lemma removeGoal_flag goalId (this : manager Store) :
  fst (removeGoal goalId this) = true
  <-> exists goal, In goal (goals this) /\ (id goal === goalId)%js = true.
Proof.
  unfold removeGoal. cbn [goals].
  destruct (_ <? _)%nat eqn:E; cbn [fst].
  - apply Nat.ltb_lt, filter_length_lt in E. destruct E as (goal & Hin & Hid).
    apply negb_false_iff in Hid. split; eauto.
  - split; [discriminate |]. intros (goal & Hin & Hid).
    apply Nat.ltb_ge in E. exfalso.
    assert (Hlt : (length (filter (fun goal => negb (id goal === goalId)%js)
                             (goals this))
                   < length (goals this))%nat).
    { apply filter_length_lt. exists goal. now rewrite Hid. }
    lia.
Qed.

End ManagerFacts.

(** X12: what [removeGoal] removes.  [removeGoal(goalId)] keeps, in their
    order, the goals whose id is not [goalId] and removes every goal that
    carries it -- all of them when several goals were given the same
    [Date.now()].  It returns [true] exactly when some goal carried the id;
    when it returns [false] neither the list nor the store has changed; and
    since [NaN] is no goal's id under [!==], [removeGoal(NaN)] removes
    nothing. *)
Theorem removeGoal_removes_every_match {Store : Type}
    `{GoalManager.StorageService Store} goalId (this : GoalManager.manager Store) :
  GoalManager.goals (snd (GoalManager.removeGoal goalId this))
  = filter (fun goal => negb (GoalManager.id goal === goalId)%js)
      (GoalManager.goals this)
  /\ Forall (fun goal => (GoalManager.id goal === goalId)%js = false)
       (GoalManager.goals (snd (GoalManager.removeGoal goalId this)))
  /\ (GoalManager.getGoalCount (snd (GoalManager.removeGoal goalId this))
      + length (filter (fun goal => (GoalManager.id goal === goalId)%js)
                  (GoalManager.goals this))
      = GoalManager.getGoalCount this)%nat
  /\ (fst (GoalManager.removeGoal goalId this) = true
      <-> exists goal,
            In goal (GoalManager.goals this)
            /\ (GoalManager.id goal === goalId)%js = true)
  /\ (fst (GoalManager.removeGoal goalId this) = false ->
      snd (GoalManager.removeGoal goalId this) = this)
  /\ (goalId = NaN -> fst (GoalManager.removeGoal goalId this) = false).
Proof.
  split; [apply removeGoal_goals |]. split; [| split; [| split; [| split]]].
  - rewrite removeGoal_goals. apply Forall_forall. intros goal Hin.
    apply filter_In in Hin. now apply negb_true_iff.
  - unfold GoalManager.getGoalCount. rewrite removeGoal_goals.
    rewrite Nat.add_comm. apply filter_length_split.
  - apply removeGoal_flag.
  - apply removeGoal_untouched.
  - intros ->. apply not_true_is_false. rewrite removeGoal_flag.
    intros (goal & _ & Hid). now destruct (GoalManager.id goal).
Qed.

(** X13: adding a goal and removing it again.  When the clock reading [now]
    is a number no stored goal has for id, [addGoal] followed by
    [removeGoal] of the returned goal's id reports [true] and leaves the list
    of goals as it was; and two goals added at the same clock reading share
    their id, so that one [removeGoal] removes both.  The goal [addGoal]
    stores has a [stepUpRate] that is never [NaN]: [0] takes its place. *)
Theorem addGoal_then_removeGoal {Store : Type}
    `{GoalManager.StorageService Store} now name p r y e s name' p' r' y' e' s'
    (this : GoalManager.manager Store) :
  (now === now)%js = true ->
  Forall (fun goal => (GoalManager.id goal === now)%js = false)
    (GoalManager.goals this) ->
  let added := GoalManager.addGoal now name p r y e s this in
  let added' := GoalManager.addGoal now name' p' r' y' e' s' (snd added) in
  GoalManager.id (fst added) = now
  /\ GoalManager.stepUpRate (fst added) <> NaN
  /\ GoalManager.goals (snd added) = GoalManager.goals this ++ [fst added]
  /\ fst (GoalManager.removeGoal (GoalManager.id (fst added)) (snd added)) = true
  /\ GoalManager.goals
       (snd (GoalManager.removeGoal (GoalManager.id (fst added)) (snd added)))
     = GoalManager.goals this
  /\ GoalManager.goals
       (snd (GoalManager.removeGoal (GoalManager.id (fst added)) (snd added')))
     = GoalManager.goals this.
Proof.
  intros Hnow Hfresh added added'.
  assert (Hkeep : filter (fun goal => negb (GoalManager.id goal === now)%js)
                    (GoalManager.goals this) = GoalManager.goals this).
  { induction (GoalManager.goals this) as [| goal l IH]; [reflexivity |].
    inversion Hfresh as [| ? ? Hgoal Hl]; subst. cbn [filter].
    rewrite Hgoal. cbn [negb]. f_equal. now apply IH. }
  assert (Hadded : GoalManager.goals (snd added)
                   = GoalManager.goals this ++ [fst added]).
  { unfold added, GoalManager.addGoal. cbn [snd fst].
    now rewrite saveToStorage_goals. }
  assert (Hid : GoalManager.id (fst added) = now) by reflexivity.
  split; [exact Hid |]. split; [| split; [exact Hadded | split; [| split]]].
  - unfold added, GoalManager.addGoal. cbn [fst GoalManager.stepUpRate].
    destruct s as [[x | | |] |]; cbn; try discriminate.
    + destruct (Reqb x 0); cbn; discriminate.
    + destruct (Reqb 0 0); discriminate.
  - rewrite removeGoal_flag. exists (fst added). split; [| exact Hnow].
    rewrite Hadded. apply in_or_app. right. now left.
  - rewrite removeGoal_goals, Hadded, Hid, filter_app, Hkeep. cbn [filter].
    change (GoalManager.id (fst added)) with now. rewrite Hnow. cbn [negb].
    apply app_nil_r.
  - rewrite removeGoal_goals, Hid.
    assert (Hadded' : GoalManager.goals (snd added')
                      = (GoalManager.goals this ++ [fst added]) ++ [fst added']).
    { unfold added', GoalManager.addGoal. cbn [snd fst].
      rewrite saveToStorage_goals. cbn [GoalManager.goals].
      now rewrite <- Hadded. }
    rewrite Hadded', !filter_app, Hkeep. cbn [filter].
    change (GoalManager.id (fst added)) with now.
    change (GoalManager.id (fst added')) with now.
    rewrite Hnow. cbn [negb]. now rewrite !app_nil_r.
Qed.

Lemma addGoal_then_removeGoal_witness :
  GoalManager.goals
    (snd (GoalManager.removeGoal (Fin 1)
            (snd (GoalManager.addGoal (Fin 1) (Importer.name Samples.car_goal)
                    (Fin 1500000) (Fin 5) (Fin 5) (Fin 10) None
                    (GoalManager.constructor (Some ([] : list GoalManager.Goal)))))))
  = [].
Proof.
  destruct (addGoal_then_removeGoal (Fin 1) (Importer.name Samples.car_goal)
              (Fin 1500000) (Fin 5) (Fin 5) (Fin 10) None
              (Importer.name Samples.car_goal) (Fin 1) (Fin 1) (Fin 1) (Fin 1) None
              (GoalManager.constructor (Some ([] : list GoalManager.Goal))))
    as (_ & _ & _ & _ & H & _).
  - cbn. apply Reqb_true. reflexivity.
  - constructor.
  - exact H.
Defined.

Section Persistence.

Import GoalManager.

Context {Store : Type} `{StorageService Store}.

Hypothesis Hfaithful : faithful Store.

Lemma saveToStorage_in_sync (this : manager Store) : in_sync (snd (saveToStorage this)).
Proof.
  unfold in_sync, saveToStorage.
  destruct (storageService this) as [store |] eqn:E.
  - destruct (Hfaithful (goals this) store) as [_ Hload].
    destruct (saveGoals (goals this) store) as [saved store'].
    cbn in *. intros store0 [= <-]. exact Hload.
  - cbn. rewrite E. discriminate.
Qed.

Lemma saveToStorage_service (this : manager Store) :
  storageService this <> None -> storageService (snd (saveToStorage this)) <> None.
Proof.
  unfold saveToStorage. destruct (storageService this) as [store |]; [| easy].
  now destruct (saveGoals (goals this) store).
Qed.

Lemma run_call_in_sync c (this : manager Store) :
  in_sync this -> in_sync (run_call c this).
Proof.
  intros Hsync. destruct c; cbn [run_call].
  - apply saveToStorage_in_sync.
  - unfold removeGoal. destruct (_ <? _)%nat eqn:E; cbn [snd].
    + apply saveToStorage_in_sync.
    + apply Nat.ltb_ge in E.
      pose proof (filter_length_le (fun goal => negb (id goal === goalId)%js)
                    (goals this)) as Hle.
      cbn [goals] in E. rewrite filter_length_eq by lia. now destruct this.
  - apply saveToStorage_in_sync.
  - unfold loadFromStorage. destruct (storageService this) as [store |] eqn:E.
    + cbn. intros store0 [= <-]. reflexivity.
    + exact Hsync.
Qed.

Lemma run_call_service c (this : manager Store) :
  storageService this <> None -> storageService (run_call c this) <> None.
Proof.
  intros Hsome. destruct c; cbn [run_call].
  - now apply saveToStorage_service.
  - unfold removeGoal. destruct (_ <? _)%nat; cbn [snd]; [| exact Hsome].
    now apply saveToStorage_service.
  - now apply saveToStorage_service.
  - unfold loadFromStorage. now destruct (storageService this).
Qed.

Lemma run_calls_in_sync calls : forall this : manager Store,
  in_sync this -> storageService this <> None ->
  in_sync (run_calls calls this) /\ storageService (run_calls calls this) <> None.
Proof.
  induction calls as [| c calls IH]; intros this Hsync Hsome; [now split |].
  apply IH; [now apply run_call_in_sync | now apply run_call_service].
Qed.

End Persistence.

(** X14: what was stored is what a reload shows.  With a storage service
    whose [saveGoals] succeeds and whose [loadGoals] gives back what was
    saved, after any sequence of [addGoal], [removeGoal], [clearAllGoals] and
    [loadFromStorage] calls on a manager that began by loading from its
    store, a new manager created on the store and loaded holds exactly the
    goals the first one ended with -- also after a [removeGoal] that found
    nothing and therefore saved nothing. *)
Theorem stored_goals_survive_reload {Store : Type}
    `{GoalManager.StorageService Store} calls (store : Store) :
  GoalManager.faithful Store ->
  exists store',
    GoalManager.storageService
      (GoalManager.run_calls calls
         (snd (GoalManager.loadFromStorage (GoalManager.constructor (Some store)))))
    = Some store'
    /\ GoalManager.goals
         (snd (GoalManager.loadFromStorage (GoalManager.constructor (Some store'))))
       = GoalManager.goals
           (GoalManager.run_calls calls
              (snd (GoalManager.loadFromStorage
                      (GoalManager.constructor (Some store))))).
Proof.
  intros Hfaithful.
  destruct (run_calls_in_sync Hfaithful calls
              (snd (GoalManager.loadFromStorage (GoalManager.constructor (Some store)))))
    as [Hsync Hsome].
  - cbn. intros store0 [= <-]. reflexivity.
  - discriminate.
  - destruct (GoalManager.storageService _) as [store' |] eqn:E; [| contradiction].
    exists store'. split; [reflexivity |]. cbn. now apply Hsync.
Qed.

Lemma stored_goals_survive_reload_witness :
  exists store' : list GoalManager.Goal,
    GoalManager.storageService
      (GoalManager.run_calls
         [GoalManager.call_addGoal (Fin 1) (Importer.name Samples.car_goal)
            (Fin 1500000) (Fin 5) (Fin 5) (Fin 10) None;
          GoalManager.call_removeGoal (Fin 2)]
         (snd (GoalManager.loadFromStorage (GoalManager.constructor (Some [])))))
    = Some store'
    /\ GoalManager.goals
         (snd (GoalManager.loadFromStorage (GoalManager.constructor (Some store'))))
       = GoalManager.goals
           (GoalManager.run_calls
              [GoalManager.call_addGoal (Fin 1) (Importer.name Samples.car_goal)
                 (Fin 1500000) (Fin 5) (Fin 5) (Fin 10) None;
               GoalManager.call_removeGoal (Fin 2)]
              (snd (GoalManager.loadFromStorage
                      (GoalManager.constructor (Some []))))).
Proof.
  apply stored_goals_survive_reload. intros goals store. split; reflexivity.
Defined.

(** * The chart data *)

Lemma le_fin x y : (Fin x <=? Fin y)%js = negb (Rltb y x).
Proof. reflexivity. Qed.

Lemma chart_points_spec y k : (k < chart_points y)%nat <-> INR k <= y.
Proof.
  unfold chart_points. rewrite INR_IZR_INZ.
  destruct (Zfloor_bound y) as [Hlo Hhi]. split.
  - intros H. assert (Hz : (Z.of_nat k <= Zfloor y)%Z) by lia.
    apply IZR_le in Hz. lra.
  - intros H. apply Zfloor_lub in H. lia.
Qed.

Lemma map_seq_S {A} (f : nat -> A) n :
  map f (seq 0 (S n)) = f O :: map (fun d => f (S d)) (seq 0 n).
Proof. cbn [seq map]. f_equal. rewrite <- seq_shift, map_map. reflexivity. Qed.

Section ChartFinite.

Variables (y i g m : R).
Hypothesis base_pos : 0 < 1 + i.

Lemma years_loop_fin n : forall k fuel tot c data,
  (1 <= k)%nat -> chart_points y = (k + n)%nat -> (k + 2 * n <= fuel)%nat ->
  ChartManager.years_loop fuel (Fin y) (Fin i) (Fin g) (Fin m)
    (Fin (INR k)) (Fin tot) (Fin c) data
  = Some (ChartManager.mkGoalData
            (ChartManager.years data
             ++ map (fun d => Fin (INR (k + d))) (seq 0 n))
            (ChartManager.invested data
             ++ map (fun d => Math_round (Fin (tot + invest_sum c (1 + g) (S d))))
                  (seq 0 n))
            (ChartManager.futureValues data
             ++ map (fun d =>
                       Math_round
                         (Fin (m * fv_sum (1 + i) (1 + g) (INR (k + d)) (k + d) 0)))
                  (seq 0 n))).
Proof.
  induction n as [| n IH]; intros k fuel tot c data Hk Hcount Hfuel.
  - assert (Hend : ~ INR k <= y).
    { intros H. apply chart_points_spec in H. lia. }
    cbn [seq map]. rewrite !app_nil_r.
    destruct fuel; cbn [ChartManager.years_loop];
      rewrite le_fin, Rltb_true by lra; now destruct data.
  - assert (Hin : INR k <= y) by (apply chart_points_spec; lia).
    assert (Hk0 : INR k <> 0).
    { apply not_0_INR. lia. }
    destruct fuel as [| fuel]; [lia |].
    cbn [ChartManager.years_loop].
    rewrite le_fin, Rltb_false by lra. cbn [negb strict_eq].
    rewrite Reqb_false by assumption.
    pose proof (fv_years_loop_fin (INR k) i g base_pos k 0 fuel 0 m) as Hfv.
    change (INR 0) with 0 in Hfv. rewrite Hfv by (rewrite ?year_count_INR; lia).
    repeat (rewrite add_fin || rewrite mul_fin).
    replace (INR k + 1) with (INR (S k)) by (rewrite S_INR; reflexivity).
    rewrite IH by lia. cbn [ChartManager.years ChartManager.invested
                              ChartManager.futureValues].
    rewrite !(map_seq_S _ n), <- !app_assoc. cbn [app].
    rewrite !Nat.add_0_r.
    assert (Hyears : map (fun d => Fin (INR (S k + d))) (seq 0 n)
                     = map (fun d => Fin (INR (k + S d))) (seq 0 n)).
    { apply map_ext. intros d. now rewrite Nat.add_succ_r. }
    assert (Hinvested :
              map (fun d => Math_round
                              (Fin (tot + c * 12
                                    + invest_sum (c * (1 + g)) (1 + g) (S d))))
                (seq 0 n)
              = map (fun d => Math_round (Fin (tot + invest_sum c (1 + g) (S (S d)))))
                  (seq 0 n)).
    { apply map_ext. intros d. cbn [invest_sum]. do 2 f_equal. ring. }
    assert (Hvalues :
              map (fun d => Math_round
                              (Fin (m * fv_sum (1 + i) (1 + g) (INR (S k + d))
                                          (S k + d) 0)))
                (seq 0 n)
              = map (fun d => Math_round
                                (Fin (m * fv_sum (1 + i) (1 + g) (INR (k + S d))
                                            (k + S d) 0)))
                  (seq 0 n)).
    { apply map_ext. intros d. now rewrite Nat.add_succ_r. }
    rewrite Hyears, Hinvested, Hvalues.
    replace (tot + invest_sum c (1 + g) 1) with (tot + c * 12)
      by (cbn [invest_sum]; ring).
    replace (0 + m * fv_sum (1 + i) (1 + g) (INR k) k 0)
      with (m * fv_sum (1 + i) (1 + g) (INR k) k 0) by ring.
    reflexivity.
Qed.

Lemma years_loop_start fuel :
  (2 * chart_points y + 1 <= fuel)%nat ->
  ChartManager.years_loop fuel (Fin y) (Fin i) (Fin g) (Fin m)
    (Fin 0) (Fin 0) (Fin m) (ChartManager.mkGoalData [] [] [])
  = Some (ChartManager.mkGoalData
            (map (fun k => Fin (INR k)) (seq 0 (chart_points y)))
            (map (fun k => Math_round (Fin (invest_sum m (1 + g) k)))
               (seq 0 (chart_points y)))
            (map (fun k => Math_round (Fin (m * fv_sum (1 + i) (1 + g) (INR k) k 0)))
               (seq 0 (chart_points y)))).
Proof.
  intros Hfuel. destruct (chart_points y) as [| n] eqn:Hpoints.
  - assert (Hend : ~ INR 0 <= y).
    { intros H. apply chart_points_spec in H. lia. }
    cbn [INR] in Hend.
    destruct fuel; cbn [ChartManager.years_loop];
      rewrite le_fin, Rltb_true by lra; reflexivity.
  - assert (Hin : INR 0 <= y) by (apply chart_points_spec; lia).
    cbn [INR] in Hin.
    destruct fuel as [| fuel]; [lia |].
    cbn [ChartManager.years_loop].
    rewrite le_fin, Rltb_false by lra. cbn [negb strict_eq].
    rewrite Reqb_true by reflexivity. rewrite add_fin.
    replace (0 + 1) with (INR 1) by (cbn; lra).
    rewrite (years_loop_fin n 1) by lia.
    cbn [ChartManager.years ChartManager.invested ChartManager.futureValues app].
    rewrite !(map_seq_S _ n).
    change (invest_sum m (1 + g) 0) with 0.
    change (fv_sum (1 + i) (1 + g) (INR 0) 0 0) with 0.
    rewrite Rmult_0_r, Math_round_0.
    assert (Hinvested :
              map (fun d => Math_round (Fin (0 + invest_sum m (1 + g) (S d))))
                (seq 0 n)
              = map (fun d => Math_round (Fin (invest_sum m (1 + g) (S d))))
                  (seq 0 n)).
    { apply map_ext. intros d. do 2 f_equal. ring. }
    rewrite Hinvested. reflexivity.
Qed.

End ChartFinite.

(** The contribution of a plan with a target that is not negative. *)
Lemma calculateMonthlySIP_nonneg T y e s :
  0 <= T -> 0 < y -> 0 < e -> 0 <= s ->
  exists sip,
    returns (fun fuel => calculateMonthlySIP fuel (Fin T) (Fin y) (Fin e) (Fin s))
      (Fin sip)
    /\ 0 <= sip.
Proof.
  intros HT0 Hy He Hs.
  assert (Hi : e / 12 / 100 <> 0).
  { intros H. field_simplify in H. lra. }
  destruct (Req_dec_T T 0) as [-> | HT].
  - exists 0. split; [| lra]. exists O. intros fuel _.
    unfold calculateMonthlySIP. cbn [strict_eq]. now rewrite Reqb_true.
  - destruct (Req_dec_T s 0) as [-> | Hs0].
    + exists (level_sip_real T y e). split.
      * exists O. intros fuel _. apply calculateMonthlySIP_level_fin; lra.
      * unfold level_sip_real. apply IZR_le, Zfloor_lub.
        assert (Hpow : 1 < Rpower (1 + e / 12 / 100) (y * 12))
          by (apply Rpower_gt_1; lra).
        assert (Hfactor : 0 < (Rpower (1 + e / 12 / 100) (y * 12) - 1)
                              / (e / 12 / 100) * (1 + e / 12 / 100)).
        { apply Rmult_lt_0_compat; [| lra]. apply Rdiv_lt_0_compat; lra. }
        assert (0 <= T / ((Rpower (1 + e / 12 / 100) (y * 12) - 1)
                          / (e / 12 / 100) * (1 + e / 12 / 100))).
        { apply Rmult_le_pos; [lra |]. left. now apply Rinv_0_lt_compat. }
        simpl. lra.
    + destruct (calculateStepUpSIP_inv T y (Fin e) (Fin s)
                  (fun lo hi mid => 0 <= lo /\ lo <= hi /\ 0 <= mid <= hi))
        as (lo & hi & mid & [f0 Hret] & HI & _).
      * intros lo hi mid ofuel v HI Hw _. destruct (v <? Fin T)%js; lra.
      * lra.
      * exists (IZR (Zfloor (mid + / 2))). split.
        -- exists f0. intros fuel Hfuel. unfold calculateMonthlySIP.
           rewrite mul_fin, !div_fin by lra. cbn [strict_eq truthy].
           rewrite (Reqb_false T 0), (Reqb_false (y * 12) 0),
             (Reqb_false (e / 12 / 100) 0), (Reqb_false s 0) by (assumption || lra).
           now apply Hret.
        -- apply IZR_le, Zfloor_lub. simpl. lra.
Qed.

Lemma invest_sum_flat k : forall c g, g = 1 -> invest_sum c g k = c * INR k * 12.
Proof.
  induction k as [| k IH]; intros c g Hg; [cbn; ring |].
  cbn [invest_sum]. rewrite IH by assumption. rewrite S_INR, Hg. ring.
Qed.

(** What was paid in is worth at least as much at the same year. *)
Lemma invest_le_value m b g k :
  0 <= m -> 1 < b -> 0 <= g ->
  invest_sum m g k <= m * fv_sum b g (INR k) k 0.
Proof.
  intros Hm Hb Hg. rewrite invest_sum_closed, fv_sum_closed, <- Rsum_map_scal.
  apply Rsum_map_le. intros j Hj. apply in_seq in Hj.
  assert (Hfactor : 12 < month_factor b ((INR k - INR (0 + j)) * 12)).
  { apply month_factor_gt_12; [assumption |].
    cbn [Nat.add]. rewrite <- minus_INR by lia.
    assert (1 <= INR (k - j)).
    { replace 1 with (INR 1) by reflexivity. apply le_INR. lia. }
    lra. }
  assert (Hpow : 0 <= g ^ j) by now apply pow_le.
  assert (0 <= m * g ^ j) by now apply Rmult_le_pos.
  nra.
Qed.

Lemma Forall2_map_r {A B} (R : A -> B -> Prop) (f : A -> B) l :
  (forall x, In x l -> R x (f x)) -> Forall2 R l (map f l).
Proof.
  induction l as [| x l IH]; intros H; cbn [map]; constructor.
  - apply H. now left.
  - apply IH. intros x' Hx'. apply H. now right.
Qed.

Lemma Forall2_map_map {A B C} (R : B -> C -> Prop) (f : A -> B) (g : A -> C) l :
  (forall x, In x l -> R (f x) (g x)) -> Forall2 R (map f l) (map g l).
Proof.
  induction l as [| x l IH]; intros H; cbn [map]; constructor.
  - apply H. now left.
  - apply IH. intros x' Hx'. apply H. now right.
Qed.

(** The three series, for the contribution [m] that [calculateMonthlySIP]
    returns. *)
Lemma generateGoalData_series p r y e s m :
  0 < p -> 0 <= r -> 0 < y -> 0 < e -> 0 <= s ->
  returns (fun fuel =>
             calculateMonthlySIP fuel
               (calculateInflationAdjustedAmount (Fin p) (Fin r) (Fin y))
               (Fin y) (Fin e) (Fin s))
    (Fin m) ->
  returns (fun fuel =>
             ChartManager.generateGoalData fuel
               (mkGoal (Fin p) (Fin r) (Fin y) (Fin e) (Some (Fin s))))
    (ChartManager.mkGoalData
       (map (fun k => Fin (INR k)) (seq 0 (chart_points y)))
       (map (fun k => Math_round (Fin (invest_sum m (1 + s / 100) k)))
          (seq 0 (chart_points y)))
       (map (fun k => Math_round (Fin (m * fv_factor (INR k) e s)))
          (seq 0 (chart_points y)))).
Proof.
  intros Hp Hr Hy He Hs Hm.
  assert (Hi : 0 < 1 + e / 12 / 100).
  { assert (0 < e / 12 / 100) by (apply Rdiv_lt_0_compat; lra). lra. }
  assert (Hstep : stepUpRate_or_0 (mkGoal (Fin p) (Fin r) (Fin y) (Fin e) (Some (Fin s)))
                  = Fin s).
  { unfold stepUpRate_or_0. cbn [stepUpRate truthy].
    destruct (Req_dec_T s 0) as [-> | Hs0].
    - now rewrite Reqb_true.
    - now rewrite Reqb_false. }
  unfold ChartManager.generateGoalData.
  cbn [currentPrice inflationRate years expectedReturn]. rewrite Hstep.
  apply (returns_bind _
           (fun fuel monthlySIP =>
              ChartManager.years_loop fuel (Fin y) (Fin e / Fin 12 / Fin 100)%js
                (Fin s / Fin 100)%js monthlySIP (Fin 0) (Fin 0) monthlySIP
                (ChartManager.mkGoalData [] [] []))
           (Fin m)); [exact Hm |].
  exists (2 * chart_points y + 1)%nat. intros fuel Hfuel.
  rewrite !div_fin by lra. rewrite years_loop_start by assumption.
  do 2 f_equal. apply map_ext. intros k.
  unfold fv_factor. now rewrite year_count_INR.
Qed.

Lemma inflated_target_nonneg p r y :
  0 < p -> 0 <= r -> 0 < y ->
  exists T,
    calculateInflationAdjustedAmount (Fin p) (Fin r) (Fin y) = Fin T /\ 0 <= T.
Proof.
  intros Hp Hr Hy. rewrite calculateInflationAdjustedAmount_fin by lra.
  eexists. split; [reflexivity |]. apply IZR_le, Zfloor_lub.
  assert (0 < p * Rpower (1 + r / 100) y)
    by (apply Rmult_lt_0_compat; [lra | apply Rpower_pos]).
  simpl. lra.
Qed.



(** The contribution of a plan over whole years is within one and a half
    units of the exact one. *)
Lemma calculateMonthlySIP_near_exact T (n : nat) e s :
  0 <= T -> (1 <= n)%nat -> 0 < e -> 0 <= s ->
  exists m,
    returns (fun fuel => calculateMonthlySIP fuel (Fin T) (Fin (INR n)) (Fin e) (Fin s))
      (Fin m)
    /\ Rabs (m - T / fv_factor (INR n) e s) <= 1 + / 2.
Proof.
  intros HT Hn He Hs.
  assert (Hy : 1 <= INR n) by (replace 1 with (INR 1) by reflexivity; now apply le_INR).
  pose proof (fv_factor_gt_12 (INR n) e s Hy He Hs) as HF.
  assert (Hi : e / 12 / 100 <> 0).
  { intros H. field_simplify in H. lra. }
  destruct (Req_dec_T T 0) as [-> | HT0].
  - exists 0. split.
    + exists O. intros fuel _. unfold calculateMonthlySIP. cbn [strict_eq].
      now rewrite Reqb_true.
    + apply Rabs_le_iff. unfold Rdiv. rewrite Rmult_0_l. lra.
  - destruct (Req_dec_T s 0) as [-> | Hs0].
    + exists (level_sip_real T (INR n) e). split.
      * exists O. intros fuel _. apply calculateMonthlySIP_level_fin; lra.
      * unfold level_sip_real. rewrite <- fv_factor_level by assumption.
        pose proof (round_bounds (T / fv_factor (INR n) e 0)).
        apply Rabs_le_iff. lra.
    + assert (Hx : T / fv_factor (INR n) e s * fv_factor (INR n) e s = T)
        by (field; lra).
      assert (Hx0 : 0 <= T / fv_factor (INR n) e s <= T / 12).
      { split.
        - apply Rlt_le, Rdiv_lt_0_compat; lra.
        - unfold Rdiv. apply Rmult_le_compat_l; [lra |].
          apply Rinv_le_contravar; lra. }
      destruct (calculateStepUpSIP_bracket T (INR n) e s (T / fv_factor (INR n) e s))
        as (mid & [f0 Hret] & Hmid); try assumption; try lra.
      exists (IZR (Zfloor (mid + / 2))). split.
      * exists f0. intros fuel Hfuel. unfold calculateMonthlySIP.
        rewrite mul_fin, !div_fin by lra. cbn [strict_eq truthy].
        rewrite (Reqb_false T 0), (Reqb_false (INR n * 12) 0),
          (Reqb_false (e / 12 / 100) 0), (Reqb_false s 0) by (assumption || lra).
        now apply Hret.
      * pose proof (round_bounds mid). apply Rabs_le_iff in Hmid.
        apply Rabs_le_iff. lra.
Qed.

Lemma chart_points_INR n : chart_points (INR n) = S n.
Proof.
  unfold chart_points. rewrite INR_IZR_INZ, ZfloorZ. lia.
Qed.



(** * The goal templates *)

Section Templates.

Import TemplateManager.

Lemma string_eq_spec a b : string_eq a b = true <-> a = b.
Proof.
  unfold string_eq. destruct (list_eq_dec N.eq_dec a b); split; congruence.
Qed.

Lemma string_eq_refl a : string_eq a a = true.
Proof. now apply string_eq_spec. Qed.

Lemma getTemplate_None templateId this :
  getTemplate templateId this = None <-> ~ In templateId (map id this).
Proof.
  unfold getTemplate. induction this as [| t this IH]; cbn [find map In].
  - tauto.
  - destruct (string_eq (id t) templateId) eqn:E.
    + apply string_eq_spec in E. split; [discriminate | tauto].
    + rewrite IH. split; [| tauto]. intros H [H' | H']; [| tauto].
      apply string_eq_spec in H'. congruence.
Qed.

Lemma getTemplate_unique this : forall t,
  NoDup (map id this) -> In t this -> getTemplate (id t) this = Some t.
Proof.
  unfold getTemplate. induction this as [| t' this IH]; intros t Hnodup Hin;
    [contradiction |].
  cbn [map] in Hnodup. inversion Hnodup as [| ? ? Hnotin Hrest]; subst.
  cbn [find]. destruct Hin as [-> | Hin].
  - now rewrite string_eq_refl.
  - destruct (string_eq (id t') (id t)) eqn:E; [| now apply IH].
    apply string_eq_spec in E. exfalso. apply Hnotin. rewrite E.
    now apply in_map.
Qed.

Lemma getTemplate_app templateId this added t :
  getTemplate templateId this = Some t ->
  getTemplate templateId (this ++ added) = Some t.
Proof.
  unfold getTemplate. induction this as [| t' this IH]; cbn [find app];
    [discriminate |].
  destruct (string_eq (id t') templateId); [auto | exact IH].
Qed.

Lemma constructor_well_kept : well_kept constructor.
Proof.
  split; [| split].
  - unfold constructor, initializeTemplates. cbn [map id].
    repeat (constructor; [cbn [In]; vm_compute; intuition discriminate |]).
    constructor.
  - exists []. now rewrite app_nil_r.
  - unfold constructor, initializeTemplates.
    repeat (constructor; [split; vm_compute; discriminate |]). constructor.
Qed.

Lemma addCustomTemplate_well_kept template this :
  well_kept this -> well_kept (snd (addCustomTemplate template this)).
Proof.
  intros Hkept. unfold addCustomTemplate.
  destruct (Importer.is_empty (id template)) eqn:Eid; [exact Hkept |].
  destruct (Importer.is_empty (name template)) eqn:Ename; [exact Hkept |].
  cbn [orb].
  destruct (getTemplate (id template) this) eqn:Eget; [exact Hkept |].
  destruct Hkept as (Hnodup & [added Hadded] & Hnames).
  apply getTemplate_None in Eget. apply is_empty_false in Eid, Ename.
  cbn [snd]. split; [| split].
  - rewrite map_app. cbn [map]. apply NoDup_app; [assumption | |].
    + constructor; [intros [] | constructor].
    + intros a Ha [<- | []]. contradiction.
  - exists (added ++ [template]). now rewrite Hadded, app_assoc.
  - apply Forall_app. split; [assumption |]. now repeat constructor.
Qed.

Lemma add_all_well_kept customs : well_kept (add_all customs).
Proof.
  unfold add_all.
  assert (H : forall this, well_kept this ->
              well_kept (fold_left
                           (fun this template => snd (addCustomTemplate template this))
                           customs this)).
  { induction customs as [| t customs IH]; intros this Hkept; [exact Hkept |].
    cbn [fold_left]. apply IH. now apply addCustomTemplate_well_kept. }
  apply H, constructor_well_kept.
Qed.

End Templates.

(** X17: template ids stay unique.  In a template manager, after any
    sequence of [addCustomTemplate] calls, no two templates share an id, the
    eight built-in templates are still the first eight, and [getTemplate]
    of a listed template's id returns that template.  [addCustomTemplate]
    returns [true] exactly when the id and the name are not empty and the id
    is not listed yet; it then appends the template and changes no other
    lookup, and otherwise it leaves the list as it is. *)
Theorem template_ids_stay_unique customs template :
  let this := TemplateManager.add_all customs in
  NoDup (map TemplateManager.id this)
  /\ firstn 8 this = TemplateManager.initializeTemplates
  /\ (forall t, In t this ->
        TemplateManager.getTemplate (TemplateManager.id t) this = Some t)
  /\ (fst (TemplateManager.addCustomTemplate template this) = true
      <-> TemplateManager.id template <> []
          /\ TemplateManager.name template <> []
          /\ ~ In (TemplateManager.id template) (map TemplateManager.id this))
  /\ (fst (TemplateManager.addCustomTemplate template this) = true ->
      snd (TemplateManager.addCustomTemplate template this) = this ++ [template]
      /\ TemplateManager.getTemplate (TemplateManager.id template)
           (snd (TemplateManager.addCustomTemplate template this))
         = Some template
      /\ forall t, In t this ->
           TemplateManager.getTemplate (TemplateManager.id t)
             (snd (TemplateManager.addCustomTemplate template this))
           = Some t)
  /\ (fst (TemplateManager.addCustomTemplate template this) = false ->
      snd (TemplateManager.addCustomTemplate template this) = this).
Proof.
  intros this.
  destruct (add_all_well_kept customs) as (Hnodup & [added Hadded] & Hnames).
  fold this in Hnodup, Hadded, Hnames.
  pose proof (addCustomTemplate_well_kept template this
                (add_all_well_kept customs)) as (Hnodup' & _ & _).
  split; [exact Hnodup |]. split; [| split; [| split; [| split]]].
  - rewrite Hadded, firstn_app.
    change (length TemplateManager.initializeTemplates) with 8%nat.
    rewrite Nat.sub_diag. cbn [firstn]. rewrite app_nil_r. reflexivity.
  - intros t Hin. now apply getTemplate_unique.
  - unfold TemplateManager.addCustomTemplate.
    rewrite <- getTemplate_None, <- !is_empty_false.
    destruct (Importer.is_empty (TemplateManager.id template));
      [cbn; intuition congruence |].
    destruct (Importer.is_empty (TemplateManager.name template));
      [cbn; intuition congruence |].
    cbn [orb].
    destruct (TemplateManager.getTemplate _ this); cbn; intuition congruence.
  - unfold TemplateManager.addCustomTemplate in *.
    destruct (_ || _); [discriminate |].
    destruct (TemplateManager.getTemplate _ this) eqn:Eget; [discriminate |].
    intros _. cbn [snd] in *. split; [reflexivity |]. split.
    + apply getTemplate_unique; [assumption |].
      apply in_or_app. right. now left.
    + intros t Hin. apply getTemplate_unique; [assumption |].
      apply in_or_app. now left.
  - unfold TemplateManager.addCustomTemplate.
    destruct (_ || _); [reflexivity |].
    destruct (TemplateManager.getTemplate _ this); [reflexivity | discriminate].
Qed.

Lemma built_in_templates_valid :
  Forall (fun t =>
            exists p r (n : nat) e,
              TemplateManager.currentPrice t = Fin p
              /\ TemplateManager.inflationRate t = Fin r
              /\ TemplateManager.years t = Fin (INR n)
              /\ TemplateManager.expectedReturn t = Fin e
              /\ 0 < p /\ 0 <= r /\ (1 <= n)%nat /\ 0 < e)
    TemplateManager.initializeTemplates.
Proof.
  unfold TemplateManager.initializeTemplates.
  repeat (constructor;
          [match goal with
           | |- context [TemplateManager.mkTemplate _ _ _ _ (Fin ?p) (Fin ?r)
                           (Fin (IZR ?y)) (Fin ?e)] =>
               exists p, r, (Z.to_nat y), e;
               cbn [TemplateManager.currentPrice TemplateManager.inflationRate
                      TemplateManager.years TemplateManager.expectedReturn];
               repeat split; try lra; try lia;
               rewrite INR_IZR_INZ; reflexivity
           end |]).
  constructor.
Qed.

(** X18: the built-in templates make goals the planner accepts.  Whatever
    custom templates were added, [createGoalFromTemplate] of a built-in
    template's id returns that template's name and numbers; the numbers are
    finite with price, horizon and return above zero, inflation not below
    zero and a whole number of years; and [calculateSummary] of the goal
    returns without entering a loop, with four finite totals of which
    [totalInvested] and [totalWealthGained] are not negative. *)
Theorem built_in_templates_make_valid_goals customs t :
  In t TemplateManager.initializeTemplates ->
  exists goal,
    TemplateManager.createGoalFromTemplate (TemplateManager.id t)
      (TemplateManager.add_all customs)
    = Some goal
    /\ goal = TemplateManager.mkGoalData (TemplateManager.name t)
                (TemplateManager.currentPrice t) (TemplateManager.inflationRate t)
                (TemplateManager.years t) (TemplateManager.expectedReturn t)
    /\ valid_goal (TemplateManager.calculator_goal goal)
    /\ (exists n : nat, TemplateManager.goal_years goal = Fin (INR n) /\ (1 <= n)%nat)
    /\ exists a b c d,
         (forall fuel,
            calculateSummary fuel [TemplateManager.calculator_goal goal]
            = Some (mkSummary (Fin a) (Fin b) (Fin c) (Fin d)))
         /\ 0 <= c /\ 0 <= d.
Proof.
  intros Hin.
  destruct (add_all_well_kept customs) as (Hnodup & [added Hadded] & _).
  assert (Hget : TemplateManager.getTemplate (TemplateManager.id t)
                   (TemplateManager.add_all customs) = Some t).
  { apply getTemplate_unique; [assumption |].
    rewrite Hadded. apply in_or_app. now left. }
  pose proof built_in_templates_valid as Hvalid.
  rewrite Forall_forall in Hvalid.
  destruct (Hvalid t Hin) as (p & r & n & e & Ep & Er & Ey & Ee & Hp & Hr & Hn & He).
  assert (Hy : 1 <= INR n) by (replace 1 with (INR 1) by reflexivity; now apply le_INR).
  eexists. split; [unfold TemplateManager.createGoalFromTemplate; now rewrite Hget |].
  split; [reflexivity |].
  assert (Hgoal : valid_goal
                    (TemplateManager.calculator_goal
                       (TemplateManager.mkGoalData (TemplateManager.name t)
                          (TemplateManager.currentPrice t)
                          (TemplateManager.inflationRate t)
                          (TemplateManager.years t)
                          (TemplateManager.expectedReturn t)))).
  { exists p, r, (INR n), e. cbn. repeat split; auto; lra. }
  split; [exact Hgoal |]. split; [exists n; split; assumption |].
  destruct (level_goals_summary
              [TemplateManager.calculator_goal
                 (TemplateManager.mkGoalData (TemplateManager.name t)
                    (TemplateManager.currentPrice t)
                    (TemplateManager.inflationRate t)
                    (TemplateManager.years t)
                    (TemplateManager.expectedReturn t))])
    as [Hsum Hfin]; [repeat constructor |].
  destruct Hfin as (a & b & c & d & Hleg & Hc & Hd); [repeat constructor; exact Hgoal |].
  exists a, b, c, d. split; [| split; assumption].
  intros fuel. rewrite Hsum. now rewrite Hleg.
Qed.

Lemma built_in_templates_make_valid_goals_witness :
  exists goal,
    TemplateManager.createGoalFromTemplate
      (TemplateManager.id (nth 2 TemplateManager.initializeTemplates
                             (TemplateManager.mkTemplate [] [] [] [] NaN NaN NaN NaN)))
      (TemplateManager.add_all [])
    = Some goal
    /\ valid_goal (TemplateManager.calculator_goal goal).
Proof.
  destruct (built_in_templates_make_valid_goals []
              (nth 2 TemplateManager.initializeTemplates
                 (TemplateManager.mkTemplate [] [] [] [] NaN NaN NaN NaN)))
    as (goal & H1 & _ & H2 & _).
  - cbn. auto.
  - exists goal. auto.
Defined.

(** * Exported files, imported *)

Section StringFacts.

Lemma trim_clean s : clean_start s -> clean_start (rev s) -> trim s = s.
Proof.
  intros Hs Hr. unfold trim, trimEnd.
  rewrite (trimStart_id s Hs), (trimStart_id (rev s) Hr). apply rev_involutive.
Qed.

Lemma trim_clean_start s : clean_start (trim s).
Proof. apply trimEnd_clean, trimStart_clean. Qed.

Lemma trimmed_clean_end s : trim s = s -> clean_start (rev s).
Proof.
  intros H. rewrite <- H. unfold trim, trimEnd. rewrite rev_involutive.
  apply trimStart_clean.
Qed.

Lemma clean_start_app s t : s <> [] -> clean_start s -> clean_start (s ++ t).
Proof. destruct s; [congruence | auto]. Qed.

Lemma clean_end_app s t : t <> [] -> clean_start (rev t) -> clean_start (rev (s ++ t)).
Proof.
  intros Ht H. rewrite rev_app_distr. apply clean_start_app; [| exact H].
  intros E. apply Ht. apply (f_equal (@rev N)) in E.
  now rewrite rev_involutive in E.
Qed.

Lemma includes_app s t c : includes (s ++ t) c = includes s c || includes t c.
Proof. apply existsb_app. Qed.

Lemma includes_false s c : includes s c = false <-> Forall (fun x => x <> c) s.
Proof.
  unfold includes. induction s as [| x s IH]; cbn [existsb].
  - split; [constructor | reflexivity].
  - rewrite orb_false_iff, IH, N.eqb_neq. split.
    + intros [H1 H2]. constructor; [congruence | assumption].
    + intros H. inversion H; subst. split; [congruence | assumption].
Qed.

Lemma split_cons_other c s sep :
  c <> sep ->
  split (c :: s) sep
  = (c :: hd [] (split s sep)) :: tl (split s sep).
Proof.
  intros Hc. cbn [split]. apply N.eqb_neq in Hc. rewrite Hc.
  now destruct (split s sep).
Qed.

Lemma split_nonempty s sep : split s sep <> [].
Proof.
  induction s as [| c s IH]; cbn [split]; [discriminate |].
  destruct (c =? sep)%N; [discriminate |]. now destruct (split s sep).
Qed.

Lemma split_line line rest sep :
  includes line sep = false ->
  split (line ++ sep :: rest) sep = line :: split rest sep.
Proof.
  induction line as [| c line IH]; intros H.
  - cbn [app split]. now rewrite N.eqb_refl.
  - unfold includes in H. cbn [existsb] in H. apply orb_false_iff in H as [Hc H].
    apply N.eqb_neq in Hc. cbn [app].
    rewrite split_cons_other by congruence. now rewrite (IH H).
Qed.

Lemma split_last line sep : includes line sep = false -> split line sep = [line].
Proof.
  induction line as [| c line IH]; intros H; [reflexivity |].
  unfold includes in H. cbn [existsb] in H. apply orb_false_iff in H as [Hc H].
  apply N.eqb_neq in Hc. rewrite split_cons_other by congruence.
  now rewrite (IH H).
Qed.

Lemma split_join lines sep :
  lines <> [] -> Forall (fun line => includes line sep = false) lines ->
  split (join [sep] lines) sep = lines.
Proof.
  induction lines as [| line lines IH]; intros Hne Hall; [congruence |].
  inversion Hall as [| ? ? Hline Hrest]; subst.
  destruct lines as [| line' lines].
  - cbn [join]. now apply split_last.
  - change (join [sep] (line :: line' :: lines))
      with (line ++ sep :: join [sep] (line' :: lines)).
    rewrite split_line by assumption. f_equal. now apply IH.
Qed.

Lemma join_clean_start sep line lines :
  line <> [] -> clean_start line -> clean_start (join sep (line :: lines)).
Proof.
  intros Hne H. destruct lines; cbn [join]; [exact H |]. now apply clean_start_app.
Qed.

Lemma join_clean_end sep lines : forall line,
  Forall (fun line => line <> [] /\ clean_start (rev line)) (line :: lines) ->
  join sep (line :: lines) <> []
  /\ clean_start (rev (join sep (line :: lines))).
Proof.
  induction lines as [| line' lines IH]; intros line Hall;
    inversion Hall as [| ? ? [Hne Hline] Hrest]; subst.
  - cbn [join]. now split.
  - change (join sep (line :: line' :: lines))
      with (line ++ sep ++ join sep (line' :: lines)).
    destruct (IH line' Hrest) as [Hne' Hclean]. split.
    + destruct line; [congruence | discriminate].
    + rewrite app_assoc. now apply clean_end_app.
Qed.

End StringFacts.

Section ExportImport.

Variable toString : num -> jsstring.
Variable parseFloat : jsstring -> num.
Variable Date_now : nat -> num.

Hypothesis Hprint : forall x, printable (toString x).

Lemma printable_clean s :
  printable s ->
  s <> [] /\ clean_start s /\ clean_start (rev s)
  /\ includes s comma = false /\ includes s quote = false
  /\ includes s newline = false.
Proof.
  intros [Hne Hall]. split; [exact Hne |]. split; [| split; [| split; [| split]]].
  - destruct s as [| c s]; [exact I |]. inversion Hall as [| ? ? [H _] _]. exact H.
  - apply Forall_rev in Hall. destruct (rev s) as [| c t]; [exact I |].
    inversion Hall as [| ? ? [H _] _]. exact H.
  - apply includes_false. eapply Forall_impl; [| exact Hall]. now intros c (_ & H & _).
  - apply includes_false. eapply Forall_impl; [| exact Hall]. now intros c (_ & _ & H).
  - apply includes_false. eapply Forall_impl; [| exact Hall].
    intros c (H & _ & _) ->. discriminate.
Qed.

Lemma printable_trim s : printable s -> trim s = s.
Proof. intros H. apply printable_clean in H. now apply trim_clean. Qed.

Lemma printable_escape s : printable s -> Exporter.escapeCSV s = s.
Proof.
  intros H. apply printable_clean in H as (_ & _ & _ & Hc & Hq & Hn).
  unfold Exporter.escapeCSV. now rewrite Hc, Hq, Hn.
Qed.

Lemma double_quotes_includes s c :
  c <> quote -> includes (Exporter.double_quotes s) c = includes s c.
Proof.
  intros Hc. unfold includes, Exporter.double_quotes.
  induction s as [| x s IH]; [reflexivity |].
  cbn [flat_map]. rewrite existsb_app, IH. cbn [existsb]. f_equal.
  destruct (x =? quote)%N eqn:E; cbn [existsb].
  - apply N.eqb_eq in E. subst x. apply N.eqb_neq in Hc. now rewrite Hc.
  - now rewrite orb_false_r.
Qed.

(** The name cell of an exportable goal. *)
Lemma escaped_name_clean name :
  name <> [] -> trim name = name -> includes name newline = false ->
  Exporter.escapeCSV name <> []
  /\ clean_start (Exporter.escapeCSV name)
  /\ includes (Exporter.escapeCSV name) newline = false.
Proof.
  intros Hne Htrim Hnl. unfold Exporter.escapeCSV.
  destruct (_ || _ || _).
  - split; [discriminate |]. split; [reflexivity |].
    cbn [app]. unfold includes. cbn [existsb].
    fold (includes (Exporter.double_quotes name ++ [quote]) newline).
    rewrite includes_app, double_quotes_includes by discriminate.
    rewrite Hnl. reflexivity.
  - split; [exact Hne |]. split; [| exact Hnl].
    rewrite <- Htrim. apply trim_clean_start.
Qed.

Lemma escaped_name_clean_end name :
  trim name = name -> clean_start (rev (Exporter.escapeCSV name)).
Proof.
  intros Htrim. unfold Exporter.escapeCSV. destruct (_ || _ || _).
  - rewrite app_assoc, rev_app_distr. reflexivity.
  - now apply trimmed_clean_end.
Qed.

Variable fuel : nat.

(** The cells of a row: the escaped name, the four numbers as printed, and
    five more printed numbers. *)
Lemma row_cells goal cells :
  Exporter.row toString fuel goal = Some cells ->
  exists more,
    cells = Exporter.escapeCSV (GoalManager.name goal)
            :: toString (GoalManager.currentPrice goal)
            :: toString (GoalManager.inflationRate goal)
            :: toString (GoalManager.years goal)
            :: toString (GoalManager.expectedReturn goal) :: more
    /\ Forall printable more /\ more <> [].
Proof.
  unfold Exporter.row. intros H.
  destruct (calculateMonthlySIP _ _ _ _ _) as [monthlySIP |]; [| discriminate].
  destruct (calculateTotalInvestment _ _ _ _) as [totalInvestment |];
    [| discriminate].
  injection H as <-. eexists. split; [reflexivity |].
  split; [| discriminate]. repeat constructor; apply Hprint.
Qed.

Lemma join_clean_last sep cells : forall cell,
  last (cell :: cells) [] <> [] ->
  clean_start (rev (last (cell :: cells) [])) ->
  join sep (cell :: cells) <> [] /\ clean_start (rev (join sep (cell :: cells))).
Proof.
  induction cells as [| cell' cells IH]; intros cell Hne Hclean.
  - cbn [join]. now split.
  - change (join sep (cell :: cell' :: cells))
      with (cell ++ sep ++ join sep (cell' :: cells)).
    destruct (IH cell' Hne Hclean) as [Hne' Hclean']. split.
    + intros E. apply app_eq_nil in E as [_ E]. apply app_eq_nil in E as [_ E].
      contradiction.
    + rewrite app_assoc. now apply clean_end_app.
Qed.

Lemma join_includes sep cells c :
  includes sep c = false ->
  Forall (fun cell => includes cell c = false) cells ->
  includes (join sep cells) c = false.
Proof.
  intros Hsep. induction cells as [| cell cells IH]; intros Hall; [reflexivity |].
  inversion Hall as [| ? ? Hcell Hrest]; subst.
  destruct cells as [| cell' cells]; [exact Hcell |].
  change (join sep (cell :: cell' :: cells))
    with (cell ++ sep ++ join sep (cell' :: cells)).
  rewrite !includes_app, Hcell, Hsep. cbn [orb]. now apply IH.
Qed.

(** A row of an exportable goal, as a line of the file. *)
Lemma row_line goal cells :
  exportable goal ->
  Exporter.row toString fuel goal = Some cells ->
  join [comma] cells <> []
  /\ clean_start (join [comma] cells)
  /\ clean_start (rev (join [comma] cells))
  /\ includes (join [comma] cells) newline = false
  /\ exists more,
       Importer.parseCSVLine (join [comma] cells)
       = GoalManager.name goal
         :: toString (GoalManager.currentPrice goal)
         :: toString (GoalManager.inflationRate goal)
         :: toString (GoalManager.years goal)
         :: toString (GoalManager.expectedReturn goal) :: more.
Proof.
  intros (Hne & Htrim & Hnl & _) Hrow.
  destruct (row_cells goal cells Hrow) as (more & -> & Hmore & Hmore0).
  destruct (escaped_name_clean _ Hne Htrim Hnl) as (Hne' & Hstart & Hnl').
  assert (Hcells : Forall printable
                     (toString (GoalManager.currentPrice goal)
                      :: toString (GoalManager.inflationRate goal)
                      :: toString (GoalManager.years goal)
                      :: toString (GoalManager.expectedReturn goal) :: more)).
  { repeat (constructor; [apply Hprint |]). exact Hmore. }
  set (numbers := toString (GoalManager.currentPrice goal) :: _) in *.
  assert (Hlast : printable (last (Exporter.escapeCSV (GoalManager.name goal) :: numbers) [])).
  { change (last (Exporter.escapeCSV (GoalManager.name goal) :: numbers) [])
      with (last numbers []).
    rewrite Forall_forall in Hcells. apply Hcells.
    destruct (exists_last (l := numbers)) as (l' & a & E); [discriminate |].
    rewrite E, last_last. apply in_or_app. right. now left. }
  apply printable_clean in Hlast as (Hlast0 & _ & Hlast1 & _).
  destruct (join_clean_last [comma] numbers _ Hlast0 Hlast1) as [Hjoin0 Hjoin1].
  split; [exact Hjoin0 |]. split; [| split; [exact Hjoin1 | split]].
  - now apply join_clean_start.
  - apply join_includes; [reflexivity |]. constructor; [exact Hnl' |].
    eapply Forall_impl; [| exact Hcells]. intros cell Hcell.
    now apply printable_clean in Hcell.
  - exists more. unfold Importer.parseCSVLine.
    assert (Hescaped : map Exporter.escapeCSV numbers = numbers).
    { clear - Hcells Hprint. induction Hcells as [| cell l Hcell _ IH]; [reflexivity |].
      cbn [map]. now rewrite printable_escape, IH. }
    assert (Htrimmed : map trim numbers = numbers).
    { clear - Hcells Hprint. induction Hcells as [| cell l Hcell _ IH]; [reflexivity |].
      cbn [map]. now rewrite printable_trim, IH. }
    rewrite <- Hescaped at 1.
    change (Exporter.escapeCSV (GoalManager.name goal) :: map Exporter.escapeCSV numbers)
      with (map Exporter.escapeCSV (GoalManager.name goal :: numbers)).
    rewrite parseCSVLine_loop_join. cbn [app map]. now rewrite Htrim, Htrimmed.
Qed.

Lemma parseCSV_loop_rows goals : forall rows i imported,
  Forall exportable goals ->
  Forall (reads_back toString parseFloat) goals ->
  Exporter.rows toString fuel goals = Some rows ->
  Importer.parseCSV_loop parseFloat Date_now (map (join [comma]) rows) i imported
  = Importer.Ok (imported ++ reimported Date_now i goals).
Proof.
  induction goals as [| goal goals IH]; intros rows i imported Hexp Hback Hrows.
  - cbn in Hrows. injection Hrows as <-. cbn. now rewrite app_nil_r.
  - cbn [Exporter.rows] in Hrows.
    destruct (Exporter.row toString fuel goal) as [cells |] eqn:Hrow; [| discriminate].
    destruct (Exporter.rows toString fuel goals) as [others |] eqn:Hothers;
      [| discriminate].
    injection Hrows as <-.
    inversion Hexp as [| ? ? Hgoal Hexp']; subst.
    inversion Hback as [| ? ? (Bp & Br & By & Be) Hback']; subst.
    destruct (row_line goal cells Hgoal Hrow)
      as (Hne & Hstart & Hend & _ & more & Hparse).
    cbn [map Importer.parseCSV_loop].
    rewrite (trim_clean _ Hstart Hend).
    rewrite (proj2 (is_empty_false _) Hne), Hparse.
    cbn [length Nat.ltb Nat.leb nth]. rewrite Bp, Br, By, Be.
    rewrite (proj2 (validateGoal_accepts _ _)).
    + rewrite (IH others (S i) _ Hexp' Hback' eq_refl).
      rewrite <- app_assoc. reflexivity.
    + destruct Hgoal as (Hn & Ht & _ & Hp & Hr & Hy & He).
      unfold Importer.accepted.
      cbn [Importer.name Importer.currentPrice Importer.inflationRate
             Importer.years Importer.expectedReturn].
      rewrite Ht. auto.
Qed.

Lemma rows_lines goals : forall rows,
  Forall exportable goals ->
  Exporter.rows toString fuel goals = Some rows ->
  length rows = length goals
  /\ Forall (fun line =>
               (line <> [] /\ clean_start (rev line))
               /\ includes line newline = false)
       (map (join [comma]) rows).
Proof.
  induction goals as [| goal goals IH]; intros rows Hexp Hrows.
  - cbn in Hrows. injection Hrows as <-. split; [reflexivity | constructor].
  - cbn [Exporter.rows] in Hrows.
    destruct (Exporter.row toString fuel goal) as [cells |] eqn:Hrow; [| discriminate].
    destruct (Exporter.rows toString fuel goals) as [others |] eqn:Hothers;
      [| discriminate].
    injection Hrows as <-.
    inversion Hexp as [| ? ? Hgoal Hexp']; subst.
    destruct (IH others Hexp' eq_refl) as [Hlen Hall].
    destruct (row_line goal cells Hgoal Hrow) as (Hne & _ & Hend & Hnl & _).
    split; [cbn; now rewrite Hlen |]. cbn [map]. now constructor.
Qed.

End ExportImport.

Lemma header_line_clean :
  join [comma] Exporter.headers <> []
  /\ clean_start (join [comma] Exporter.headers)
  /\ clean_start (rev (join [comma] Exporter.headers))
  /\ includes (join [comma] Exporter.headers) newline = false.
Proof. repeat split; vm_compute; discriminate || reflexivity. Qed.

Lemma exportToCSV_parseCSV toString parseFloat Date_now fuel goals csv :
  (forall x, printable (toString x)) ->
  goals <> [] ->
  Forall exportable goals ->
  Forall (reads_back toString parseFloat) goals ->
  Exporter.exportToCSV toString fuel goals = Some csv ->
  Importer.parseCSV parseFloat Date_now csv
  = Importer.Ok (reimported Date_now 0 goals).
Proof.
  intros Hprint Hne Hexp Hback Hcsv.
  unfold Exporter.exportToCSV in Hcsv.
  destruct goals as [| goal goals]; [congruence |].
  destruct (Exporter.rows toString fuel (goal :: goals)) as [rows |] eqn:Hrows;
    [| discriminate].
  assert (Ecsv : csv = join [newline]
                         (join [comma] Exporter.headers :: map (join [comma]) rows))
    by congruence.
  subst csv. clear Hcsv.
  destruct (rows_lines toString Hprint fuel _ _ Hexp Hrows) as [Hlen Hlines].
  destruct header_line_clean as (H0 & H1 & H2 & H3).
  set (header := join [comma] Exporter.headers) in *.
  set (lines := map (join [comma]) rows) in *.
  assert (Hall : Forall (fun line => line <> [] /\ clean_start (rev line))
                   (header :: lines)).
  { constructor; [now split |]. eapply Forall_impl; [| exact Hlines].
    now intros line [? _]. }
  destruct (join_clean_end [newline] lines header Hall) as [_ Hend].
  assert (Hstart : clean_start (join [newline] (header :: lines)))
    by now apply join_clean_start.
  unfold Importer.parseCSV.
  rewrite (trim_clean _ Hstart Hend).
  rewrite split_join;
    [| discriminate
     | constructor;
       [exact H3 | eapply Forall_impl; [| exact Hlines]; now intros line [_ ?]]].
  assert (Hrows0 : (2 <= length (header :: lines))%nat).
  { cbn [length]. unfold lines. rewrite length_map, Hlen. cbn. lia. }
  apply Nat.ltb_ge in Hrows0. rewrite Hrows0. cbn [skipn].
  unfold lines.
  now rewrite (parseCSV_loop_rows toString parseFloat Date_now Hprint fuel
                 _ _ 0 [] Hexp Hback Hrows).
Qed.


Lemma level_calls fuel T y a m :
  calculateMonthlySIP fuel T y a (Fin 0)
  = Some (LegacyCalculator.calculateMonthlySIP T y a)
  /\ calculateTotalInvestment fuel m y (Fin 0)
     = Some (LegacyCalculator.calculateTotalInvestment m y).
Proof.
  unfold calculateMonthlySIP, LegacyCalculator.calculateMonthlySIP,
    calculateTotalInvestment.
  cbn [truthy strict_eq]. rewrite (Reqb_true 0 0) by reflexivity. cbn [negb orb].
  split; [| reflexivity]. destruct (_ || _ || _); reflexivity.
Qed.


(** * Easier plans *)

(** What a unit contribution is worth does not fall when the horizon, the
    return or the step-up rate is raised. *)
Lemma fv_factor_le (n1 n2 : nat) a1 a2 s1 s2 :
  (n1 <= n2)%nat -> 0 < a1 <= a2 -> 0 <= s1 <= s2 ->
  fv_factor (INR n1) a1 s1 <= fv_factor (INR n2) a2 s2.
Proof.
  intros Hn Ha Hs. unfold fv_factor. rewrite !year_count_INR.
  assert (Hb1 : 1 < 1 + a1 / 12 / 100).
  { assert (0 < a1 / 12 / 100) by (repeat apply Rmult_lt_0_compat; lra). lra. }
  assert (Hb : 1 + a1 / 12 / 100 <= 1 + a2 / 12 / 100).
  { apply Rplus_le_compat_l. unfold Rdiv. repeat apply Rmult_le_compat_r; lra. }
  assert (Hg1 : 0 <= 1 + s1 / 100).
  { assert (0 <= s1 / 100) by (apply Rmult_le_pos; lra). lra. }
  assert (Hg : 1 + s1 / 100 <= 1 + s2 / 100).
  { apply Rplus_le_compat_l. unfold Rdiv. apply Rmult_le_compat_r; lra. }
  apply Rle_trans
    with (fv_sum (1 + a2 / 12 / 100) (1 + s1 / 100) (INR n1) n1 0).
  { destruct Hb as [Hb | <-]; [| lra]. apply fv_sum_le_b; (lra || lia). }
  apply Rle_trans
    with (fv_sum (1 + a2 / 12 / 100) (1 + s2 / 100) (INR n1) n1 0).
  { apply fv_sum_le_g. lra. }
  apply Rle_trans
    with (fv_sum (1 + a2 / 12 / 100) (1 + s2 / 100) (INR n2) n1 0).
  { destruct (Nat.eq_dec n1 n2) as [<- | Hne]; [lra |].
    apply fv_sum_le_years; try lra. apply lt_INR. lia. }
  pose proof (fv_sum_extend (1 + a2 / 12 / 100) (1 + s2 / 100) (INR n2) n1
                (n2 - n1) 0 ltac:(lra)) as Hext.
  replace (n1 + (n2 - n1))%nat with n2 in Hext by lia. exact Hext.
Qed.

Lemma calculateMonthlySIP_level_exact T (n : nat) a :
  0 <= T -> (1 <= n)%nat -> 0 < a ->
  returns (fun fuel => calculateMonthlySIP fuel (Fin T) (Fin (INR n)) (Fin a) (Fin 0))
    (Fin (IZR (Zfloor (T / fv_factor (INR n) a 0 + / 2)))).
Proof.
  intros HT Hn Ha.
  assert (Hy : 1 <= INR n) by (replace 1 with (INR 1) by reflexivity; now apply le_INR).
  exists O. intros fuel _.
  destruct (Req_dec_T T 0) as [-> | HT0].
  - unfold calculateMonthlySIP. cbn [strict_eq]. rewrite Reqb_true by reflexivity.
    cbn [orb]. do 3 f_equal. symmetry. apply Zfloor_eq.
    unfold Rdiv. rewrite Rmult_0_l. simpl. lra.
  - rewrite calculateMonthlySIP_level_fin by lra.
    unfold level_sip_real. now rewrite <- fv_factor_level.
Qed.



(** * Backup and restore *)

Section Restore.

Context {Store : Type} `{GoalManager.StorageService Store}.

Variable clock : nat -> num.

Lemma forEach_addGoal_goals importedGoals : forall k (this : GoalManager.manager Store),
  exists added,
    GoalManager.goals (MultiGoalSIPApp.forEach_addGoal clock k importedGoals this)
    = GoalManager.goals this ++ added
    /\ Forall2 (fun (goal : Importer.Goal) new =>
                  GoalManager.name new = Importer.name goal
                  /\ GoalManager.currentPrice new = Importer.currentPrice goal
                  /\ GoalManager.inflationRate new = Importer.inflationRate goal
                  /\ GoalManager.years new = Importer.years goal
                  /\ GoalManager.expectedReturn new = Importer.expectedReturn goal
                  /\ GoalManager.stepUpRate new = Fin 0)
         importedGoals added
    /\ forall this' : GoalManager.manager Store,
         GoalManager.goals (MultiGoalSIPApp.forEach_addGoal clock k importedGoals this')
         = GoalManager.goals this' ++ added.
Proof.
  induction importedGoals as [| goal rest IH]; intros k this.
  - exists []. cbn. rewrite app_nil_r. repeat split; [constructor |].
    intros this'. now rewrite app_nil_r.
  - cbn [MultiGoalSIPApp.forEach_addGoal].
    destruct (IH (S k)
                (snd (GoalManager.addGoal (clock k) (Importer.name goal)
                        (Importer.currentPrice goal) (Importer.inflationRate goal)
                        (Importer.years goal) (Importer.expectedReturn goal)
                        (Some (Fin 0)) this)))
      as (added & Hgoals & Hsame & Hany).
    eexists (_ :: added). split; [| split].
    + rewrite Hgoals. unfold GoalManager.addGoal. cbn [snd].
      rewrite saveToStorage_goals. cbn [GoalManager.goals].
      rewrite <- app_assoc. reflexivity.
    + constructor; [| exact Hsame]. cbn [truthy].
      rewrite (Reqb_true 0 0) by reflexivity. cbn. repeat split.
    + intros this'. rewrite Hany. unfold GoalManager.addGoal. cbn [snd].
      rewrite saveToStorage_goals. cbn [GoalManager.goals].
      rewrite <- app_assoc. reflexivity.
Qed.

Lemma reimported_same Date_now goals : forall i,
  Forall2 (fun (old : GoalManager.Goal) (goal : Importer.Goal) =>
             Importer.name goal = GoalManager.name old
             /\ Importer.currentPrice goal = GoalManager.currentPrice old
             /\ Importer.inflationRate goal = GoalManager.inflationRate old
             /\ Importer.years goal = GoalManager.years old
             /\ Importer.expectedReturn goal = GoalManager.expectedReturn old)
    goals (reimported Date_now i goals).
Proof.
  induction goals as [| goal goals IH]; intros i; cbn [reimported]; constructor.
  - cbn. repeat split.
  - apply IH.
Qed.

Lemma Forall2_compose {A B C} (P : A -> B -> Prop) (Q : B -> C -> Prop)
    (R : A -> C -> Prop) l1 : forall l2 l3,
  (forall a b c, P a b -> Q b c -> R a c) ->
  Forall2 P l1 l2 -> Forall2 Q l2 l3 -> Forall2 R l1 l3.
Proof.
  induction l1 as [| a l1 IH]; intros l2 l3 HPQ H12 H23;
    inversion H12; subst; inversion H23; subst; constructor; eauto.
Qed.

End Restore.



(** * The chart series over the years *)

Lemma nth_map_seq {A} (f : nat -> A) N k d :
  (k < N)%nat -> nth k (map f (seq 0 N)) d = f k.
Proof.
  intros Hk. rewrite (nth_indep _ d (f O)) by (rewrite length_map, length_seq; lia).
  rewrite map_nth, seq_nth by lia. reflexivity.
Qed.

Lemma invest_sum_snoc g k : forall c,
  invest_sum c g (S k) = invest_sum c g k + 12 * c * g ^ k.
Proof.
  induction k as [| k IH]; intros c; [cbn; ring |].
  change (invest_sum c g (S (S k))) with (c * 12 + invest_sum (c * g) g (S k)).
  rewrite IH. cbn [invest_sum pow]. ring.
Qed.

Lemma fv_sum_snoc b g years n : forall k,
  fv_sum b g years (S n) k
  = fv_sum b g years n k + g ^ n * month_factor b ((years - INR (k + n)) * 12).
Proof.
  induction n as [| n IH]; intros k.
  - cbn [fv_sum pow]. rewrite Nat.add_0_r. ring.
  - change (fv_sum b g years (S (S n)) k)
      with (month_factor b ((years - INR k) * 12)
            + g * fv_sum b g years (S n) (S k)).
    rewrite IH. cbn [fv_sum pow].
    replace (S k + n)%nat with (k + S n)%nat by lia. ring.
Qed.

(** One more year is worth more than twelve more units. *)
Lemma fv_factor_step k e s :
  0 < e -> 0 <= s -> fv_factor (INR k) e s + 12 < fv_factor (INR (S k)) e s.
Proof.
  intros He Hs. unfold fv_factor. rewrite !year_count_INR, fv_sum_snoc.
  assert (Hb : 1 < 1 + e / 12 / 100).
  { assert (0 < e / 12 / 100) by (repeat apply Rmult_lt_0_compat; lra). lra. }
  assert (Hg : 1 <= 1 + s / 100).
  { assert (0 <= s / 100) by (apply Rmult_le_pos; lra). lra. }
  assert (Hle : fv_sum (1 + e / 12 / 100) (1 + s / 100) (INR k) k 0
                <= fv_sum (1 + e / 12 / 100) (1 + s / 100) (INR (S k)) k 0).
  { apply fv_sum_le_years; try lra. rewrite S_INR. lra. }
  assert (Hpow : 1 <= (1 + s / 100) ^ k) by now apply pow_R1_Rle.
  assert (Hlast : 12 < month_factor (1 + e / 12 / 100) ((INR (S k) - INR (0 + k)) * 12)).
  { apply month_factor_gt_12; [assumption |]. cbn [Nat.add]. rewrite S_INR. lra. }
  nra.
Qed.

Lemma round_le a b : a <= b -> IZR (Zfloor (a + / 2)) <= IZR (Zfloor (b + / 2)).
Proof. intros H. apply IZR_le, Zfloor_le. lra. Qed.

Lemma round_lt a b : a + 1 <= b -> IZR (Zfloor (a + / 2)) < IZR (Zfloor (b + / 2)).
Proof.
  intros H. apply IZR_lt.
  assert (Hz : (Zfloor (a + / 2) + 1 <= Zfloor (b + / 2))%Z).
  { rewrite <- Zfloor_addz. apply Zfloor_le. simpl. lra. }
  lia.
Qed.


